(** * Caching subsystem of the Express/TypeScript API

  A shallow embedding of the cache-key utility
  ([src/utils/cache-key.util.ts]), the Redis-backed cache service
  ([src/services/cache.service.ts]) and the cache-aside user repository
  ([src/repositories/user.repository.ts]), with the properties of the
  caching specification stated and proved over it; and of the code
  around them, the self-test of the cache, the base repository, the user
  service and the routes of the cache, with the properties that code
  shows.

  Conventions.  JavaScript strings are [string]s (sequences of code
  units compared by code).  A number that the code tests, compares or
  writes into a key is a [JS.number]: a whole number, [NaN] or an
  infinity; a count, a filter value and a number inside a cached value
  are whole numbers in [Z].  A template literal is string concatenation,
  an [async] method is a function in a state-and-exception monad, and a
  call that may never settle says so in its result. *)

From Stdlib Require Import ZArith String Ascii List.
From stdpp Require Import gmap strings list sorting pretty.

Set Warnings "-register-all".

Open Scope string_scope.

(** ** JavaScript primitives *)

Module JS.

(** The primitive values that occur as filter values and ids. *)
Inductive prim :=
| PUndefined
| PNull
| PBool (b : bool)
| PNum (n : Z)
| PStr (s : string).

(** [String(v)] *)
Definition String_of (v : prim) : string :=
  match v with
  | PUndefined => "undefined"
  | PNull => "null"
  | PBool true => "true"
  | PBool false => "false"
  | PNum n => pretty n
  | PStr s => s
  end.

(** [v !== undefined && v !== null] *)
Definition defined (v : prim) : bool :=
  match v with
  | PUndefined | PNull => false
  | _ => true
  end.

(** A number: a whole number, [NaN] or an infinity; fractions are not in
    the model.  [-0] is not told from [0]: the two are equal, both are
    falsy and both are written [0]. *)
Inductive number :=
| Num (z : Z)
| NaN
| Infinity
| MinusInfinity.

(** [n.toString()], which is also what a template literal and [String(n)]
    write: the decimal digits of a whole number, as they are written
    below [10^21]. *)
Definition number_text (n : number) : string :=
  match n with
  | Num z => pretty z
  | NaN => "NaN"
  | Infinity => "Infinity"
  | MinusInfinity => "-Infinity"
  end.

(** Truthiness of an optional number: [undefined], [0] and [NaN] are
    falsy. *)
Definition truthy_num (n : option number) : bool :=
  match n with
  | Some (Num z) => negb (z =? 0)%Z
  | Some NaN => false
  | Some _ => true
  | None => false
  end.

(** [a < b], which is false as soon as one side is [NaN]. *)
Definition lt (a b : number) : bool :=
  match a, b with
  | Num x, Num y => (x <? y)%Z
  | Num _, Infinity => true
  | MinusInfinity, Num _ => true
  | MinusInfinity, Infinity => true
  | _, _ => false
  end.

(** [a - b] *)
Definition sub (a b : number) : number :=
  match a, b with
  | Num x, Num y => Num (x - y)
  | Num _, Infinity => MinusInfinity
  | Num _, MinusInfinity => Infinity
  | Infinity, Num _ => Infinity
  | Infinity, MinusInfinity => Infinity
  | MinusInfinity, Num _ => MinusInfinity
  | MinusInfinity, Infinity => MinusInfinity
  | _, _ => NaN
  end.

Definition sign (a : number) : Z :=
  match a with
  | Num x => Z.sgn x
  | NaN => 0
  | Infinity => 1
  | MinusInfinity => -1
  end.

(** [a * b]: an infinity times zero is [NaN]. *)
Definition mul (a b : number) : number :=
  match a, b with
  | Num x, Num y => Num (x * y)
  | NaN, _ => NaN
  | _, NaN => NaN
  | _, _ =>
      match (sign a * sign b)%Z with
      | Z0 => NaN
      | Zpos _ => Infinity
      | Zneg _ => MinusInfinity
      end
  end.

(** A whole number above zero, and the whole number a number is. *)
Definition positive (n : number) : bool :=
  match n with
  | Num z => (0 <? z)%Z
  | _ => false
  end.

Definition whole (n : number) : Z :=
  match n with
  | Num z => z
  | _ => 0
  end.

(** Truthiness of an optional string: [undefined], [null] and [""] are
    falsy. *)
Definition truthy_str (s : option string) : bool :=
  match s with
  | Some s => negb (String.eqb s "")
  | None => false
  end.

(** A plain object used as a record of filters: its own properties in
    insertion order.  A JavaScript object holds a property name at most
    once, which is [wf_object]. *)
Definition object := list (string * prim).

Definition wf_object (o : object) : Prop := NoDup o.*1.

(** [Object.keys(o)] *)
Definition Object_keys (o : object) : list string := o.*1.

Fixpoint assoc (key : string) (o : object) : option prim :=
  match o with
  | [] => None
  | (k, v) :: o' => if decide (k = key) then Some v else assoc key o'
  end.

(** [o[key]] *)
Definition get_prop (o : object) (key : string) : prim :=
  default PUndefined (assoc key o).

(** [keys.sort()]: the default comparison orders strings by their code
    units. *)
Definition sort (keys : list string) : list string :=
  merge_sort String.le keys.

(** [parts.join(sep)] *)
Definition join (sep : string) (parts : list string) : string :=
  String.concat sep parts.

(** The text of a string with no [":"] in it. *)
Fixpoint colon_free (s : string) : bool :=
  match s with
  | EmptyString => true
  | String c s' => negb (Ascii.eqb c ":") && colon_free s'
  end.

(** [s.split(":")] *)
Fixpoint split_colon_go (cur : string) (s : string) : list string :=
  match s with
  | EmptyString => [String.rev cur]
  | String c s' =>
      if Ascii.eqb c ":" then String.rev cur :: split_colon_go "" s'
      else split_colon_go (String c cur) s'
  end.

Definition split_colon (s : string) : list string := split_colon_go "" s.

(** What may follow a segment of a key: nothing, or a colon and more. *)
Definition segment_end (rest : string) : Prop :=
  match rest with
  | EmptyString => True
  | String c _ => c = ":"%char
  end.

(** White space as [trim] and the class [\s] read it, among the code units
    below 256: tab, line feed, vertical tab, form feed, carriage return,
    space and no-break space. *)
Definition is_space (c : ascii) : bool :=
  let n := N_of_ascii c in
  ((9 <=? n) && (n <=? 13) || (n =? 32) || (n =? 160))%N.

(** The lower-case form of a code unit below 256: the letters [A] to [Z]
    and the capital letters of Latin-1, the multiplication sign apart. *)
Definition lower_char (c : ascii) : ascii :=
  let n := N_of_ascii c in
  if ((65 <=? n) && (n <=? 90)
      || (192 <=? n) && (n <=? 222) && negb (n =? 215))%N
  then ascii_of_N (n + 32) else c.

(** [s.toLowerCase()] *)
Fixpoint toLowerCase (s : string) : string :=
  match s with
  | EmptyString => ""
  | String c s' => String (lower_char c) (toLowerCase s')
  end.

Fixpoint trimStart (s : string) : string :=
  match s with
  | String c s' => if is_space c then trimStart s' else s
  | EmptyString => s
  end.

Fixpoint trimEnd (s : string) : string :=
  match s with
  | EmptyString => ""
  | String c s' =>
      match trimEnd s' with
      | EmptyString => if is_space c then "" else String c ""
      | t => String c t
      end
  end.

(** [s.trim()] *)
Definition trim (s : string) : string := trimEnd (trimStart s).

(** [s.replace(/\s+/g, "_")]: every maximal run of white space becomes one
    underscore.  [in_run] says that the character before was white
    space. *)
Fixpoint replace_spaces_go (in_run : bool) (s : string) : string :=
  match s with
  | EmptyString => ""
  | String c s' =>
      if is_space c then
        if in_run then replace_spaces_go true s'
        else String "_" (replace_spaces_go true s')
      else String c (replace_spaces_go false s')
  end.

Definition replace_spaces (s : string) : string := replace_spaces_go false s.

(** The texts with no white space in them, and the texts that are white
    space only. *)
Fixpoint no_space (s : string) : bool :=
  match s with
  | EmptyString => true
  | String c s' => negb (is_space c) && no_space s'
  end.

Fixpoint blank (s : string) : bool :=
  match s with
  | EmptyString => true
  | String c s' => is_space c && blank s'
  end.

End JS.

(** ** Key derivation: [src/utils/cache-key.util.ts] *)

Module CacheKeyGenerator.
Import JS.

Record PaginationParams := {
  page : option number;
  limit : option number
}.

(** An id is [string | number]. *)
Inductive key_id :=
| IdString (s : string)
| IdNumber (n : number).

(** The text an id contributes to a template literal. *)
Definition id_text (id : key_id) : string :=
  match id with
  | IdString s => s
  | IdNumber n => number_text n
  end.

Definition entityById (entityType : string) (id : key_id) : string :=
  entityType +:+ ":" +:+ id_text id.

Definition entityByField (entityType field value : string) : string :=
  entityType +:+ ":" +:+ field +:+ ":" +:+ value.

(** [pagination?.page] and [pagination?.limit] *)
Definition page_of (pagination : option PaginationParams)
  : option number :=
  pagination ≫= page.

Definition limit_of (pagination : option PaginationParams)
  : option number :=
  pagination ≫= limit.

(** [if (n) parts.push(label, n.toString())] *)
Definition num_part (label : string) (n : option number) : list string :=
  match n with
  | Some x => if truthy_num n then [label; number_text x] else []
  | None => []
  end.

(** The pagination segment of a list key. *)
Definition pagination_parts (pagination : option PaginationParams)
  : list string :=
  let p := page_of pagination in
  let l := limit_of pagination in
  if truthy_num p && truthy_num l then
    [ "page"; number_text (default (Num 0) p);
      "limit"; number_text (default (Num 0) l) ]
  else if truthy_num p || truthy_num l then
    num_part "page" p ++ num_part "limit" l
  else
    [ "all" ].

(** What one filter key pushes onto the parts. *)
Definition filter_part (filters : object) (key : string) : list string :=
  if defined (get_prop filters key)
  then [ key; String_of (get_prop filters key) ]
  else [].

(** The filter segment, shared by the list, aggregation and search keys. *)
Definition filter_parts (filters : option object) : list string :=
  match filters with
  | Some f =>
      if (0 <? length (Object_keys f))%nat then
        let filterKeys := sort (Object_keys f) in
        flat_map (filter_part f) filterKeys
      else []
  | None => []
  end.

Definition entityList (entityType : string)
    (pagination : option PaginationParams) (filters : option object)
  : string :=
  join ":" ([ entityType; "list" ] ++ pagination_parts pagination
              ++ filter_parts filters).

Definition entityPattern (entityType : string) (pattern : option string)
  : string :=
  entityType +:+ ":" +:+ default "*" pattern.

(** [pagination?.page && pagination?.limit] *)
Definition has_page_and_limit (pagination : option PaginationParams) : bool :=
  truthy_num (page_of pagination) && truthy_num (limit_of pagination).

(** What is pushed for a pagination with both numbers. *)
Definition page_and_limit (pagination : option PaginationParams)
  : list string :=
  [ "page"; number_text (default (Num 0) (page_of pagination));
    "limit"; number_text (default (Num 0) (limit_of pagination)) ].

Definition entityRelation (parentEntity : string) (parentId : key_id)
    (relation : string) (pagination : option PaginationParams) : string :=
  join ":" ([ parentEntity; id_text parentId; relation ]
              ++ (if has_page_and_limit pagination
                  then page_and_limit pagination
                  else [ "all" ])).

Definition entityAggregation (entityType aggregationType : string)
    (field : option string) (filters : option object) : string :=
  join ":" ([ entityType; aggregationType ]
              ++ (if truthy_str field then [ default "" field ] else [])
              ++ filter_parts filters).

(** [searchQuery.toLowerCase().trim().replace(/\s+/g, "_")] *)
Definition normalizedQuery (searchQuery : string) : string :=
  replace_spaces (trim (toLowerCase searchQuery)).

Definition entitySearch (entityType searchQuery : string)
    (pagination : option PaginationParams) (filters : option object)
  : string :=
  join ":" ([ entityType; "search"; normalizedQuery searchQuery ]
              ++ (if has_page_and_limit pagination
                  then page_and_limit pagination
                  else [])
              ++ filter_parts filters).

(** [custom(...parts)], a part being a string or a number. *)
Definition custom (parts : list key_id) : string :=
  join ":" (map id_text parts).

(** A logical access descriptor: what is being looked up, before it is
    turned into a key. *)
Inductive descriptor :=
| ById (id : key_id)
| ByField (field value : string)
| ListOf (pagination : option PaginationParams) (filters : option object).

Definition derive (entityType : string) (d : descriptor) : string :=
  match d with
  | ById id => entityById entityType id
  | ByField f v => entityByField entityType f v
  | ListOf p f => entityList entityType p f
  end.

End CacheKeyGenerator.

(** The convenience functions of [CacheKey] that are more than another
    name for a generator. *)
Module CacheKey.
Import JS.

Definition count (entityType : string) (filters : option object) : string :=
  CacheKeyGenerator.entityAggregation entityType "count" None filters.

Definition sum (entityType field : string) (filters : option object)
  : string :=
  CacheKeyGenerator.entityAggregation entityType "sum" (Some field) filters.

End CacheKey.

(** The key generators kept on the cache service for backward
  compatibility ([generateUserKey] and friends). *)

Module LegacyKeys.
Import JS.

Definition generateUserKey (id : string) : string := "user:" +:+ id.

Definition generateUsersListKey (page limit : option number) : string :=
  if truthy_num page && truthy_num limit then
    "users:list:page:" +:+ number_text (default (Num 0) page)
      +:+ ":limit:" +:+ number_text (default (Num 0) limit)
  else "users:list:all".

Definition generateUserByEmailKey (email : string) : string :=
  "user:email:" +:+ email.

End LegacyKeys.

(** ** Values and their JSON text *)

Module JSON.
Import JS.

(** The values handed to the cache: primitives, [Date]s (held by their ISO
    text, as [toISOString] gives it), arrays and plain objects.  The rows
    the repository caches carry a [created_at] date. *)
Inductive jsvalue :=
| VPrim (p : prim)
| VDate (iso : string)
| VArray (items : list jsvalue)
| VObject (props : list (string * jsvalue)).

Definition null : jsvalue := VPrim PNull.

(** Truthiness of a value, as [if (cachedResult)] tests it. *)
Definition truthy (v : jsvalue) : bool :=
  match v with
  | VPrim PUndefined | VPrim PNull | VPrim (PBool false) => false
  | VPrim (PNum n) => negb (n =? 0)%Z
  | VPrim (PStr s) => negb (String.eqb s "")
  | _ => true
  end.

Definition dquote : ascii := "034"%char.

Definition hex_digit (n : N) : ascii :=
  if (n <? 10)%N then ascii_of_N (48 + n) else ascii_of_N (87 + n).

Definition hex_value (c : ascii) : option N :=
  let n := N_of_ascii c in
  if (48 <=? n)%N && (n <=? 57)%N then Some (n - 48)%N
  else if (97 <=? n)%N && (n <=? 102)%N then Some (n - 87)%N
  else if (65 <=? n)%N && (n <=? 70)%N then Some (n - 55)%N
  else None.

(** How [JSON.stringify] writes one character of a string. *)
Definition escape_char (c : ascii) : string :=
  let n := N_of_ascii c in
  if Ascii.eqb c dquote then String "\" (String dquote "")
  else if Ascii.eqb c "\" then "\\"
  else if (n =? 8)%N then "\b"
  else if (n =? 9)%N then "\t"
  else if (n =? 10)%N then "\n"
  else if (n =? 12)%N then "\f"
  else if (n =? 13)%N then "\r"
  else if (n <? 32)%N then
    "\u00" +:+ String (hex_digit (n / 16)) (String (hex_digit (n mod 16)) "")
  else String c "".

Fixpoint escape (s : string) : string :=
  match s with
  | EmptyString => ""
  | String c s' => escape_char c +:+ escape s'
  end.

Definition quote (s : string) : string :=
  String dquote (escape s +:+ String dquote "").

Definition stringify_prim (p : prim) : option string :=
  match p with
  | PUndefined => None
  | PNull => Some "null"
  | PBool true => Some "true"
  | PBool false => Some "false"
  | PNum n => Some (pretty n)
  | PStr s => Some (quote s)
  end.

(** [JSON.stringify(v)]: [None] is the [undefined] it returns for a value
    with no JSON text.  An [undefined] array item is written [null], an
    [undefined] property is left out, a [Date] is written as its ISO
    string. *)
Fixpoint stringify (v : jsvalue) : option string :=
  match v with
  | VPrim p => stringify_prim p
  | VDate iso => Some (quote iso)
  | VArray items =>
      Some ("[" +:+ join "," (map (fun x => default "null" (stringify x)) items)
              +:+ "]")
  | VObject props =>
      Some ("{" +:+ join ","
              (omap (fun kv => s ← stringify kv.2;
                               Some (quote kv.1 +:+ ":" +:+ s)) props)
              +:+ "}")
  end.

Definition unescape (e : ascii) : option ascii :=
  if Ascii.eqb e dquote then Some dquote
  else if Ascii.eqb e "\" then Some "\"%char
  else if Ascii.eqb e "/" then Some "/"%char
  else if Ascii.eqb e "b" then Some (ascii_of_N 8)
  else if Ascii.eqb e "t" then Some (ascii_of_N 9)
  else if Ascii.eqb e "n" then Some (ascii_of_N 10)
  else if Ascii.eqb e "f" then Some (ascii_of_N 12)
  else if Ascii.eqb e "r" then Some (ascii_of_N 13)
  else None.

Definition hex4 (h1 h2 h3 h4 : ascii) : option ascii :=
  a ← hex_value h1; b ← hex_value h2; c ← hex_value h3; d ← hex_value h4;
  let n := (((a * 16 + b) * 16 + c) * 16 + d)%N in
  if (n <? 256)%N then Some (ascii_of_N n) else None.

(** The characters of a string literal, after its opening quote, and the
    text left after its closing quote. *)
Fixpoint parse_chars (s : string) : option (string * string) :=
  match s with
  | EmptyString => None
  | String c r =>
      if Ascii.eqb c dquote then Some ("", r)
      else if Ascii.eqb c "\" then
        match r with
        | String e r1 =>
            match unescape e with
            | Some x => '(t, r2) ← parse_chars r1; Some (String x t, r2)
            | None =>
                if Ascii.eqb e "u" then
                  match r1 with
                  | String h1 (String h2 (String h3 (String h4 r2))) =>
                      x ← hex4 h1 h2 h3 h4;
                      '(t, r3) ← parse_chars r2; Some (String x t, r3)
                  | _ => None
                  end
                else None
            end
        | EmptyString => None
        end
      else if (N_of_ascii c <? 32)%N then None
      else '(t, r1) ← parse_chars r; Some (String c t, r1)
  end.

Fixpoint skip_ws (s : string) : string :=
  match s with
  | String c r =>
      if Ascii.eqb c " " || (N_of_ascii c =? 9)%N || (N_of_ascii c =? 10)%N
         || (N_of_ascii c =? 13)%N
      then skip_ws r else s
  | EmptyString => s
  end.

Definition is_digit (c : ascii) : bool :=
  (48 <=? N_of_ascii c)%N && (N_of_ascii c <=? 57)%N.

Fixpoint parse_digits (acc : N) (s : string) : N * string :=
  match s with
  | String c r =>
      if is_digit c then parse_digits (acc * 10 + (N_of_ascii c - 48))%N r
      else (acc, s)
  | EmptyString => (acc, s)
  end.

(** A whole number without sign; a leading zero stands alone, and a
    fraction or an exponent is not in this model of numbers. *)
Definition parse_nat (s : string) : option (N * string) :=
  match s with
  | String c r =>
      if Ascii.eqb c "0" then
        match r with
        | String d _ =>
            if is_digit d || Ascii.eqb d "." || Ascii.eqb d "e"
               || Ascii.eqb d "E"
            then None else Some (0%N, r)
        | EmptyString => Some (0%N, r)
        end
      else if is_digit c then
        let '(n, r') := parse_digits 0 s in
        match r' with
        | String d _ =>
            if Ascii.eqb d "." || Ascii.eqb d "e" || Ascii.eqb d "E"
            then None else Some (n, r')
        | EmptyString => Some (n, r')
        end
      else None
  | EmptyString => None
  end.

Definition expect (word : string) (v : jsvalue) (s : string)
  : option (jsvalue * string) :=
  if String.prefix word s
  then Some (v, substring (String.length word)
                  (String.length s - String.length word) s)
  else None.

(** One JSON value at the head of the text, and the text after it.  The
    fuel bounds the depth of the recursion; [parse] gives it the length of
    the text. *)
Fixpoint parse_value (fuel : nat) (s : string) : option (jsvalue * string) :=
  match fuel with
  | O => None
  | S fuel =>
      match skip_ws s with
      | EmptyString => None
      | String c r =>
          if Ascii.eqb c "n" then expect "ull" null r
          else if Ascii.eqb c "t" then expect "rue" (VPrim (PBool true)) r
          else if Ascii.eqb c "f" then expect "alse" (VPrim (PBool false)) r
          else if Ascii.eqb c dquote then
            '(t, r') ← parse_chars r; Some (VPrim (PStr t), r')
          else if Ascii.eqb c "-" then
            '(n, r') ← parse_nat r; Some (VPrim (PNum (- Z.of_N n)), r')
          else if is_digit c then
            '(n, r') ← parse_nat (String c r);
            Some (VPrim (PNum (Z.of_N n)), r')
          else if Ascii.eqb c "[" then
            match skip_ws r with
            | String d r' =>
                if Ascii.eqb d "]" then Some (VArray [], r')
                else '(vs, r'') ← parse_items fuel r; Some (VArray vs, r'')
            | EmptyString => None
            end
          else if Ascii.eqb c "{" then
            match skip_ws r with
            | String d r' =>
                if Ascii.eqb d "}" then Some (VObject [], r')
                else '(ms, r'') ← parse_members fuel r; Some (VObject ms, r'')
            | EmptyString => None
            end
          else None
      end
  end
with parse_items (fuel : nat) (s : string) : option (list jsvalue * string) :=
  match fuel with
  | O => None
  | S fuel =>
      '(v, r) ← parse_value fuel s;
      match skip_ws r with
      | String c r' =>
          if Ascii.eqb c "," then
            '(vs, r'') ← parse_items fuel r'; Some (v :: vs, r'')
          else if Ascii.eqb c "]" then Some ([v], r')
          else None
      | EmptyString => None
      end
  end
with parse_members (fuel : nat) (s : string)
  : option (list (string * jsvalue) * string) :=
  match fuel with
  | O => None
  | S fuel =>
      match skip_ws s with
      | String q r0 =>
          if Ascii.eqb q dquote then
            '(k, r1) ← parse_chars r0;
            match skip_ws r1 with
            | String c r2 =>
                if Ascii.eqb c ":" then
                  '(v, r3) ← parse_value fuel r2;
                  match skip_ws r3 with
                  | String d r4 =>
                      if Ascii.eqb d "," then
                        '(ms, r5) ← parse_members fuel r4;
                        Some ((k, v) :: ms, r5)
                      else if Ascii.eqb d "}" then Some ([(k, v)], r4)
                      else None
                  | EmptyString => None
                  end
                else None
            | EmptyString => None
            end
          else None
      | EmptyString => None
      end
  end.

(** [JSON.parse(text)] on the texts of this model: [None] is the
    [SyntaxError] it throws.  A number with a fraction or an exponent and
    a [\u] escape above [00ff] stand for values that are not in the
    model and are refused with the rest; [starts_value] names texts that
    [JSON.parse] itself refuses. *)
Definition parse (text : string) : option jsvalue :=
  match parse_value (S (String.length text)) text with
  | Some (v, rest) =>
      match skip_ws rest with
      | EmptyString => Some v
      | _ => None
      end
  | None => None
  end.

(** Whether a text, after its white space, begins as a JSON value
    begins: with [n], [t], [f], a double quote, a minus sign, a digit, a
    bracket or a brace.  A text that does not is a [SyntaxError]. *)
Definition starts_value (text : string) : bool :=
  match skip_ws text with
  | EmptyString => false
  | String c _ =>
      Ascii.eqb c "n" || Ascii.eqb c "t" || Ascii.eqb c "f"
      || Ascii.eqb c dquote || Ascii.eqb c "-" || is_digit c
      || Ascii.eqb c "[" || Ascii.eqb c "{"
  end.

(** The values with a JSON text that says all there is to them: no
    [undefined] and no date anywhere inside. *)
Fixpoint plain (v : jsvalue) : bool :=
  match v with
  | VPrim PUndefined => false
  | VPrim _ => true
  | VDate _ => false
  | VArray items => forallb plain items
  | VObject props => forallb (fun kv => plain kv.2) props
  end.

(** The text of a value where one is needed: [null] stands in for a value
    that has none. *)
Definition text_of (v : jsvalue) : string :=
  match stringify v with
  | Some text => text
  | None => "null"
  end.

Definition member_text (kv : string * jsvalue) : string :=
  quote kv.1 +:+ ":" +:+ text_of kv.2.

Definition is_ws (c : ascii) : bool :=
  Ascii.eqb c " " || (N_of_ascii c =? 9)%N || (N_of_ascii c =? 10)%N
  || (N_of_ascii c =? 13)%N.

(** What may follow a number: anything but a digit, a point or an
    exponent. *)
Definition ends_number (rest : string) : bool :=
  match rest with
  | EmptyString => true
  | String d _ =>
      negb (is_digit d || Ascii.eqb d "." || Ascii.eqb d "e" || Ascii.eqb d "E")
  end.

Definition digit_of (c : ascii) : N := (N_of_ascii c - 48)%N.

(** The fuel a list of texts asks for: one more than its length for each. *)
Definition cost (texts : list string) : nat :=
  list_sum (map (fun t => S (String.length t)) texts).

(** What the induction over a value carries: its JSON text, the first
    character of that text, and that the parser reads the value back from
    the text, whatever follows it that does not continue a number, as
    soon as the fuel covers the text. *)
Definition reads_back (v : jsvalue) : Prop :=
  plain v = true →
  stringify v = Some (text_of v)
  ∧ (∃ c t, text_of v = String c t ∧ is_ws c = false
            ∧ Ascii.eqb c "]" = false)
  ∧ ∀ f rest, (String.length (text_of v) ≤ f)%nat → ends_number rest = true →
      parse_value f (text_of v +:+ rest) = Some (v, rest).

(** Induction over a value and the values inside it. *)
Section Induction.
Context (P : jsvalue → Prop).
Context (Hprim : ∀ p, P (VPrim p)) (Hdate : ∀ iso, P (VDate iso)).
Context (Harray : ∀ items, Forall P items → P (VArray items)).
Context (Hobject : ∀ props, Forall (fun kv => P kv.2) props → P (VObject props)).

Fixpoint jsvalue_nested_ind (v : jsvalue) : P v :=
  match v with
  | VPrim p => Hprim p
  | VDate iso => Hdate iso
  | VArray items =>
      Harray items
        ((fix go (l : list jsvalue) : Forall P l :=
            match l with
            | [] => @List.Forall_nil _ P
            | x :: l' => @List.Forall_cons _ P x l' (jsvalue_nested_ind x) (go l')
            end) items)
  | VObject props =>
      Hobject props
        ((fix go (l : list (string * jsvalue)) : Forall (fun kv => P kv.2) l :=
            match l with
            | [] => @List.Forall_nil _ _
            | kv :: l' =>
                @List.Forall_cons _ (fun kv => P kv.2) kv l'
                  (jsvalue_nested_ind kv.2) (go l')
            end) props)
  end.
End Induction.

(** The values that come back from their JSON text as they went in. *)
Definition round_trips (v : jsvalue) : Prop :=
  stringify v ≫= parse = Some v.

End JSON.
Import JS JSON.

(** ** Asynchronous code: state and exceptions *)

(** What a call comes back with: a result, or a thrown error. *)
Inductive outcome (A : Type) :=
| Ok (a : A)
| Throw (e : string).

Arguments Ok {A} a.
Arguments Throw {A} e.

(** An [async] method over a state [S].  The state a call leaves behind is
    kept when it throws, as in JavaScript. *)
Definition M (S A : Type) : Type := S → outcome A * S.

Definition ret {S A} (a : A) : M S A := fun s => (Ok a, s).

Definition bind {S A B} (m : M S A) (k : A → M S B) : M S B :=
  fun s =>
    match m s with
    | (Ok a, s') => k a s'
    | (Throw e, s') => (Throw e, s')
    end.

Definition throw {S A} (e : string) : M S A := fun s => (Throw e, s).

(** [try { body } catch (error) { handler }] *)
Definition try_catch {S A} (body : M S A) (handler : string → M S A)
  : M S A :=
  fun s =>
    match body s with
    | (Ok a, s') => (Ok a, s')
    | (Throw e, s') => handler e s'
    end.

(** What a call that waits on the network comes to: it settles, with a
    result or a thrown error, or it stays pending for ever. *)
Inductive settled (A : Type) :=
| Settles (r : outcome A)
| Pending.

Arguments Settles {A} r.
Arguments Pending {A}.

(** An [async] method that may never settle.  The state is what the call
    has left when it settles, and what it has left so far when it does
    not. *)
Definition Async (S A : Type) : Type := S → settled A * S.

Definition settle {S A} (m : M S A) : Async S A :=
  fun s => let '(r, s') := m s in (Settles r, s').

(** [try { x = await first; body(x) } catch (error) { handler }]: the
    whole is pending when [first] is. *)
Definition try_await {S A B} (first : Async S A) (body : A → M S B)
    (handler : string → M S B) : Async S B :=
  fun s =>
    match first s with
    | (Settles r, s') =>
        settle (try_catch (bind (fun s => (r, s)) body) handler) s'
    | (Pending, s') => (Pending, s')
    end.

Definition gets {S A} (f : S → A) : M S A := fun s => (Ok (f s), s).

Definition modify {S} (f : S → S) : M S unit := fun s => (Ok tt, f s).

Declare Scope async_scope.
Delimit Scope async_scope with async.

(** [const x = await m; k] and [await m; k] *)
Notation "x ← m ; k" := (bind m (fun x => k))
  (at level 20, m at level 100, k at level 200, only parsing) : async_scope.
Notation "m ;; k" := (bind m (fun _ => k))
  (at level 100, k at level 200, only parsing, right associativity)
  : async_scope.

Open Scope async_scope.

(** ** The Redis client and the server behind it *)

Module Redis.

(** A stored entry: its text and the seconds it has left, when it expires
    at all. *)
Record entry := {
  payload : string;
  expiry : option Z
}.

Inductive command :=
| GET (key : string)
| SETEX (key : string) (seconds : number) (text : string)
| DEL (keys : list string)
| KEYS (pattern : string)
| EXISTS (key : string)
| FLUSHDB.

(** The client with the database it talks to: the keys of every
    namespace that shares the database, a schedule saying which of the
    next commands are rejected (a dropped socket, a time-out, [NOAUTH]),
    and the commands sent so far. *)
Record Client := {
  db : gmap string entry;
  faults : list bool;
  sent : list command
}.

Definition with_db (c : Client) (d : gmap string entry) : Client :=
  {| db := d; faults := faults c; sent := sent c |}.

(** Whether the next command is rejected. *)
Definition rejects (c : Client) : bool :=
  match faults c with
  | true :: _ => true
  | _ => false
  end.

(** The client once a command has gone out. *)
Definition tick (cmd : command) (c : Client) : Client :=
  {| db := db c; faults := tail (faults c); sent := sent c ++ [cmd] |}.

(** Sending a command: it is recorded, and rejected when the schedule says
    so. *)
Definition issue (cmd : command) : M Client unit :=
  fun c =>
    if rejects c then (Throw "redis: the command was rejected", tick cmd c)
    else (Ok tt, tick cmd c).

(** Glob patterns as [KEYS] reads them, for the patterns of this code:
    [*] stands for any text and [?] for one character.  Character classes
    and escapes are not in the model: [class_free] names the patterns
    that hold neither, on which the model is what [KEYS] does, and
    [glob_plain] the texts that hold none of the four special
    characters. *)
Fixpoint glob_match (pattern : string) (s : string) : bool :=
  match pattern with
  | EmptyString =>
      match s with
      | EmptyString => true
      | _ => false
      end
  | String p pattern' =>
      if Ascii.eqb p "*" then
        (fix star (s : string) : bool :=
           glob_match pattern' s
           || match s with
              | EmptyString => false
              | String _ s' => star s'
              end) s
      else
        match s with
        | EmptyString => false
        | String c s' =>
            (Ascii.eqb p "?" || Ascii.eqb p c) && glob_match pattern' s'
        end
  end.


Fixpoint glob_plain (s : string) : bool :=
  match s with
  | EmptyString => true
  | String c s' =>
      negb (Ascii.eqb c "*" || Ascii.eqb c "?" || Ascii.eqb c "["
            || Ascii.eqb c "\")
      && glob_plain s'
  end.

(** [DEL key...]: the keys are removed one after the other and the ones
    that were there are counted. *)
Fixpoint del_keys (keys : list string) (d : gmap string entry)
  : Z * gmap string entry :=
  match keys with
  | [] => (0%Z, d)
  | k :: keys' =>
      let hit := if d !! k is Some _ then 1%Z else 0%Z in
      let '(n, d') := del_keys keys' (delete k d) in
      ((hit + n)%Z, d')
  end.

Definition get (key : string) : M Client (option string) :=
  issue (GET key);;
  gets (fun c => payload <$> db c !! key).

(** [SETEX]: the server refuses seconds that are not a whole number, and
    an expire time that is not positive. *)
Definition setEx (key : string) (seconds : number) (text : string)
  : M Client unit :=
  issue (SETEX key seconds text);;
  match seconds with
  | Num s =>
      if (s <=? 0)%Z
      then throw "ERR invalid expire time in 'setex' command"
      else modify (fun c =>
             with_db c (<[key := {| payload := text; expiry := Some s |}]>
                          (db c)))
  | _ => throw "ERR value is not an integer or out of range"
  end.

Definition del (keys : list string) : M Client Z :=
  issue (DEL keys);;
  fun c => let '(n, d') := del_keys keys (db c) in (Ok n, with_db c d').

Definition keys (pattern : string) : M Client (list string) :=
  issue (KEYS pattern);;
  gets (fun c => filter (fun k => glob_match pattern k = true)
                   (map_to_list (db c)).*1).

Definition exists_ (key : string) : M Client Z :=
  issue (EXISTS key);;
  gets (fun c => if db c !! key is Some _ then 1%Z else 0%Z).

Definition flushDb : M Client unit :=
  issue FLUSHDB;;
  modify (fun c => with_db c ∅).

End Redis.

(** ** The cache service: [src/services/cache.service.ts] *)

(** The part of the validated environment the cache reads, as the schema
    of [src/application/env.validation.ts] gives it: [REDIS_URL] is
    optional, [CACHE_TTL_SECONDS] is [Number] of a string, which may be
    [NaN], and [APP_NAME] has a default and so is always a string. *)
Record Env := {
  REDIS_URL : option string;
  CACHE_TTL_SECONDS : number;
  APP_NAME : string
}.

(** [env.REDIS_KEY_PREFIX]: the schema has no such key, and what is not in
    the schema is dropped when the environment is validated, so this is
    [undefined]. *)
Definition REDIS_KEY_PREFIX (env : Env) : option string := None.

Record CacheService := {
  client : option Redis.Client;
  isConnected : bool;
  keyPrefix : string
}.

Definition with_client (cs : CacheService) (c : Redis.Client)
  : CacheService :=
  {| client := Some c; isConnected := isConnected cs;
     keyPrefix := keyPrefix cs |}.

(** A call on [this.client]. *)
Definition on_client {A} (m : M Redis.Client A) : M CacheService A :=
  fun cs =>
    match client cs with
    | Some c => let '(r, c') := m c in (r, with_client cs c')
    | None => (Throw "TypeError: this.client is null", cs)
    end.

(** [!this.client || !this.isConnected] *)
Definition unavailable (cs : CacheService) : bool :=
  negb (bool_decide (is_Some (client cs))) || negb (isConnected cs).

Definition isReady (cs : CacheService) : bool :=
  isConnected cs && bool_decide (is_Some (client cs)).

(** Whether the backend rejects the [n]-th command from now. *)
Definition rejected_at (n : nat) (cs : CacheService) : bool :=
  match client cs with
  | Some c => bool_decide (Redis.faults c !! n = Some true)
  | None => false
  end.

(** The service is connected and [c] is its client. *)
Definition ready (cs : CacheService) (c : Redis.Client) : Prop :=
  client cs = Some c ∧ isConnected cs = true.

(** The service once its client has sent a command. *)
Definition sent_to (cs : CacheService) (c : Redis.Client)
    (cmd : Redis.command) : CacheService :=
  with_client cs (Redis.tick cmd c).

(** The service once its client has sent a command that changed the
    database. *)
Definition stored (cs : CacheService) (c : Redis.Client)
    (cmd : Redis.command) (d : gmap string Redis.entry) : CacheService :=
  with_client cs (Redis.with_db (Redis.tick cmd c) d).

(** The keys [KEYS pattern] answers with. *)
Definition matching (pattern : string) (d : gmap string Redis.entry)
  : list string :=
  filter (fun k => Redis.glob_match pattern k = true) (map_to_list d).*1.

(** The database behind the service, empty when there is no client. *)
Definition backend (cs : CacheService) : gmap string Redis.entry :=
  match client cs with
  | Some c => Redis.db c
  | None => ∅
  end.

(** The commands the service has sent. *)
Definition commands (cs : CacheService) : list Redis.command :=
  match client cs with
  | Some c => Redis.sent c
  | None => []
  end.

(** The methods of the service.  Its two revisions differ in one thing,
    the key that goes to the backend: the later one sends
    [getPrefixedKey(key)], the earlier one the key itself.  [wire] is
    that choice. *)
Module CacheOps.
Section Ops.
Context (env : Env) (wire : CacheService → string → string).

Definition get (key : string) : M CacheService jsvalue :=
  fun cs =>
    if unavailable cs then (Ok null, cs)
    else
      try_catch
        (let prefixedKey := wire cs key in
         data ← on_client (Redis.get prefixedKey);
         if truthy_str data then
           match parse (default "" data) with
           | Some v => ret v
           | None => throw "SyntaxError: JSON.parse"
           end
         else ret null)
        (fun _ => ret null) cs.

Definition set (key : string) (v : jsvalue) (ttlSeconds : option number)
  : M CacheService bool :=
  fun cs =>
    if unavailable cs then (Ok false, cs)
    else
      try_catch
        (let ttl := if truthy_num ttlSeconds
                    then default (Num 0) ttlSeconds
                    else CACHE_TTL_SECONDS env in
         let prefixedKey := wire cs key in
         match stringify v with
         | Some text =>
             on_client (Redis.setEx prefixedKey ttl text);;
             ret true
         | None => throw "TypeError: the value has no JSON text"
         end)
        (fun _ => ret false) cs.

Definition delete (key : string) : M CacheService bool :=
  fun cs =>
    if unavailable cs then (Ok false, cs)
    else
      try_catch
        (let prefixedKey := wire cs key in
         result ← on_client (Redis.del [prefixedKey]);
         ret (0 <? result)%Z)
        (fun _ => ret false) cs.

Definition deletePattern (pattern : string) : M CacheService Z :=
  fun cs =>
    if unavailable cs then (Ok 0%Z, cs)
    else
      try_catch
        (let prefixedPattern := wire cs pattern in
         keys ← on_client (Redis.keys prefixedPattern);
         if (length keys =? 0)%nat then ret 0%Z
         else
           result ← on_client (Redis.del keys);
           ret result)
        (fun _ => ret 0%Z) cs.

Definition exists_ (key : string) : M CacheService bool :=
  fun cs =>
    if unavailable cs then (Ok false, cs)
    else
      try_catch
        (let prefixedKey := wire cs key in
         result ← on_client (Redis.exists_ prefixedKey);
         ret (result =? 1)%Z)
        (fun _ => ret false) cs.

Definition flush : M CacheService bool :=
  fun cs =>
    if unavailable cs then (Ok false, cs)
    else
      try_catch
        (on_client Redis.flushDb;;
         ret true)
        (fun _ => ret false) cs.

End Ops.
End CacheOps.

(** The current revision of the service: every key is sent under the
    namespace prefix. *)
Module CacheService.

(** [env.REDIS_KEY_PREFIX || env.APP_NAME || 'default'] *)
Definition new (env : Env) : CacheService :=
  {| client := None;
     isConnected := false;
     keyPrefix :=
       if truthy_str (REDIS_KEY_PREFIX env) then default "" (REDIS_KEY_PREFIX env)
       else if truthy_str (Some (APP_NAME env)) then APP_NAME env
       else "default" |}.

(** What [createClient({ url })] and [client.connect()] come to.  The
    connection is made and [connect()] resolves; or [createClient] throws
    or [connect()] rejects; or the server is not reached: the client is
    there, every attempt ends in an [error] event, the reconnect strategy
    asks for the next one, and [connect()] stays pending. *)
Inductive dialed :=
| Connected (c : Redis.Client)
| Failed (e : string)
| Unreached (c : Redis.Client).

Definition dialer : Type := string → dialed.

(** [connect()]: nothing when there is a client already or no URL is
    configured.  [this.client] is assigned before the connection is
    awaited: the [connect] event of a connection that was made sets the
    flag, the [error] event of an attempt that failed clears it, and an
    error that is thrown is caught and leaves no client. *)
Definition connect (env : Env) (dial : dialer) : Async CacheService unit :=
  fun cs =>
    if bool_decide (is_Some (client cs)) || negb (truthy_str (REDIS_URL env))
    then (Settles (Ok tt), cs)
    else
      try_await
        (fun cs =>
           match dial (default "" (REDIS_URL env)) with
           | Connected c =>
               (Settles (Ok tt),
                {| client := Some c; isConnected := true;
                   keyPrefix := keyPrefix cs |})
           | Failed e => (Settles (Throw e), cs)
           | Unreached c =>
               (Pending,
                {| client := Some c; isConnected := false;
                   keyPrefix := keyPrefix cs |})
           end)
        (fun _ => ret tt)
        (fun _ =>
           modify (fun cs => {| client := None; isConnected := false;
                                keyPrefix := keyPrefix cs |})) cs.

(** [disconnect()]: with a client, [quit] is awaited and the client is
    dropped; when [quit] throws the error is caught and the client is
    kept.  [quit] is what [client.quit()] comes to: on a client that has
    no connection the command waits for one, and may wait for ever. *)
Definition disconnect (quit : Redis.Client → settled unit)
  : Async CacheService unit :=
  fun cs =>
    match client cs with
    | Some c =>
        try_await
          (fun cs => (quit c, cs))
          (fun _ =>
             modify (fun cs => {| client := None; isConnected := false;
                                  keyPrefix := keyPrefix cs |}))
          (fun _ => ret tt) cs
    | None => (Settles (Ok tt), cs)
    end.

Definition getPrefixedKey (cs : CacheService) (key : string) : string :=
  keyPrefix cs +:+ ":" +:+ key.

(** [this.keyPrefix || env.REDIS_KEY_PREFIX || env.APP_NAME || 'default'] *)
Definition getKeyPrefix (env : Env) (cs : CacheService) : string :=
  if negb (String.eqb (keyPrefix cs) "") then keyPrefix cs
  else if truthy_str (REDIS_KEY_PREFIX env)
       then default "" (REDIS_KEY_PREFIX env)
  else if truthy_str (Some (APP_NAME env)) then APP_NAME env
  else "default".

Definition get := CacheOps.get getPrefixedKey.
Definition set (env : Env) := CacheOps.set env getPrefixedKey.
Definition delete := CacheOps.delete getPrefixedKey.
Definition deletePattern := CacheOps.deletePattern getPrefixedKey.
Definition exists_ := CacheOps.exists_ getPrefixedKey.
Definition flush := CacheOps.flush.

End CacheService.

(** The earlier revision: keys go to the backend as they are. *)
Module CacheServiceV1.

Definition plainKey (cs : CacheService) (key : string) : string := key.

Definition get := CacheOps.get plainKey.
Definition set (env : Env) := CacheOps.set env plainKey.
Definition delete := CacheOps.delete plainKey.
Definition deletePattern := CacheOps.deletePattern plainKey.
Definition exists_ := CacheOps.exists_ plainKey.
Definition flush := CacheOps.flush.

End CacheServiceV1.

(** One call on the service, whichever it is. *)
Inductive cache_call :=
| CallGet (key : string)
| CallSet (key : string) (v : jsvalue) (ttlSeconds : option number)
| CallDelete (key : string)
| CallDeletePattern (pattern : string)
| CallExists (key : string)
| CallFlush.

(** The state of the service after a call. *)
Definition after (env : Env) (wire : CacheService → string → string)
    (call : cache_call) (cs : CacheService) : CacheService :=
  match call with
  | CallGet key => (CacheOps.get wire key cs).2
  | CallSet key v ttl => (CacheOps.set env wire key v ttl cs).2
  | CallDelete key => (CacheOps.delete wire key cs).2
  | CallDeletePattern pattern => (CacheOps.deletePattern wire pattern cs).2
  | CallExists key => (CacheOps.exists_ wire key cs).2
  | CallFlush => (CacheOps.flush cs).2
  end.

(** The state of the service after a sequence of calls. *)
Definition replay (env : Env) (wire : CacheService → string → string)
    (calls : list cache_call) (cs : CacheService) : CacheService :=
  foldl (fun cs call => after env wire call cs) cs calls.

(** What happens to the service in the life of a process: a call, a
    [connect] or a [disconnect]. *)
Inductive lifecycle :=
| Call (call : cache_call)
| Connect (dial : CacheService.dialer)
| Disconnect (quit : Redis.Client → settled unit).

(** The state of the service after one of them, and after a sequence;
    for a [connect] or a [disconnect] that stays pending, the state it
    has left behind. *)
Definition step (env : Env) (wire : CacheService → string → string)
    (l : lifecycle) (cs : CacheService) : CacheService :=
  match l with
  | Call call => after env wire call cs
  | Connect dial => (CacheService.connect env dial cs).2
  | Disconnect quit => (CacheService.disconnect quit cs).2
  end.

Definition lifetime (env : Env) (wire : CacheService → string → string)
    (steps : list lifecycle) (cs : CacheService) : CacheService :=
  foldl (fun cs l => step env wire l cs) cs steps.

(** The calls that only take entries away. *)
Definition invalidating (call : cache_call) : bool :=
  match call with
  | CallDelete _ | CallDeletePattern _ => true
  | _ => false
  end.

(** Whether an invalidating call of the current revision, under the
    prefix [prefix], removes the backend key [k]. *)
Definition removes (prefix : string) (call : cache_call) (k : string)
  : bool :=
  match call with
  | CallDelete key => bool_decide (k = prefix +:+ ":" +:+ key)
  | CallDeletePattern pattern =>
      Redis.glob_match (prefix +:+ ":" +:+ pattern) k
  | _ => false
  end.

(** The service is connected and its backend rejects nothing. *)
Definition healthy (cs : CacheService) : Prop :=
  ∃ c, ready cs c ∧ Redis.faults c = [].

(** What the current revision reads under a key when its backend
    answers: the stored text, parsed; [null] when there is no entry, when
    the text is empty and when it is not JSON. *)
Definition cached (cs : CacheService) (key : string) : jsvalue :=
  match backend cs !! CacheService.getPrefixedKey cs key with
  | Some e =>
      if String.eqb (Redis.payload e) "" then null
      else default null (parse (Redis.payload e))
  | None => null
  end.

(** ** The self-test of the cache: [src/utils/cache-test.util.ts] *)

Module CacheTest.


(** [{ message: 'Cache is working!', timestamp: new Date().toISOString() }],
    for the time stamp the clock gives. *)
Definition testValue (timestamp : string) : jsvalue :=
  VObject [ ("message", VPrim (PStr "Cache is working!"));
            ("timestamp", VPrim (PStr timestamp)) ].


End CacheTest.

(** ** The base repository: [src/repositories/base.repository.ts] *)

(** [for (const x of xs) await body(x)] *)
Fixpoint for_each {S A} (xs : list A) (body : A → M S unit) : M S unit :=
  match xs with
  | [] => ret tt
  | x :: xs' => body x;; for_each xs' body
  end.

Module BaseRepository.
Import CacheKeyGenerator.

(** [CACHE_TTL] *)
Definition SHORT : Z := 300.
Definition MEDIUM : Z := 900.
Definition LONG : Z := 3600.

(** An entity with its id. *)
Record Entity := {
  entity_id : key_id;
  entity_value : jsvalue
}.

(** A field an entity is cached by, and a field whose value a write may
    have changed. *)
Record FieldValue := {
  field : string;
  value : string
}.

Record FieldChange := {
  changed : string;
  oldValue : option string;
  newValue : option string
}.

Section Repository.
Context (env : Env) (entityName entityPluralName : string).

Definition getFromCacheById (id : key_id) : M CacheService jsvalue :=
  CacheService.get (entityById entityName id).

Definition getFromCacheByField (field value : string)
  : M CacheService jsvalue :=
  CacheService.get (entityByField entityName field value).

Definition getListFromCache (pagination : option PaginationParams)
    (filters : option object) : M CacheService jsvalue :=
  CacheService.get (entityList entityPluralName pagination filters).

Definition cacheById (entity : Entity) (ttl : option number)
  : M CacheService unit :=
  CacheService.set env (entityById entityName (entity_id entity))
    (entity_value entity) (Some (default (Num MEDIUM) ttl));;
  ret tt.

Definition cacheByField (field value : string) (entity : Entity)
    (ttl : option number) : M CacheService unit :=
  CacheService.set env (entityByField entityName field value)
    (entity_value entity) (Some (default (Num MEDIUM) ttl));;
  ret tt.

Definition cacheList (entities : list jsvalue)
    (pagination : option PaginationParams) (filters : option object)
    (ttl : option number) : M CacheService unit :=
  CacheService.set env (entityList entityPluralName pagination filters)
    (VArray entities) (Some (default (Num SHORT) ttl));;
  ret tt.

Definition cacheMultiplePatterns (entity : Entity)
    (additionalFields : option (list FieldValue)) (ttl : option number)
  : M CacheService unit :=
  cacheById entity (Some (default (Num MEDIUM) ttl));;
  match additionalFields with
  | Some fields =>
      for_each fields (fun fv =>
        cacheByField (field fv) (value fv) entity
          (Some (default (Num MEDIUM) ttl)))
  | None => ret tt
  end.

Definition invalidateCacheById (id : key_id) : M CacheService unit :=
  CacheService.delete (entityById entityName id);;
  ret tt.

Definition invalidateCacheByField (field value : string)
  : M CacheService unit :=
  CacheService.delete (entityByField entityName field value);;
  ret tt.

Definition invalidateListCaches : M CacheService unit :=
  CacheService.deletePattern (entityPattern entityPluralName (Some "list:*"));;
  ret tt.

Definition invalidateAllCaches : M CacheService unit :=
  let patterns := [ entityPattern entityName None;
                    entityPattern entityPluralName None ] in
  for_each patterns (fun pattern =>
    CacheService.deletePattern pattern;;
    ret tt).

(** The deletes are started in the order in which they are pushed. *)
Definition invalidateMultiplePatterns (entityId : key_id)
    (additionalFields : option (list FieldChange)) : M CacheService unit :=
  CacheService.delete (entityById entityName entityId);;
  match additionalFields with
  | Some changes =>
      for_each changes (fun ch =>
        (if truthy_str (oldValue ch) then
           CacheService.delete
             (entityByField entityName (changed ch)
                (default "" (oldValue ch)));;
           ret tt
         else ret tt);;
        (if truthy_str (newValue ch)
            && negb (bool_decide (newValue ch = oldValue ch)) then
           CacheService.delete
             (entityByField entityName (changed ch)
                (default "" (newValue ch)));;
           ret tt
         else ret tt))
  | None => ret tt
  end.

(** The calls [invalidateMultiplePatterns] makes on the cache, in
    order. *)
Definition change_invalidation (ch : FieldChange) : list cache_call :=
  (if truthy_str (oldValue ch)
   then [ CallDelete (entityByField entityName (changed ch)
                        (default "" (oldValue ch))) ]
   else [])
  ++ (if truthy_str (newValue ch)
         && negb (bool_decide (newValue ch = oldValue ch))
      then [ CallDelete (entityByField entityName (changed ch)
                           (default "" (newValue ch))) ]
      else []).

Definition multiple_invalidation (entityId : key_id)
    (additionalFields : option (list FieldChange)) : list cache_call :=
  CallDelete (entityById entityName entityId)
  :: flat_map change_invalidation (default [] additionalFields).

End Repository.
End BaseRepository.

(** ** The user repository: [src/repositories/user.repository.ts] *)

Module UserRepository.
Import LegacyKeys.

Record UserResponse := {
  id : string;
  name : string;
  email : string;
  phone : string;
  is_active : bool;
  created_at : string
}.

Record CreateUserDTO := {
  create_name : string;
  create_email : string;
  create_phone : string;
  create_password : string
}.

Record UpdateUserDTO := {
  update_name : option string;
  update_email : option string;
  update_phone : option string;
  update_password : option string
}.

(** The row as the object handed to the cache; [created_at] is a
    [Date]. *)
Definition row_value (u : UserResponse) : jsvalue :=
  VObject [ ("id", VPrim (PStr (id u)));
            ("name", VPrim (PStr (name u)));
            ("email", VPrim (PStr (email u)));
            ("phone", VPrim (PStr (phone u)));
            ("is_active", VPrim (PBool (is_active u)));
            ("created_at", VDate (created_at u)) ].

(** The store of record, at its boundary: the four calls the repository
    makes on [prisma.user].  Each may change the store and may throw. *)
Class UserModel (DB : Type) := {
  findUnique : string → M DB (option UserResponse);
  model_create : CreateUserDTO → M DB UserResponse;
  model_update : string → UpdateUserDTO → M DB UserResponse;
  model_delete : string → M DB UserResponse
}.

Section Repository.
Context {DB : Type} `{UserModel DB} (env : Env).

(** The store of record and the cache service side by side. *)
Record World := {
  store : DB;
  cacheService : CacheService
}.

Definition on_store {A} (m : M DB A) : M World A :=
  fun w =>
    let '(r, d) := m (store w) in
    (r, {| store := d; cacheService := cacheService w |}).

Definition on_cache {A} (m : M CacheService A) : M World A :=
  fun w =>
    let '(r, cs) := m (cacheService w) in
    (r, {| store := store w; cacheService := cs |}).

Definition invalidateUserCache (userId : string)
    (oldEmail newEmail : option string) : M World unit :=
  on_cache (CacheService.delete (generateUserKey userId));;
  (if truthy_str oldEmail then
     on_cache (CacheService.delete
                 (generateUserByEmailKey (default "" oldEmail)));;
     ret tt
   else ret tt);;
  (if truthy_str newEmail && negb (bool_decide (newEmail = oldEmail)) then
     on_cache (CacheService.delete
                 (generateUserByEmailKey (default "" newEmail)));;
     ret tt
   else ret tt);;
  ret tt.

Definition invalidateUsersListCache : M World unit :=
  on_cache (CacheService.deletePattern "users:list:*");;
  ret tt.

(** What [findById] hands back is the cached object on a hit and the row
    of the store on a miss. *)
Definition findById (userId : string) : M World jsvalue :=
  let cacheKey := generateUserKey userId in
  cachedResult ← on_cache (CacheService.get cacheKey);
  if truthy cachedResult then ret cachedResult
  else
    result ← on_store (findUnique userId);
    match result with
    | Some u =>
        on_cache (CacheService.set env cacheKey (row_value u)
                    (Some (Num 900)));;
        ret (row_value u)
    | None => ret null
    end.

Definition create (data : CreateUserDTO) : M World UserResponse :=
  result ← on_store (model_create data);
  invalidateUsersListCache;;
  ret result.

Definition update (userId : string) (data : UpdateUserDTO)
  : M World UserResponse :=
  currentUser ← on_store (findUnique userId);
  result ← on_store (model_update userId data);
  invalidateUserCache userId (email <$> currentUser) (Some (email result));;
  invalidateUsersListCache;;
  ret result.

Definition delete (userId : string) : M World UserResponse :=
  userToDelete ← on_store (findUnique userId);
  result ← on_store (model_delete userId);
  match userToDelete with
  | Some u => invalidateUserCache userId (Some (email u)) None
  | None => ret tt
  end;;
  invalidateUsersListCache;;
  ret result.

(** The three writes of the repository, and what each does on the store
    of record before it touches the cache. *)
Inductive mutation :=
| Create (data : CreateUserDTO)
| Update (userId : string) (data : UpdateUserDTO)
| Delete (userId : string).

Definition run (m : mutation) : M World UserResponse :=
  match m with
  | Create data => create data
  | Update userId data => update userId data
  | Delete userId => delete userId
  end.

Definition store_side (m : mutation) : M DB UserResponse :=
  match m with
  | Create data => model_create data
  | Update userId data => (findUnique userId;; model_update userId data)
  | Delete userId => (findUnique userId;; model_delete userId)
  end.

(** The calls [invalidateUserCache] makes on the cache, in order. *)
Definition user_invalidation (userId : string)
    (oldEmail newEmail : option string) : list cache_call :=
  [ CallDelete (generateUserKey userId) ]
  ++ (if truthy_str oldEmail
      then [ CallDelete (generateUserByEmailKey (default "" oldEmail)) ]
      else [])
  ++ (if truthy_str newEmail && negb (bool_decide (newEmail = oldEmail))
      then [ CallDelete (generateUserByEmailKey (default "" newEmail)) ]
      else []).

Definition list_invalidation : list cache_call :=
  [ CallDeletePattern "users:list:*" ].

(** The calls a write makes on the cache once the store has answered
    with [current] for the row as it was and [result] for the row as it
    is. *)
Definition invalidation_of (m : mutation) (current : option UserResponse)
    (result : UserResponse) : list cache_call :=
  match m with
  | Create _ => list_invalidation
  | Update userId _ =>
      user_invalidation userId (email <$> current) (Some (email result))
      ++ list_invalidation
  | Delete userId =>
      match current with
      | Some u => user_invalidation userId (Some (email u)) None
      | None => []
      end ++ list_invalidation
  end.

(** The row the store holds before the write, as the write reads it. *)
Definition row_before (m : mutation) (d : DB) : option UserResponse :=
  match m with
  | Create _ => None
  | Update userId _ | Delete userId =>
      match findUnique userId d with
      | (Ok current, _) => current
      | _ => None
      end
  end.

End Repository.

(** The row as it comes back from the cache: what was a [Date] is its
    ISO text. *)
Definition cached_value (u : UserResponse) : jsvalue :=
  VObject [ ("id", VPrim (PStr (id u)));
            ("name", VPrim (PStr (name u)));
            ("email", VPrim (PStr (email u)));
            ("phone", VPrim (PStr (phone u)));
            ("is_active", VPrim (PBool (is_active u)));
            ("created_at", VPrim (PStr (created_at u))) ].

(** The entry a read of the repository leaves for a row: its JSON text,
    for fifteen minutes. *)
Definition row_entry (u : UserResponse) : Redis.entry :=
  {| Redis.payload := text_of (cached_value u); Redis.expiry := Some 900%Z |}.

(** The pagination of the user types: both numbers are there. *)
Record PaginationParams := {
  page : number;
  limit : number
}.

(** The other reads the repository makes on [prisma.user]: the row with
    an e-mail, the active rows, newest first, all of them or [take] of
    them after [skip], and the number of active rows. *)
Class UserQueries (DB : Type) := {
  findUniqueByEmail : string → M DB (option UserResponse);
  findMany : option (number * number) → M DB (list UserResponse);
  model_count : M DB Z
}.

(** [skip] and [take] of the query [findAll] makes. *)
Definition window (pagination : option PaginationParams)
  : option (number * number) :=
  (fun p => (JS.mul (JS.sub (page p) (Num 1)) (limit p), limit p))
    <$> pagination.

Section Queries.
Context {DB : Type} `{UserModel DB} `{UserQueries DB} (env : Env).

Definition findAll (pagination : option PaginationParams)
  : M (@World DB) jsvalue :=
  let cacheKey :=
    generateUsersListKey (page <$> pagination) (limit <$> pagination) in
  cachedResult ← on_cache (CacheService.get cacheKey);
  if truthy cachedResult then ret cachedResult
  else
    result ← on_store (findMany (window pagination));
    on_cache (CacheService.set env cacheKey (VArray (map row_value result))
                (Some (Num 300)));;
    ret (VArray (map row_value result)).

Definition findByEmail (email : string) : M (@World DB) jsvalue :=
  let cacheKey := generateUserByEmailKey email in
  cachedResult ← on_cache (CacheService.get cacheKey);
  if truthy cachedResult then ret cachedResult
  else
    result ← on_store (findUniqueByEmail email);
    match result with
    | Some u =>
        on_cache (CacheService.set env cacheKey (row_value u)
                    (Some (Num 900)));;
        on_cache (CacheService.set env (generateUserKey (id u)) (row_value u)
                    (Some (Num 900)));;
        ret (row_value u)
    | None => ret null
    end.

Definition count : M (@World DB) Z := on_store model_count.

Definition clearUserCache (userId : string) : M (@World DB) unit :=
  on_cache (CacheService.delete (generateUserKey userId));;
  ret tt.

Definition clearAllUsersCache : M (@World DB) unit :=
  on_cache (CacheService.deletePattern "user:*");;
  on_cache (CacheService.deletePattern "users:*");;
  ret tt.

(** The write is an update of the row of [userId], or a delete that has
    found it. *)
Definition writes_row (m : mutation) (userId : string) (d : DB) : Prop :=
  match m with
  | Create _ => False
  | Update i _ => i = userId
  | Delete i => i = userId ∧ is_Some (row_before m d)
  end.

End Queries.
End UserRepository.

(** ** The user service: [src/services/user.service.ts] *)

(** A [ResponseError] is its status and its message in one text. *)
Module UserService.
Import UserRepository.

Record PaginationMeta := {
  meta_page : number;
  meta_limit : number;
  total : Z;
  totalPages : number
}.

Record UsersResult := {
  users : jsvalue;
  meta : option PaginationMeta
}.

(** [Math.ceil(a / b)] for whole numbers, [b] other than zero. *)
Definition ceil_div (a b : Z) : Z := (- ((- a) / b))%Z.

(** [Math.ceil(a / b)] for a count and a number. *)
Definition ceil_quot (a : Z) (b : number) : number :=
  match b with
  | Num y =>
      if (y =? 0)%Z then
        match a with
        | Z0 => NaN
        | Zpos _ => Infinity
        | Zneg _ => MinusInfinity
        end
      else Num (ceil_div a y)
  | NaN => NaN
  | Infinity | MinusInfinity => Num 0
  end.

(** [existingUser.email], of a row or of what the cache gave; of a name
    written twice the last one counts. *)
Definition email_of (user : jsvalue) : option string :=
  match user with
  | VObject props =>
      match (list_to_map (reverse props) : gmap string jsvalue) !! "email" with
      | Some (VPrim (PStr e)) => Some e
      | _ => None
      end
  | _ => None
  end.

Section Service.
Context {DB : Type} `{UserModel DB} `{UserQueries DB} (env : Env).

(** What [bcrypt.hash(password, 12)] gives for a password. *)
Context (hash : string → string).

(** The list and the count are asked for together; the model asks for
    the list first. *)
Definition findAll (pagination : option PaginationParams)
  : M (@World DB) UsersResult :=
  match pagination with
  | Some p =>
      if JS.lt (limit p) (Num 1) || JS.lt (Num 100) (limit p)
      then throw "400: Limit must be between 1 and 100"
      else if JS.lt (page p) (Num 1)
      then throw "400: Page must be greater than 0"
      else
        found ← UserRepository.findAll env (Some p);
        n ← UserRepository.count;
        ret {| users := found;
               meta := Some {| meta_page := page p;
                               meta_limit := limit p;
                               total := n;
                               totalPages := ceil_quot n (limit p) |} |}
  | None =>
      found ← UserRepository.findAll env None;
      ret {| users := found; meta := None |}
  end.

Definition findOne (userId : string) : M (@World DB) jsvalue :=
  user ← findById env userId;
  if negb (truthy user) then throw "404: User not found"
  else ret user.

Definition create (data : CreateUserDTO) : M (@World DB) UserResponse :=
  existingUser ← findByEmail env (create_email data);
  if truthy existingUser then throw "409: Email already exists"
  else
    let hashedPassword := hash (create_password data) in
    let userToCreate :=
      {| create_name := create_name data;
         create_email := create_email data;
         create_phone := create_phone data;
         create_password := hashedPassword |} in
    UserRepository.create userToCreate.

Definition update (userId : string) (data : UpdateUserDTO)
  : M (@World DB) UserResponse :=
  existingUser ← findById env userId;
  if negb (truthy existingUser) then throw "404: User not found"
  else
    (if truthy_str (update_email data)
        && negb (bool_decide (update_email data = email_of existingUser))
     then
       emailExists ← findByEmail env (default "" (update_email data));
       if truthy emailExists then throw "409: Email already exists"
       else ret tt
     else ret tt);;
    let updateData :=
      {| update_name := update_name data;
         update_email := update_email data;
         update_phone := update_phone data;
         update_password :=
           if truthy_str (update_password data)
           then Some (hash (default "" (update_password data)))
           else update_password data |} in
    UserRepository.update userId updateData.

Definition remove (userId : string) : M (@World DB) unit :=
  user ← findById env userId;
  if negb (truthy user) then throw "404: User not found"
  else
    UserRepository.delete userId;;
    ret tt.

End Service.
End UserService.

(** ** The routes of the cache: [src/routes/cache.route.ts] *)

Module CacheRoutes.
Import UserRepository.



Section Routes.
Context {DB : Type}.




End Routes.
End CacheRoutes.

(** ** A store of record in memory *)

(** A small [prisma.user]: the rows by id, a counter for the ids it hands
    out, and a switch for a database that is down.  The e-mail column is
    unique. *)
Module MemStore.
Import UserRepository.

Record t := {
  rows : gmap string UserResponse;
  next_id : N;
  down : bool
}.

Definition email_taken (d : t) (e : string) (but : option string) : bool :=
  bool_decide (∃ k u, rows d !! k = Some u ∧ email u = e ∧ Some k ≠ but).

Definition guard {A} (m : M t A) : M t A :=
  fun d => if down d then (Throw "P1001: cannot reach the database", d)
           else m d.

Definition mem_findUnique (userId : string) : M t (option UserResponse) :=
  guard (gets (fun d => rows d !! userId)).

Definition mem_create (data : CreateUserDTO) : M t UserResponse :=
  guard (fun d =>
    if email_taken d (create_email data) None
    then (Throw "P2002: unique constraint failed on email", d)
    else
      let u := {| id := "u" +:+ pretty (next_id d);
                  name := create_name data;
                  email := create_email data;
                  phone := create_phone data;
                  is_active := true;
                  created_at := "2025-07-02T15:13:18.000Z" |} in
      (Ok u, {| rows := <[id u := u]> (rows d);
                next_id := N.succ (next_id d);
                down := down d |})).

Definition mem_update (userId : string) (data : UpdateUserDTO)
  : M t UserResponse :=
  guard (fun d =>
    match rows d !! userId with
    | None => (Throw "P2025: record to update not found", d)
    | Some old =>
        let u := {| id := id old;
                    name := default (name old) (update_name data);
                    email := default (email old) (update_email data);
                    phone := default (phone old) (update_phone data);
                    is_active := is_active old;
                    created_at := created_at old |} in
        if email_taken d (email u) (Some userId)
        then (Throw "P2002: unique constraint failed on email", d)
        else (Ok u, {| rows := <[userId := u]> (rows d);
                       next_id := next_id d;
                       down := down d |})
    end).

Definition mem_delete (userId : string) : M t UserResponse :=
  guard (fun d =>
    match rows d !! userId with
    | None => (Throw "P2025: record to delete does not exist", d)
    | Some u => (Ok u, {| rows := base.delete userId (rows d);
                          next_id := next_id d;
                          down := down d |})
    end).

#[global] Instance mem_model : UserModel t := {|
  findUnique := mem_findUnique;
  model_create := mem_create;
  model_update := mem_update;
  model_delete := mem_delete
|}.

(** The rows a query sees: the active ones, newest first. *)
Definition newest_first (u v : UserResponse) : Prop :=
  String.le (created_at v) (created_at u).

#[global] Instance newest_first_dec : RelDecision newest_first :=
  fun u v => decide (String.le (created_at v) (created_at u)).

Definition active_rows (d : t) : list UserResponse :=
  merge_sort newest_first
    (filter (fun u => is_active u = true) (map_to_list (rows d)).*2).

Definition mem_findUniqueByEmail (e : string) : M t (option UserResponse) :=
  guard (gets (fun d =>
    head (filter (fun u => email u = e) (map_to_list (rows d)).*2))).

Definition mem_findMany (range : option (number * number))
  : M t (list UserResponse) :=
  guard (fun d =>
    match range with
    | None => (Ok (active_rows d), d)
    | Some (Num skip, Num n) =>
        if (skip <? 0)%Z || (n <? 0)%Z
        then (Throw "invalid value for skip or take", d)
        else (Ok (take (Z.to_nat n) (drop (Z.to_nat skip) (active_rows d))), d)
    | Some _ => (Throw "invalid value for skip or take", d)
    end).

Definition mem_count : M t Z :=
  guard (gets (fun d => Z.of_nat (length (active_rows d)))).

#[global] Instance mem_queries : UserQueries t := {|
  findUniqueByEmail := mem_findUniqueByEmail;
  findMany := mem_findMany;
  model_count := mem_count
|}.

End MemStore.

(** ** States to run the code on *)

Module Example.

Definition env : Env :=
  {| REDIS_URL := Some "redis://localhost:6379";
     CACHE_TTL_SECONDS := Num 3600;
     APP_NAME := "app" |}.

Definition entry (text : string) (seconds : Z) : Redis.entry :=
  {| Redis.payload := text; Redis.expiry := Some seconds |}.

(** A service under the prefix [app], connected to a backend that holds
    [d] and rejects commands as [fs] says. *)
Definition connected (d : gmap string Redis.entry) (fs : list bool)
  : CacheService :=
  {| client := Some {| Redis.db := d; Redis.faults := fs; Redis.sent := [] |};
     isConnected := true;
     keyPrefix := "app" |}.

(** The same service after its socket has closed. *)
Definition offline (d : gmap string Redis.entry) : CacheService :=
  {| client := Some {| Redis.db := d; Redis.faults := []; Redis.sent := [] |};
     isConnected := false;
     keyPrefix := "app" |}.

(** A row of the users table. *)
Definition john : UserRepository.UserResponse :=
  {| UserRepository.id := "1";
     UserRepository.name := "John Doe";
     UserRepository.email := "john@test.com";
     UserRepository.phone := "123456789";
     UserRepository.is_active := true;
     UserRepository.created_at := "2025-07-02T15:13:18.000Z" |}.

(** The same row as it comes back from its JSON text: the date is a
    string. *)
Definition john_from_cache : jsvalue :=
  VObject [ ("id", VPrim (PStr "1"));
            ("name", VPrim (PStr "John Doe"));
            ("email", VPrim (PStr "john@test.com"));
            ("phone", VPrim (PStr "123456789"));
            ("is_active", VPrim (PBool true));
            ("created_at", VPrim (PStr "2025-07-02T15:13:18.000Z")) ].

(** The value of the self-test of the cache, its time stamp taken with
    [toISOString]. *)
Definition testValue : jsvalue :=
  VObject [ ("message", VPrim (PStr "Cache is working!"));
            ("timestamp", VPrim (PStr "2025-07-02T15:13:18.000Z")) ].

(** The users table with one row. *)
Definition users (u : UserRepository.UserResponse) : MemStore.t :=
  {| MemStore.rows := {[ UserRepository.id u := u ]};
     MemStore.next_id := 2;
     MemStore.down := false |}.

(** A row whose e-mail column is empty. *)
Definition nameless : UserRepository.UserResponse :=
  {| UserRepository.id := "1";
     UserRepository.name := "John Doe";
     UserRepository.email := "";
     UserRepository.phone := "123456789";
     UserRepository.is_active := true;
     UserRepository.created_at := "2025-07-02T15:13:18.000Z" |}.

Definition new_email (e : string) : UserRepository.UpdateUserDTO :=
  {| UserRepository.update_name := None;
     UserRepository.update_email := Some e;
     UserRepository.update_phone := None;
     UserRepository.update_password := None |}.

(** A cache that holds a user under its id, under two e-mail addresses,
    one of them empty, a list of users, and a product. *)
Definition warm : gmap string Redis.entry :=
  {[ "app:user:1" := entry "{}" 900;
     "app:user:email:" := entry "{}" 900;
     "app:user:email:john@test.com" := entry "{}" 900;
     "app:users:list:all" := entry "[]" 300;
     "app:product:9" := entry "{}" 900 ]}.

(** The store [d] beside the cache service [cs]. *)
Definition world (d : MemStore.t) (cs : CacheService)
  : @UserRepository.World MemStore.t :=
  {| UserRepository.store := d; UserRepository.cacheService := cs |}.

(** A backend shared by two services. *)
Definition shared : gmap string Redis.entry :=
  {[ "app:user:1" := entry "{}" 900;
     "billing:invoice:7" := entry "{}" 3600 ]}.

(** John after his e-mail has been changed. *)
Definition jane : UserRepository.UserResponse :=
  {| UserRepository.id := "1";
     UserRepository.name := "John Doe";
     UserRepository.email := "jane@test.com";
     UserRepository.phone := "123456789";
     UserRepository.is_active := true;
     UserRepository.created_at := "2025-07-02T15:13:18.000Z" |}.

Definition mary : UserRepository.CreateUserDTO :=
  {| UserRepository.create_name := "Mary Major";
     UserRepository.create_email := "mary@test.com";
     UserRepository.create_phone := "987654321";
     UserRepository.create_password := "$2b$12$hash" |}.

(** A users table that cannot be reached. *)
Definition unreachable : MemStore.t :=
  {| MemStore.rows := ∅; MemStore.next_id := 1; MemStore.down := true |}.

(** A cache with an entry that is not JSON. *)
Definition corrupt : gmap string Redis.entry :=
  {[ "app:user:1" := entry "oops" 900 ]}.

(** The cache of a product repository, beside a user. *)
Definition catalog : gmap string Redis.entry :=
  {[ "app:product:9" := entry "{}" 900;
     "app:product:slug:mug" := entry "{}" 900;
     "app:product:slug:cup" := entry "{}" 900;
     "app:products:list:all" := entry "[]" 300;
     "app:products:list:page:2:limit:10:category_id:7" := entry "[]" 300;
     "app:user:1" := entry "{}" 900 ]}.

End Example.

(** * Properties *)

(** ** Facts about strings *)

Section StringFacts.
Import JS.

Lemma app_String c s t : String c s +:+ t = String c (s +:+ t).
Proof. reflexivity. Qed.

Lemma app_assoc_s (a b c : string) : (a +:+ b) +:+ c = a +:+ (b +:+ c).
Proof. induction a as [|x a IH]; [done|]. by rewrite !app_String, IH. Qed.

Lemma colon_free_app a b :
  colon_free (a +:+ b) = colon_free a && colon_free b.
Proof.
  induction a as [|c a IH]; [done|].
  rewrite app_String. simpl. rewrite IH. by destruct (Ascii.eqb c ":").
Qed.

(** A text is cut at its first colon in one way only. *)
Lemma first_colon_unique a b r1 r2 :
  colon_free a = true → colon_free b = true →
  a +:+ ":" +:+ r1 = b +:+ ":" +:+ r2 → a = b ∧ r1 = r2.
Proof.
  revert b. induction a as [|x a IH]; intros [|y b] Ha Hb Heq.
  - by injection Heq.
  - rewrite app_String in Heq. injection Heq as <- _. by simpl in Hb.
  - rewrite app_String in Heq. injection Heq as -> _. by simpl in Ha.
  - rewrite !app_String in Heq. injection Heq as -> Heq.
    simpl in Ha, Hb.
    apply andb_prop in Ha as [_ Ha]. apply andb_prop in Hb as [_ Hb].
    destruct (IH b Ha Hb Heq) as [-> ->]. done.
Qed.

Lemma app_length_s a b :
  String.length (a +:+ b) = String.length a + String.length b.
Proof.
  induction a as [|c a IH]; [done|]. rewrite app_String. simpl. by rewrite IH.
Qed.

Lemma app_empty_r s : s +:+ "" = s.
Proof. induction s as [|c s IH]; [done|]. by rewrite app_String, IH. Qed.

Lemma rev_app_app u v w :
  String.rev_app u v +:+ w = String.rev_app u (v +:+ w).
Proof.
  revert v. induction u as [|x u IHu]; intros v; [done|].
  simpl. by rewrite IHu.
Qed.

Lemma split_colon_go_free cur s :
  colon_free s = true →
  split_colon_go cur s = [String.rev cur +:+ s].
Proof.
  revert cur. induction s as [|c s IH]; intros cur Hs; simpl.
  - by rewrite app_empty_r.
  - simpl in Hs. apply andb_prop in Hs as [Hc Hs].
    apply negb_true_iff in Hc. rewrite Hc, IH by done.
    unfold String.rev. simpl. by rewrite !rev_app_app.
Qed.

Lemma split_colon_go_cut cur a r :
  colon_free a = true →
  split_colon_go cur (a +:+ ":" +:+ r)
  = (String.rev cur +:+ a) :: split_colon r.
Proof.
  revert cur. induction a as [|c a IH]; intros cur Ha.
  - simpl. f_equal. unfold String.rev.
    rewrite rev_app_app. done.
  - rewrite app_String. simpl in *.
    apply andb_prop in Ha as [Hc Ha]. apply negb_true_iff in Hc.
    rewrite Hc, IH by done. f_equal.
    unfold String.rev. simpl. by rewrite !rev_app_app.
Qed.

Lemma split_colon_free s : colon_free s = true → split_colon s = [s].
Proof. intros Hs. unfold split_colon. by rewrite split_colon_go_free. Qed.

Lemma split_colon_cut a r :
  colon_free a = true → split_colon (a +:+ ":" +:+ r) = a :: split_colon r.
Proof. intros Ha. unfold split_colon. by rewrite split_colon_go_cut. Qed.

Lemma join_cons sep x y l :
  join sep (x :: y :: l) = x +:+ sep +:+ join sep (y :: l).
Proof. reflexivity. Qed.

End StringFacts.

(** ** Key derivation *)

Section KeyFacts.
Import CacheKeyGenerator LegacyKeys.

Lemma assoc_list_to_map (o : object) key :
  assoc key o = (list_to_map o : gmap string prim) !! key.
Proof.
  induction o as [|[k v] o IH]; simpl; [done|].
  rewrite lookup_insert. by destruct (decide (k = key)).
Qed.

(** Reading a property does not depend on the order in which the
    properties were written. *)
Lemma get_prop_permutation (o1 o2 : object) key :
  wf_object o1 → o1 ≡ₚ o2 → get_prop o1 key = get_prop o2 key.
Proof.
  intros Hwf Hperm. unfold get_prop. rewrite !assoc_list_to_map.
  by rewrite (list_to_map_proper (M:=gmap string) o1 o2 Hwf Hperm).
Qed.

(** Sorting forgets the order of its input. *)
Lemma sort_permutation (l1 l2 : list string) :
  l1 ≡ₚ l2 → sort l1 = sort l2.
Proof.
  intros Hperm. unfold sort.
  apply (Sorted_unique String.le).
  - apply Sorted_merge_sort; apply _.
  - apply Sorted_merge_sort; apply _.
  - by rewrite !merge_sort_Permutation.
Qed.

Lemma filter_parts_permutation (o1 o2 : object) :
  wf_object o1 → o1 ≡ₚ o2 →
  filter_parts (Some o1) = filter_parts (Some o2).
Proof.
  intros Hwf Hperm. unfold filter_parts, Object_keys.
  assert (Hkeys : o1.*1 ≡ₚ o2.*1) by (by apply fmap_Permutation).
  rewrite <-(Permutation_length Hkeys).
  destruct (0 <? length o1.*1)%nat; [|done].
  rewrite <-(sort_permutation _ _ Hkeys).
  apply flat_map_ext. intros key. unfold filter_part.
  by rewrite (get_prop_permutation o1 o2 key Hwf Hperm).
Qed.

(** The cases of a pagination argument: each of page and limit is absent,
    zero, or a number that counts. *)
Ltac pagination_cases pagination :=
  unfold pagination_parts, num_part, truthy_num;
  destruct (page_of pagination) as [p|], (limit_of pagination) as [l|];
  simpl; repeat case_match; simplify_eq/=.

Lemma join_starts sep c x l :
  ∃ t, join sep (String c x :: l) = String c t.
Proof. destruct l as [|y l]; simpl; eauto. Qed.

Lemma entityList_unfold entityType pagination filters :
  entityList entityType pagination filters
  = entityType +:+ ":list:"
      +:+ join ":" (pagination_parts pagination ++ filter_parts filters)%list.
Proof.
  unfold entityList. simpl.
  destruct (pagination_parts pagination ++ filter_parts filters)%list eqn:Hp.
  - exfalso. apply app_eq_nil in Hp as [Hp _]. revert Hp.
    pagination_cases pagination; done.
  - reflexivity.
Qed.

Lemma pagination_parts_head pagination :
  ∃ rest, pagination_parts pagination = "all" :: rest
          ∨ pagination_parts pagination = "page" :: rest
          ∨ pagination_parts pagination = "limit" :: rest.
Proof.
  pagination_cases pagination; eauto.
Qed.

(** Every list key reads [entityType:list:] and then [all], [page] or
    [limit]. *)
Lemma entityList_shape entityType pagination filters :
  ∃ rest, entityList entityType pagination filters
          = entityType +:+ ":list:" +:+ rest.
Proof. rewrite entityList_unfold. eauto. Qed.

End KeyFacts.

Section KeyTheorems.
Import CacheKeyGenerator LegacyKeys.

(** C1.  Key determinism: for every entity type and pagination, two
    filter objects that hold the same properties, written in any order,
    give the same list key.  The keys are sorted before they are
    appended, so the order of insertion is forgotten. *)
Theorem entityList_filter_insertion_order
    entityType pagination (filters1 filters2 : object) :
  wf_object filters1 → filters1 ≡ₚ filters2 →
  entityList entityType pagination (Some filters1)
  = entityList entityType pagination (Some filters2).
Proof.
  intros Hwf Hperm. rewrite !entityList_unfold.
  by rewrite (filter_parts_permutation filters1 filters2 Hwf Hperm).
Qed.

Lemma entityList_filter_insertion_order_witness :
  entityList "users" (Some {| page := Some (Num 1); limit := Some (Num 10) |})
    (Some [("role", PStr "admin"); ("is_active", PBool true)])
  = entityList "users" (Some {| page := Some (Num 1); limit := Some (Num 10) |})
      (Some [("is_active", PBool true); ("role", PStr "admin")]).
Proof.
  apply entityList_filter_insertion_order.
  - unfold wf_object. apply (bool_decide_unpack _). vm_compute. exact I.
  - apply perm_swap.
Defined.

(** The key of the documentation, with the filter keys in sorted order
    whatever order they were given in. *)
Example entityList_documented :
  entityList "users" (Some {| page := Some (Num 1); limit := Some (Num 10) |})
    (Some [("role", PStr "admin"); ("is_active", PBool true)])
  = "users:list:page:1:limit:10:is_active:true:role:admin".
Proof. vm_compute. reflexivity. Qed.

Example entityList_skips_undefined :
  entityList "users" None
    (Some [("q", PUndefined); ("is_active", PBool true); ("x", PNull)])
  = "users:list:all:is_active:true".
Proof. vm_compute. reflexivity. Qed.

(** C7 does not hold as stated: distinct descriptors, equal keys.  An id, a
    field name or a value may hold a colon, and a field may be called
    [list]; nothing in the key tells the kinds apart. *)
Lemma descriptors_collide :
  (ById (IdString "email:a@b.c") ≠ ByField "email" "a@b.c"
   ∧ derive "user" (ById (IdString "email:a@b.c"))
     = derive "user" (ByField "email" "a@b.c"))
  ∧ (ById (IdString "list:all") ≠ ListOf None None
     ∧ derive "users" (ById (IdString "list:all"))
       = derive "users" (ListOf None None))
  ∧ (ByField "list" "all" ≠ ListOf None None
     ∧ derive "users" (ByField "list" "all")
       = derive "users" (ListOf None None)).
Proof. repeat split; (discriminate || (vm_compute; reflexivity)). Qed.

(** C7, amended.  For one entity type, keys of different access kinds
    differ as soon as the id holds no colon and the field name holds no
    colon and is not [list]; the by-id key determines the text of the
    id, and the by-field key determines field and value when the field
    names hold no colon. *)
Theorem keys_of_different_kinds_differ
    entityType id field value pagination filters :
  colon_free (id_text id) = true →
  colon_free field = true →
  field ≠ "list" →
  entityById entityType id ≠ entityByField entityType field value
  ∧ entityById entityType id ≠ entityList entityType pagination filters
  ∧ entityByField entityType field value
    ≠ entityList entityType pagination filters
  ∧ (∀ id', entityById entityType id = entityById entityType id' →
            id_text id = id_text id')
  ∧ (∀ field' value', colon_free field' = true →
       entityByField entityType field value
       = entityByField entityType field' value' →
       field = field' ∧ value = value').
Proof.
  intros Hid Hfield Hlist.
  destruct (entityList_shape entityType pagination filters) as [rest Hrest].
  unfold entityById, entityByField. rewrite Hrest.
  split_and!.
  - intros Heq%(inj (String.app entityType))%(inj (String.app ":")).
    rewrite Heq, colon_free_app in Hid.
    apply andb_prop in Hid as [_ Hid]. by simpl in Hid.
  - intros Heq%(inj (String.app entityType)).
    apply (inj (String.app ":") _ ("list:" +:+ rest)) in Heq.
    rewrite Heq in Hid. by simpl in Hid.
  - intros Heq%(inj (String.app entityType)).
    apply (inj (String.app ":") _ ("list" +:+ ":" +:+ rest)) in Heq.
    apply (first_colon_unique field "list" value rest Hfield eq_refl)
      in Heq as [Heq _].
    done.
  - by intros id' Heq%(inj (String.app entityType))%(inj (String.app ":")).
  - intros field' value' Hfield'
      Heq%(inj (String.app entityType))%(inj (String.app ":")).
    by apply (first_colon_unique field field' value value').
Qed.

Lemma keys_of_different_kinds_differ_witness :
  entityById "user" (IdString "123")
  ≠ entityByField "user" "email" "john@example.com"
  ∧ entityById "user" (IdString "123")
    ≠ entityList "user" None (Some [("is_active", PBool true)]).
Proof.
  destruct (keys_of_different_kinds_differ "user" (IdString "123") "email"
              "john@example.com" None (Some [("is_active", PBool true)]))
    as (H1 & H2 & _); [reflexivity | reflexivity | discriminate |].
  exact (conj H1 H2).
Defined.

(** C8 does not hold as stated: a page of zero is no page.  The test on
    [pagination.page] is a truthiness test, so [{page: 0}] gives the key
    of the unpaginated list; and the generator kept on the service gives
    that key for every page that comes without a limit. *)
Lemma page_only_reads_as_unpaginated :
  entityList "users" (Some {| page := Some (Num 0); limit := None |}) None
  = entityList "users" None None
  ∧ generateUsersListKey (Some (Num 2)) None = generateUsersListKey None None.
Proof. split; vm_compute; reflexivity. Qed.

(** C8, amended.  For every entity type, an empty filter object gives
    the key of no filters at all.  A pagination with no limit and a page
    that counts, a number other than zero and [NaN], gives a key that
    differs from every key of the unpaginated list; with a page of zero
    or [NaN] it gives the key of the unpaginated list.  On the generator
    kept on the service a page without a limit gives the unpaginated
    key, whatever the page. *)
Theorem entityList_empty_filters_page_only
    entityType pagination (p : number) unpaginated filters filters' :
  truthy_num (page_of unpaginated) = false →
  truthy_num (limit_of unpaginated) = false →
  entityList entityType pagination (Some [])
  = entityList entityType pagination None
  ∧ (p ≠ Num 0 → p ≠ NaN →
     entityList entityType (Some {| page := Some p; limit := None |}) filters
     ≠ entityList entityType unpaginated filters')
  ∧ (p = Num 0 ∨ p = NaN →
     entityList entityType (Some {| page := Some p; limit := None |}) filters
     = entityList entityType None filters)
  ∧ generateUsersListKey (Some p) None = "users:list:all".
Proof.
  intros Hpage Hlimit. split; [reflexivity|].
  split_and!.
  - intros Hzero Hnan. rewrite !entityList_unfold.
    intros Heq%(inj (String.app entityType))%(inj (String.app ":list:")).
    revert Heq. unfold pagination_parts.
    rewrite Hpage, Hlimit.
    assert (Hp : truthy_num (Some p) = true).
    { destruct p as [z| | |]; try done. simpl.
      apply negb_true_iff, Z.eqb_neq. by intros ->. }
    cbn [page_of limit_of mbind option_bind page limit num_part].
    rewrite Hp. simpl.
    destruct (filter_parts filters), (filter_parts filters'); discriminate.
  - by intros [-> | ->].
  - unfold generateUsersListKey. simpl. by rewrite andb_false_r.
Qed.

Lemma entityList_empty_filters_page_only_witness :
  entityList "users" None (Some []) = entityList "users" None None
  ∧ entityList "users" (Some {| page := Some (Num 2); limit := None |}) None
    ≠ entityList "users" None None
  ∧ entityList "users" (Some {| page := Some NaN; limit := None |}) None
    = entityList "users" None None.
Proof.
  destruct (entityList_empty_filters_page_only "users" None (Num 2) None
              None None) as (H1 & H2 & _); [reflexivity | reflexivity |].
  destruct (entityList_empty_filters_page_only "users" None NaN None
              None None) as (_ & _ & H3 & _); [reflexivity | reflexivity |].
  exact (conj H1 (conj (H2 ltac:(discriminate) ltac:(discriminate))
                       (H3 (or_intror eq_refl)))).
Defined.

Example entityList_page_only :
  entityList "users" (Some {| page := Some (Num 2); limit := None |}) None
  = "users:list:page:2".
Proof. vm_compute. reflexivity. Qed.

(** C9 does not hold as stated: the keys carry no [id] and no [field]
    segment. *)
Lemma keys_have_no_kind_segment :
  entityById "user" (IdString "1") ≠ "user:id:1"
  ∧ entityByField "user" "email" "john@test.com"
    ≠ "user:field:email:john@test.com"
  ∧ generateUserKey "1" ≠ "user:id:1"
  ∧ generateUserByEmailKey "john@test.com"
    ≠ "user:field:email:john@test.com".
Proof. repeat split; vm_compute; discriminate. Qed.

(** C9, amended.  For every entity type and id the by-id key is the
    entity type, a colon and the id, and for every field and value the
    by-field key is the entity type, the field name and the value, with
    a colon between them: the key of user 1 is [user:1] and the key of
    e-mail e is [user:email:e], from the generators of the service as
    well.  No key carries a segment that names its kind: the by-id key
    is never the entity type, [id] and the id, and the by-field key is
    never the entity type, [field], the field name and the value.  When
    the parts hold no colon the by-id key has two segments and the
    by-field key three. *)
Theorem key_segments entityType id field value :
  entityById entityType id = entityType +:+ ":" +:+ id_text id
  ∧ entityByField entityType field value
    = entityType +:+ ":" +:+ field +:+ ":" +:+ value
  ∧ generateUserKey (id_text id) = entityById "user" id
  ∧ generateUserByEmailKey value = entityByField "user" "email" value
  ∧ entityById entityType id ≠ entityType +:+ ":id:" +:+ id_text id
  ∧ entityByField entityType field value
    ≠ entityType +:+ ":field:" +:+ field +:+ ":" +:+ value
  ∧ (colon_free entityType = true → colon_free (id_text id) = true →
     split_colon (entityById entityType id) = [entityType; id_text id])
  ∧ (colon_free entityType = true → colon_free field = true →
     colon_free value = true →
     split_colon (entityByField entityType field value)
     = [entityType; field; value]).
Proof.
  unfold entityById, entityByField. split_and!; try reflexivity.
  - intros Heq%(inj (String.app entityType))%(inj (String.app ":")).
    apply (f_equal String.length) in Heq. simpl in Heq.
    rewrite ?app_length_s in Heq. simpl in Heq. lia.
  - intros Heq%(inj (String.app entityType))%(inj (String.app ":")).
    apply (f_equal String.length) in Heq. simpl in Heq.
    rewrite ?app_length_s in Heq. simpl in Heq. lia.
  - intros HE Hid. by rewrite split_colon_cut, split_colon_free.
  - intros HE Hf Hv. by rewrite !split_colon_cut, split_colon_free.
Qed.

Lemma key_segments_witness :
  entityById "user" (IdString "1") = "user:1"
  ∧ entityByField "user" "email" "john@test.com" = "user:email:john@test.com"
  ∧ split_colon (entityById "user" (IdString "1")) = ["user"; "1"]
  ∧ split_colon (entityByField "user" "email" "john@test.com")
    = ["user"; "email"; "john@test.com"].
Proof.
  destruct (key_segments "user" (IdString "1") "email" "john@test.com")
    as (H1 & H2 & _ & _ & _ & _ & H3 & H4).
  exact (conj H1 (conj H2 (conj (H3 eq_refl eq_refl)
                                (H4 eq_refl eq_refl eq_refl)))).
Defined.

(** The patterns the repository deletes by. *)
Example deletion_patterns :
  entityPattern "users" (Some "list:*") = "users:list:*"
  ∧ entityPattern "user" None = "user:*".
Proof. split; reflexivity. Qed.

Example user_keys :
  entityById "user" (IdString "1") = "user:1"
  ∧ entityById "user" (IdNumber (Num 123)) = "user:123"
  ∧ entityByField "user" "email" "john@test.com" = "user:email:john@test.com".
Proof. repeat split; vm_compute; reflexivity. Qed.

End KeyTheorems.

(** ** JSON text *)

Section JsonFacts.

Lemma parse_chars_escape_char c tail :
  parse_chars (escape_char c +:+ tail)
  = match parse_chars tail with
    | Some (t, r) => Some (String c t, r)
    | None => None
    end.
Proof.
  destruct c as [[] [] [] [] [] [] [] []];
    cbv beta iota zeta delta [escape_char parse_chars];
    by destruct (parse_chars tail) as [[t r]|].
Qed.

(** A string literal is read back as the string it was written from,
    whatever its characters. *)
Lemma parse_chars_escape s rest :
  parse_chars (escape s +:+ String dquote rest) = Some (s, rest).
Proof.
  induction s as [|c s IH]; [done|].
  simpl escape. by rewrite app_assoc_s, parse_chars_escape_char, IH.
Qed.

Lemma string_round_trips s : round_trips (VPrim (PStr s)).
Proof.
  unfold round_trips, parse. simpl.
  unfold quote. cbn [skip_ws Ascii.eqb Bool.eqb dquote orb andb N_of_ascii].
  simpl. by rewrite parse_chars_escape.
Qed.

(** Whole numbers. *)

Lemma pretty_N_char_digit x :
  (x < 10)%N →
  is_digit (pretty_N_char x) = true ∧ digit_of (pretty_N_char x) = x.
Proof.
  intros Hx.
  destruct x as [|p]; [done|].
  do 4 (destruct p as [p|p|]; try (by vm_compute); try lia).
Qed.

Lemma pretty_N_go_app x s rest :
  pretty_N_go x s +:+ rest = pretty_N_go x (s +:+ rest).
Proof.
  revert s. induction (N.lt_wf_0 x) as [x _ IH]; intros s.
  destruct (decide (0 < x)%N) as [Hx|Hx].
  - rewrite (pretty_N_go_step x s), (pretty_N_go_step x (s +:+ rest)) by done.
    rewrite IH by (apply N.div_lt; lia). reflexivity.
  - assert (x = 0%N) as -> by lia. by rewrite !pretty_N_go_0.
Qed.

Lemma parse_digits_pretty x acc s :
  ∃ k, parse_digits acc (pretty_N_go x s) = parse_digits (acc * 10 ^ k + x) s
       ∧ (x < 10 ^ k)%N.
Proof.
  revert acc s. induction (N.lt_wf_0 x) as [x _ IH]; intros acc s.
  destruct (decide (0 < x)%N) as [Hx|Hx].
  - rewrite pretty_N_go_step by done.
    destruct (IH (x `div` 10)%N ltac:(apply N.div_lt; lia) acc
                (String (pretty_N_char (x `mod` 10)) s)) as (k & -> & Hk).
    exists (N.succ k). 
    destruct (pretty_N_char_digit (x `mod` 10)%N) as [Hd Hv].
    { apply N.mod_lt. lia. }
    simpl. rewrite Hd. fold (digit_of (pretty_N_char (x `mod` 10))).
    rewrite Hv. rewrite N.pow_succ_r'. split.
    + f_equal. pose proof (N.div_mod x 10). lia.
    + pose proof (N.div_mod x 10). pose proof (N.mod_lt x 10). lia.
  - assert (x = 0%N) as -> by lia. exists 0%N. rewrite pretty_N_go_0.
    split; [f_equal; lia|lia].
Qed.

Lemma first_digit x s :
  (0 < x)%N →
  ∃ c r, pretty_N_go x s = String c r
         ∧ is_digit c = true ∧ Ascii.eqb c "0" = false.
Proof.
  revert s. induction (N.lt_wf_0 x) as [x _ IH]; intros s Hx.
  rewrite pretty_N_go_step by done.
  destruct (decide (0 < x `div` 10)%N) as [Hq|Hq].
  - apply IH; [apply N.div_lt; lia|done].
  - assert (Hq0 : (x `div` 10 = 0)%N) by (by apply N.nlt_ge, N.le_0_r in Hq).
    rewrite Hq0, pretty_N_go_0. eexists _, _. split; [done|].
    assert (Hlt : (x < 10)%N) by (by apply N.div_small_iff in Hq0).
    rewrite N.mod_small by done.
    destruct x as [|p]; [lia|].
    do 4 (destruct p as [p|p|]; try (by vm_compute); try lia).
Qed.

Lemma parse_digits_stop n rest :
  ends_number rest = true → parse_digits n rest = (n, rest).
Proof.
  destruct rest as [|d rest]; [done|]. simpl. intros Hd.
  apply negb_true_iff in Hd. repeat (apply orb_false_elim in Hd as [Hd _]).
  by rewrite Hd.
Qed.

Lemma ends_number_tail d rest :
  ends_number (String d rest) = true →
  Ascii.eqb d "." || Ascii.eqb d "e" || Ascii.eqb d "E" = false
  ∧ is_digit d = false.
Proof.
  simpl. intros Hd. apply negb_true_iff in Hd.
  destruct (is_digit d); [done|]. by simpl in Hd.
Qed.

(** A whole number is read back from its decimal text. *)
Lemma parse_nat_pretty (x : N) rest :
  ends_number rest = true →
  parse_nat (pretty x +:+ rest) = Some (x, rest).
Proof.
  intros Hrest. unfold pretty, pretty_N.
  destruct (decide (x = 0%N)) as [->|Hx].
  - destruct rest as [|d rest]; [done|].
    destruct (ends_number_tail d rest Hrest) as [Hd1 Hd2].
    change (parse_nat (String "0" (String d rest)) = Some (0%N, String d rest)).
    unfold parse_nat. cbn [Ascii.eqb Bool.eqb andb].
    by rewrite Hd2, orb_false_l, Hd1.
  - rewrite pretty_N_go_app.
    destruct (first_digit x ("" +:+ rest)) as (c & r & Htext & Hc & Hz);
      [lia|].
    unfold parse_nat. rewrite Htext, Hz, Hc. rewrite <-Htext.
    destruct (parse_digits_pretty x 0 ("" +:+ rest)) as (k & -> & _).
    rewrite N.mul_0_l, N.add_0_l.
    change ("" +:+ rest) with rest.
    rewrite (parse_digits_stop x rest Hrest).
    destruct rest as [|d rest]; [done|].
    destruct (ends_number_tail d rest Hrest) as [Hd1 _]. by rewrite Hd1.
Qed.

(** One step of the parser. *)

Lemma parse_items_S f s :
  parse_items (S f) s
  = match parse_value f s with
    | Some (v, r) =>
        match skip_ws r with
        | String c r' =>
            if Ascii.eqb c "," then
              match parse_items f r' with
              | Some (vs, r'') => Some (v :: vs, r'')
              | None => None
              end
            else if Ascii.eqb c "]" then Some ([v], r')
            else None
        | EmptyString => None
        end
    | None => None
    end.
Proof.
  cbn [parse_items]. destruct (parse_value f s) as [[v r]|]; [|done].
  simpl. destruct (skip_ws r) as [|c r']; [done|].
  destruct (Ascii.eqb c ","); [|done].
  by destruct (parse_items f r') as [[vs r'']|].
Qed.

Lemma skip_ws_dquote r : skip_ws (String dquote r) = String dquote r.
Proof. reflexivity. Qed.

Lemma skip_ws_colon r : skip_ws (":" +:+ r) = String ":" r.
Proof. reflexivity. Qed.

Lemma parse_members_S f k r2 :
  parse_members (S f) (quote k +:+ ":" +:+ r2)
  = match parse_value f r2 with
    | Some (v, r3) =>
        match skip_ws r3 with
        | String d r4 =>
            if Ascii.eqb d "," then
              match parse_members f r4 with
              | Some (ms, r5) => Some ((k, v) :: ms, r5)
              | None => None
              end
            else if Ascii.eqb d "}" then Some ([(k, v)], r4)
            else None
        | EmptyString => None
        end
    | None => None
    end.
Proof.
  unfold quote. rewrite app_String, app_assoc_s, app_String.
  change ("" +:+ (":" +:+ r2)) with (":" +:+ r2).
  cbn [parse_members]. rewrite skip_ws_dquote, Ascii.eqb_refl.
  rewrite parse_chars_escape. cbn [mbind option_bind].
  rewrite skip_ws_colon, Ascii.eqb_refl.
  destruct (parse_value f r2) as [[v r3]|]; [|done].
  cbn [mbind option_bind]. destruct (skip_ws r3) as [|c r']; [done|].
  destruct (Ascii.eqb c ","); [|done].
  by destruct (parse_members f r') as [[vs r'']|].
Qed.
Lemma pv_null f r :
  parse_value (S f) (String "n" r) = expect "ull" null r.
Proof. reflexivity. Qed.

Lemma pv_true f r :
  parse_value (S f) (String "t" r) = expect "rue" (VPrim (PBool true)) r.
Proof. reflexivity. Qed.

Lemma pv_false f r :
  parse_value (S f) (String "f" r) = expect "alse" (VPrim (PBool false)) r.
Proof. reflexivity. Qed.

Lemma pv_string f r :
  parse_value (S f) (String dquote r)
  = match parse_chars r with
    | Some (t, r') => Some (VPrim (PStr t), r')
    | None => None
    end.
Proof.
  change (parse_value (S f) (String dquote r))
    with (parse_chars r ≫= λ '(t, r'), Some (VPrim (PStr t), r')).
  by destruct (parse_chars r) as [[t r']|].
Qed.

Lemma pv_minus f r :
  parse_value (S f) (String "-" r)
  = match parse_nat r with
    | Some (n, r') => Some (VPrim (PNum (- Z.of_N n)), r')
    | None => None
    end.
Proof.
  change (parse_value (S f) (String "-" r))
    with (parse_nat r ≫= λ '(n, r'), Some (VPrim (PNum (- Z.of_N n)), r')).
  by destruct (parse_nat r) as [[n r']|].
Qed.

Lemma digit_head c :
  is_digit c = true → is_ws c = false ∧ Ascii.eqb c "]" = false.
Proof. destruct c as [[] [] [] [] [] [] [] []]; by vm_compute. Qed.

Lemma pv_digit f c r :
  is_digit c = true →
  parse_value (S f) (String c r)
  = match parse_nat (String c r) with
    | Some (n, r') => Some (VPrim (PNum (Z.of_N n)), r')
    | None => None
    end.
Proof.
  intros Hc.
  assert (Hbody : parse_value (S f) (String c r)
          = parse_nat (String c r)
            ≫= λ '(n, r'), Some (VPrim (PNum (Z.of_N n)), r')).
  { destruct c as [[] [] [] [] [] [] [] []];
      first [ discriminate Hc | reflexivity ]. }
  rewrite Hbody. by destruct (parse_nat (String c r)) as [[n r']|].
Qed.

Lemma pv_array f r :
  parse_value (S f) (String "[" r)
  = match skip_ws r with
    | String d r' =>
        if Ascii.eqb d "]" then Some (VArray [], r')
        else match parse_items f r with
             | Some (vs, r'') => Some (VArray vs, r'')
             | None => None
             end
    | EmptyString => None
    end.
Proof.
  change (parse_value (S f) (String "[" r))
    with (match skip_ws r with
          | String d r' =>
              if Ascii.eqb d "]" then Some (VArray [], r')
              else parse_items f r ≫= λ '(vs, r''), Some (VArray vs, r'')
          | EmptyString => None
          end).
  destruct (skip_ws r) as [|d r']; [done|].
  destruct (Ascii.eqb d "]"); [done|].
  by destruct (parse_items f r) as [[vs r'']|].
Qed.

Lemma pv_object f r :
  parse_value (S f) (String "{" r)
  = match skip_ws r with
    | String d r' =>
        if Ascii.eqb d "}" then Some (VObject [], r')
        else match parse_members f r with
             | Some (ms, r'') => Some (VObject ms, r'')
             | None => None
             end
    | EmptyString => None
    end.
Proof.
  change (parse_value (S f) (String "{" r))
    with (match skip_ws r with
          | String d r' =>
              if Ascii.eqb d "}" then Some (VObject [], r')
              else parse_members f r ≫= λ '(ms, r''), Some (VObject ms, r'')
          | EmptyString => None
          end).
  destruct (skip_ws r) as [|d r']; [done|].
  destruct (Ascii.eqb d "}"); [done|].
  by destruct (parse_members f r) as [[vs r'']|].
Qed.

Lemma substring_all s : substring 0 (String.length s) s = s.
Proof. induction s as [|c s IH]; [done|]. simpl. by rewrite IH. Qed.

Lemma expect_app word v rest : expect word v (word +:+ rest) = Some (v, rest).
Proof.
  unfold expect.
  assert (Hp : String.prefix word (word +:+ rest) = true).
  { induction word as [|c w IH]; [by destruct rest|].
    rewrite app_String. simpl. by destruct (ascii_dec c c). }
  rewrite Hp, app_length_s.
  replace (String.length word + String.length rest - String.length word)
    with (String.length rest) by lia.
  f_equal. f_equal.
  induction word as [|c w IH]; [apply substring_all|].
  rewrite app_String. simpl. apply IH.
  clear -Hp. rewrite app_String in Hp. simpl in Hp.
  by destruct (ascii_dec c c).
Qed.

(** Values. *)

Lemma skip_ws_head c r : is_ws c = false → skip_ws (String c r) = String c r.
Proof. intros Hc. cbn [skip_ws]. fold (is_ws c). by rewrite Hc. Qed.

Lemma reads_back_prim p : reads_back (VPrim p).
Proof.
  intros Hplain. split; [by destruct p as [| |[]| |]|].
  destruct p as [| |b|z|s]; try done; unfold text_of; cbn [stringify stringify_prim].
  - split; [by eexists _, _|]. intros [|f] rest Hf _; [simpl in Hf; lia|].
    change ("null" +:+ rest) with (String "n" ("ull" +:+ rest)).
    by rewrite pv_null, expect_app.
  - destruct b.
    + split; [by eexists _, _|]. intros [|f] rest Hf _; [simpl in Hf; lia|].
      change ("true" +:+ rest) with (String "t" ("rue" +:+ rest)).
      by rewrite pv_true, expect_app.
    + split; [by eexists _, _|]. intros [|f] rest Hf _; [simpl in Hf; lia|].
      change ("false" +:+ rest) with (String "f" ("alse" +:+ rest)).
      by rewrite pv_false, expect_app.
  - destruct z as [|p|p].
    + split; [by eexists _, _|]. intros [|f] rest Hf Hrest; [simpl in Hf; lia|].
      change (pretty 0%Z +:+ rest) with (String "0" rest).
      rewrite pv_digit by done.
      change (String "0" rest) with (pretty 0%N +:+ rest).
      by rewrite parse_nat_pretty.
    + change (pretty (Z.pos p)) with (pretty_N_go (N.pos p) "").
      destruct (first_digit (N.pos p) "") as (c & t & Htext & Hc & _); [lia|].
      destruct (digit_head c Hc) as [Hws Hclose].
      split; [by eexists _, _|].
      intros [|f] rest Hf Hrest; [rewrite Htext in Hf; simpl in Hf; lia|].
      rewrite Htext, app_String, pv_digit by done.
      rewrite <-app_String, <-Htext.
      change (pretty_N_go (N.pos p) "") with (pretty (N.pos p)).
      by rewrite parse_nat_pretty.
    + change (pretty (Z.neg p)) with ("-" +:+ pretty (N.pos p)).
      split; [by eexists _, _|].
      intros [|f] rest Hf Hrest; [simpl in Hf; lia|].
      rewrite app_assoc_s.
      change ("-" +:+ pretty (N.pos p) +:+ rest)
        with (String "-" (pretty (N.pos p) +:+ rest)).
      by rewrite pv_minus, parse_nat_pretty.
  - unfold quote. split; [by eexists _, _|].
    intros [|f] rest Hf _; [simpl in Hf; lia|].
    rewrite app_String, pv_string, app_assoc_s, app_String.
    change ("" +:+ rest) with rest. by rewrite parse_chars_escape.
Qed.


Lemma cost_cons t texts : cost (t :: texts) = S (String.length t) + cost texts.
Proof. reflexivity. Qed.

Lemma join_length texts :
  texts ≠ [] → S (String.length (join "," texts)) = cost texts.
Proof.
  induction texts as [|t [|t' texts] IH]; intros Hne; [done| |].
  - unfold cost. simpl. lia.
  - rewrite join_cons, !app_length_s. unfold cost in *. simpl in *.
    specialize (IH ltac:(done)). lia.
Qed.

Lemma join_head sep c t texts :
  ∃ t', join sep (String c t :: texts) = String c t'.
Proof. destruct texts; simpl; eauto. Qed.

Lemma items_read_back items :
  Forall reads_back items → forallb plain items = true → items ≠ [] →
  ∀ g rest, (cost (map text_of items) ≤ g)%nat →
    parse_items g (join "," (map text_of items) +:+ "]" +:+ rest)
    = Some (items, rest).
Proof.
  induction items as [|x xs IH]; intros Hall Hplain Hne g rest Hg; [done|].
  apply Forall_cons in Hall as [Hx Hxs].
  simpl in Hplain. apply andb_prop in Hplain as [Hpx Hpxs].
  destruct (Hx Hpx) as (_ & _ & Hparse).
  destruct g as [|g]; [unfold cost in Hg; simpl in Hg; lia|].
  rewrite parse_items_S.
  destruct xs as [|y ys].
  - simpl map. change (join "," [text_of x]) with (text_of x).
    rewrite Hparse; [|unfold cost in Hg; simpl in Hg; lia|done].
    change (skip_ws ("]" +:+ rest)) with (String "]" rest).
    reflexivity.
  - change (join "," (map text_of (x :: y :: ys)))
      with (text_of x +:+ "," +:+ join "," (map text_of (y :: ys))).
    rewrite !app_assoc_s.
    rewrite Hparse; [|unfold cost in Hg; simpl in Hg; lia|done].
    change (skip_ws ("," +:+ ?r)) with (String "," r).
    cbn [Ascii.eqb Bool.eqb andb].
    rewrite (IH Hxs Hpxs ltac:(done) g rest);
      [done|unfold cost in *; simpl in *; lia].
Qed.

Lemma members_read_back (props : list (string * jsvalue)) :
  Forall (fun kv => reads_back kv.2) props →
  forallb (fun kv => plain kv.2) props = true → props ≠ [] →
  ∀ g rest, (cost (map member_text props) ≤ g)%nat →
    parse_members g (join "," (map member_text props) +:+ "}" +:+ rest)
    = Some (props, rest).
Proof.
  induction props as [|[k v] ps IH]; intros Hall Hplain Hne g rest Hg; [done|].
  apply Forall_cons in Hall as [Hx Hxs].
  simpl in Hplain. apply andb_prop in Hplain as [Hpx Hpxs].
  destruct (Hx Hpx) as (_ & _ & Hparse). simpl in Hparse.
  assert (Hlen : (String.length (text_of v)
                  < String.length (member_text (k, v)))%nat).
  { unfold member_text. cbn [fst snd]. rewrite !app_length_s.
    change (String.length ":") with 1. lia. }
  cbn [map] in Hg. rewrite cost_cons in Hg.
  destruct g as [|g]; [lia|].
  destruct ps as [|kv' ps'].
  - simpl map. change (join "," [member_text (k, v)]) with (member_text (k, v)).
    unfold member_text at 1. cbn [fst snd]. rewrite !app_assoc_s.
    rewrite parse_members_S.
    rewrite Hparse; [|lia|done].
    change (skip_ws ("}" +:+ rest)) with (String "}" rest).
    reflexivity.
  - change (join "," (map member_text ((k, v) :: kv' :: ps')))
      with (member_text (k, v) +:+ ","
              +:+ join "," (map member_text (kv' :: ps'))).
    unfold member_text at 1. cbn [fst snd].
    rewrite !app_assoc_s. rewrite parse_members_S.
    rewrite Hparse; [|lia|done].
    change (skip_ws ("," +:+ ?r)) with (String "," r).
    cbn [Ascii.eqb Bool.eqb andb].
    rewrite (IH Hxs Hpxs ltac:(done) g rest);
      [done|lia].
Qed.


Lemma reads_back_array items :
  Forall reads_back items → reads_back (VArray items).
Proof.
  intros Hall Hplain. simpl in Hplain.
  assert (Htext : text_of (VArray items)
                  = "[" +:+ join "," (map text_of items) +:+ "]") by done.
  split; [by rewrite Htext|]. rewrite Htext.
  split; [by eexists _, _|].
  intros [|f] rest Hf _; [rewrite !app_length_s in Hf; simpl in Hf; lia|].
  rewrite !app_assoc_s.
  change ("[" +:+ ?r) with (String "[" r). rewrite pv_array.
  destruct items as [|x xs].
  { reflexivity. }
  assert (Hfuel : (cost (map text_of (x :: xs)) ≤ f)%nat).
  { rewrite <-join_length by done. rewrite !app_length_s in Hf.
    change (String.length "[") with 1 in Hf.
    change (String.length "]") with 1 in Hf. lia. }
  rewrite (items_read_back (x :: xs) Hall Hplain ltac:(done) f rest Hfuel).
  apply Forall_cons in Hall as [Hx _].
  simpl in Hplain. apply andb_prop in Hplain as [Hpx _].
  destruct (Hx Hpx) as (_ & (c & t & Hhead & Hws & Hclose) & _).
  cbn [map]. rewrite Hhead.
  destruct (join_head "," c t (map text_of xs)) as [t' ->].
  rewrite app_String, (skip_ws_head c _ Hws). by rewrite Hclose.
Qed.

Lemma members_text (props : list (string * jsvalue)) :
  Forall (fun kv => reads_back kv.2) props →
  forallb (fun kv => plain kv.2) props = true →
  omap (fun kv => stringify kv.2
                  ≫= fun s => Some (quote kv.1 +:+ ":" +:+ s)) props
  = map member_text props.
Proof.
  induction props as [|[k v] ps IH]; intros Hall Hplain; [done|].
  apply Forall_cons in Hall as [Hx Hxs].
  simpl in Hplain. apply andb_prop in Hplain as [Hpx Hpxs].
  destruct (Hx Hpx) as (Hs & _). simpl in Hs.
  cbn [omap list_omap map fst snd]. rewrite Hs. cbn [mbind option_bind].
  by rewrite <-(IH Hxs Hpxs).
Qed.

Lemma reads_back_object props :
  Forall (fun kv => reads_back kv.2) props → reads_back (VObject props).
Proof.
  intros Hall Hplain. simpl in Hplain.
  assert (Htext : text_of (VObject props)
                  = "{" +:+ join "," (map member_text props) +:+ "}").
  { unfold text_of. cbn [stringify].
    by rewrite (members_text props Hall Hplain). }
  split.
  { rewrite Htext. cbn [stringify].
    by rewrite (members_text props Hall Hplain). }
  rewrite Htext. split; [by eexists _, _|].
  intros [|f] rest Hf _; [rewrite !app_length_s in Hf; simpl in Hf; lia|].
  rewrite !app_assoc_s.
  change ("{" +:+ ?r) with (String "{" r). rewrite pv_object.
  destruct props as [|[k v] ps].
  { reflexivity. }
  assert (Hfuel : (cost (map member_text ((k, v) :: ps)) ≤ f)%nat).
  { rewrite <-join_length by done. rewrite !app_length_s in Hf.
    change (String.length "{") with 1 in Hf.
    change (String.length "}") with 1 in Hf. lia. }
  rewrite (members_read_back ((k, v) :: ps) Hall Hplain ltac:(done) f rest
             Hfuel).
  cbn [map]. unfold member_text at 1, quote. cbn [fst].
  rewrite app_String.
  destruct (join_head "," dquote
              ((escape k +:+ String dquote "") +:+ ":" +:+ text_of (k, v).2)
              (map member_text ps)) as [t' ->].
  by rewrite app_String, skip_ws_dquote.
Qed.

(** A text that does not begin as a JSON value begins is refused. *)
Lemma starts_value_parse text : starts_value text = false → parse text = None.
Proof.
  unfold starts_value, parse. cbn [parse_value].
  destruct (skip_ws text) as [|c r]; [done|].
  intros Hc. repeat (apply orb_false_elim in Hc as [Hc ?]).
  by repeat match goal with H : _ = false |- _ => rewrite H; clear H end.
Qed.

(** Every value built from [null], booleans, whole numbers, strings,
    arrays and objects comes back from its JSON text as it went in. *)
Theorem plain_round_trips v : plain v = true → round_trips v.
Proof.
  intros Hplain.
  destruct (jsvalue_nested_ind reads_back reads_back_prim
              ltac:(by intros iso ?) reads_back_array reads_back_object
              v Hplain) as (Htext & _ & Hparse).
  unfold round_trips, parse. rewrite Htext. cbn [mbind option_bind].
  rewrite <-(app_empty_r (text_of v)) at 2.
  rewrite Hparse; [done|lia|done].
Qed.

(** Values that come back as they went in. *)
Example plain_values_round_trip :
  round_trips null
  ∧ round_trips (VPrim (PBool false))
  ∧ round_trips (VPrim (PNum (-1205)))
  ∧ round_trips (VArray [VPrim (PNum 0); VArray []; VObject []])
  ∧ round_trips Example.testValue
  ∧ round_trips Example.john_from_cache.
Proof. split_and!; vm_compute; reflexivity. Qed.

(** Values that do not: an [undefined], a date, an [undefined] property
    and an [undefined] array item. *)
Example lossy_values :
  stringify (VPrim PUndefined) = None
  ∧ stringify (VDate "2025-07-02T15:13:18.000Z") ≫= parse
    = Some (VPrim (PStr "2025-07-02T15:13:18.000Z"))
  ∧ stringify (VObject [("phone", VPrim PUndefined)]) ≫= parse
    = Some (VObject [])
  ∧ stringify (VArray [VPrim PUndefined]) ≫= parse
    = Some (VArray [null]).
Proof. split_and!; vm_compute; reflexivity. Qed.

End JsonFacts.

(** ** The cache service *)

Section CacheFacts.
Context (env : Env) (wire : CacheService → string → string).

Lemma positive_whole n :
  positive n = true → n = Num (whole n) ∧ (0 < whole n)%Z.
Proof. destruct n as [z| | |]; try done. simpl. by intros ?%Z.ltb_lt. Qed.

Lemma ready_available cs c : ready cs c → unavailable cs = false.
Proof. intros [Hc Hconn]. unfold unavailable. by rewrite Hc, Hconn. Qed.

Lemma unavailable_ready cs :
  unavailable cs = false → ∃ c, ready cs c.
Proof.
  unfold unavailable, ready. destruct (client cs) as [c|], (isConnected cs);
    try done. eauto.
Qed.

(** Running the monad: the combinators and the client are unfolded, the
    database is left alone. *)
Ltac run_async :=
  cbv beta iota zeta delta
    [try_catch bind ret throw gets modify on_client
     Redis.get Redis.setEx Redis.del Redis.keys Redis.exists_ Redis.flushDb
     Redis.issue Redis.rejects Redis.tick Redis.with_db with_client
     sent_to stored client isConnected keyPrefix
     Redis.db Redis.faults Redis.sent tail].

Ltac open_service cs c Hready :=
  let Hc := fresh in let Hconn := fresh in
  destruct Hready as [Hc Hconn];
  destruct cs as [? ? ?]; simpl in Hc, Hconn; subst;
  destruct c as [? [|[|] ?] ?].

Lemma get_eq key cs c :
  ready cs c →
  CacheOps.get wire key cs =
    let k := wire cs key in
    let cs' := sent_to cs c (Redis.GET k) in
    if Redis.rejects c then (Ok null, cs')
    else
      match Redis.payload <$> Redis.db c !! k with
      | Some text =>
          if String.eqb text "" then (Ok null, cs')
          else (Ok (default null (parse text)), cs')
      | None => (Ok null, cs')
      end.
Proof.
  intros Hready. unfold CacheOps.get.
  rewrite (ready_available cs c Hready).
  open_service cs c Hready; run_async; try done.
  all: destruct (_ !! _) as [[text ?]|]; simpl; try done.
  all: destruct (String.eqb text ""); simpl; try done.
  all: by destruct (parse text).
Qed.

Lemma set_eq key v ttlSeconds cs c :
  ready cs c →
  CacheOps.set env wire key v ttlSeconds cs =
    let ttl := if truthy_num ttlSeconds then default (Num 0) ttlSeconds
               else CACHE_TTL_SECONDS env in
    let k := wire cs key in
    match stringify v with
    | Some text =>
        let cmd := Redis.SETEX k ttl text in
        if Redis.rejects c || negb (positive ttl)
        then (Ok false, sent_to cs c cmd)
        else (Ok true,
              stored cs c cmd
                (<[k := {| Redis.payload := text;
                           Redis.expiry := Some (whole ttl) |}]>
                   (Redis.db c)))
    | None => (Ok false, cs)
    end.
Proof.
  intros Hready. unfold CacheOps.set.
  rewrite (ready_available cs c Hready).
  open_service cs c Hready; run_async.
  all: destruct (stringify v); simpl; try done.
  all: destruct (if truthy_num ttlSeconds then _ else _) as [secs| | |];
    simpl; try done.
  all: rewrite Z.leb_antisym; by destruct (0 <? secs)%Z.
Qed.

Lemma del_keys_one k (d : gmap string Redis.entry) :
  Redis.del_keys [k] d
  = ((if d !! k is Some _ then 1 else 0)%Z, base.delete k d).
Proof. simpl. by destruct (d !! k); rewrite ?Z.add_0_r. Qed.

Lemma delete_eq key cs c :
  ready cs c →
  CacheOps.delete wire key cs =
    let k := wire cs key in
    let cmd := Redis.DEL [k] in
    if Redis.rejects c then (Ok false, sent_to cs c cmd)
    else (Ok (bool_decide (is_Some (Redis.db c !! k))),
          stored cs c cmd (base.delete k (Redis.db c))).
Proof.
  intros Hready. unfold CacheOps.delete.
  rewrite (ready_available cs c Hready).
  open_service cs c Hready; run_async; try done.
  all: rewrite del_keys_one; by destruct (_ !! _).
Qed.

Lemma deletePattern_eq pattern cs c :
  ready cs c →
  CacheOps.deletePattern wire pattern cs =
    let p := wire cs pattern in
    let ks := matching p (Redis.db c) in
    let c1 := Redis.tick (Redis.KEYS p) c in
    if Redis.rejects c then (Ok 0%Z, with_client cs c1)
    else if (length ks =? 0)%nat then (Ok 0%Z, with_client cs c1)
    else if Redis.rejects c1 then (Ok 0%Z, sent_to cs c1 (Redis.DEL ks))
    else (Ok (Redis.del_keys ks (Redis.db c)).1,
          stored cs c1 (Redis.DEL ks) (Redis.del_keys ks (Redis.db c)).2).
Proof.
  intros Hready. unfold CacheOps.deletePattern, matching.
  rewrite (ready_available cs c Hready).
  destruct Hready as [Hc Hconn].
  destruct cs as [? ? ?]; simpl in Hc, Hconn; subst.
  destruct c as [d [|[] [|[] fs]] s]; run_async; try done.
  all: destruct (length _ =? 0)%nat; try done.
  all: by destruct (Redis.del_keys _ _).
Qed.

Lemma exists_eq key cs c :
  ready cs c →
  CacheOps.exists_ wire key cs =
    let k := wire cs key in
    let cs' := sent_to cs c (Redis.EXISTS k) in
    if Redis.rejects c then (Ok false, cs')
    else (Ok (bool_decide (is_Some (Redis.db c !! k))), cs').
Proof.
  intros Hready. unfold CacheOps.exists_.
  rewrite (ready_available cs c Hready).
  open_service cs c Hready; run_async; try done.
  all: by destruct (_ !! _).
Qed.

Lemma flush_eq cs c :
  ready cs c →
  CacheOps.flush cs =
    if Redis.rejects c then (Ok false, sent_to cs c Redis.FLUSHDB)
    else (Ok true, stored cs c Redis.FLUSHDB ∅).
Proof.
  intros Hready. unfold CacheOps.flush.
  rewrite (ready_available cs c Hready).
  by open_service cs c Hready; run_async.
Qed.

Lemma rejected_at_0 cs c :
  client cs = Some c → rejected_at 0 cs = Redis.rejects c.
Proof.
  intros Hc. unfold rejected_at, Redis.rejects. rewrite Hc.
  destruct (Redis.faults c) as [|[] ?]; by simpl.
Qed.

Lemma rejected_at_1_tick cs c cmd :
  client cs = Some c → rejected_at 1 cs = Redis.rejects (Redis.tick cmd c).
Proof.
  intros Hc. unfold rejected_at, Redis.rejects, Redis.tick. rewrite Hc.
  simpl. by destruct (Redis.faults c) as [|? [|[] ?]].
Qed.

(** No call on the service throws, whatever the state of the service and
    of the backend. *)
Lemma cache_calls_never_throw key v ttlSeconds pattern cs :
  (∃ r, (CacheOps.get wire key cs).1 = Ok r)
  ∧ (∃ r, (CacheOps.set env wire key v ttlSeconds cs).1 = Ok r)
  ∧ (∃ r, (CacheOps.delete wire key cs).1 = Ok r)
  ∧ (∃ r, (CacheOps.deletePattern wire pattern cs).1 = Ok r)
  ∧ (∃ r, (CacheOps.exists_ wire key cs).1 = Ok r)
  ∧ (∃ r, (CacheOps.flush cs).1 = Ok r).
Proof.
  destruct (unavailable cs) eqn:Hun.
  { unfold CacheOps.get, CacheOps.set, CacheOps.delete,
      CacheOps.deletePattern, CacheOps.exists_, CacheOps.flush.
    rewrite Hun. split_and!; by eexists. }
  destruct (unavailable_ready cs Hun) as [c Hready].
  rewrite (get_eq key cs c), (set_eq key v ttlSeconds cs c),
    (delete_eq key cs c), (deletePattern_eq pattern cs c),
    (exists_eq key cs c), (flush_eq cs c) by done.
  cbv zeta. split_and!; repeat case_match; by eexists.
Qed.

(** C2.  Degradation: when the service is not connected, or the backend
    rejects the command a call sends, the call returns its safe default
    and does not throw: [get] gives [null], [set], [delete], [exists] and
    [flush] give [false], [deletePattern] gives [0]; [deletePattern] gives
    [0] as well when it is its second command, the [DEL], that is
    rejected.  This holds for both revisions of the service, for every
    key, value, TTL and pattern. *)
Theorem cache_degrades key v ttlSeconds pattern cs :
  unavailable cs = true ∨ rejected_at 0 cs = true →
  (CacheOps.get wire key cs).1 = Ok null
  ∧ (CacheOps.set env wire key v ttlSeconds cs).1 = Ok false
  ∧ (CacheOps.delete wire key cs).1 = Ok false
  ∧ (CacheOps.deletePattern wire pattern cs).1 = Ok 0%Z
  ∧ (CacheOps.exists_ wire key cs).1 = Ok false
  ∧ (CacheOps.flush cs).1 = Ok false
  ∧ (∀ cs', rejected_at 1 cs' = true →
            (CacheOps.deletePattern wire pattern cs').1 = Ok 0%Z).
Proof.
  intros Hdown. split_and!.
  7: { intros cs' Hrej. destruct (unavailable cs') eqn:Hun.
       { unfold CacheOps.deletePattern. by rewrite Hun. }
       destruct (unavailable_ready cs' Hun) as [c' Hready].
       rewrite (deletePattern_eq pattern cs' c' Hready). cbv zeta.
       rewrite (rejected_at_1_tick cs' c' (Redis.KEYS (wire cs' pattern)))
         in Hrej by apply Hready.
       rewrite Hrej. by repeat case_match. }
  all: destruct (unavailable cs) eqn:Hun;
    [ unfold CacheOps.get, CacheOps.set, CacheOps.delete,
        CacheOps.deletePattern, CacheOps.exists_, CacheOps.flush;
      by rewrite Hun | ].
  all: destruct Hdown as [|Hrej]; [done|].
  all: destruct (unavailable_ready cs Hun) as [c Hready].
  all: rewrite (rejected_at_0 cs c) in Hrej by apply Hready.
  - rewrite (get_eq key cs c Hready). cbv zeta. by rewrite Hrej.
  - rewrite (set_eq key v ttlSeconds cs c Hready). cbv zeta.
    rewrite Hrej. by destruct (stringify v).
  - rewrite (delete_eq key cs c Hready). cbv zeta. by rewrite Hrej.
  - rewrite (deletePattern_eq pattern cs c Hready). cbv zeta. by rewrite Hrej.
  - rewrite (exists_eq key cs c Hready). cbv zeta. by rewrite Hrej.
  - rewrite (flush_eq cs c Hready). by rewrite Hrej.
Qed.

(** When the service is not connected a call leaves it as it was and
    sends nothing. *)
Lemma unavailable_untouched call cs :
  unavailable cs = true → after env wire call cs = cs.
Proof.
  intros Hun. destruct call; simpl;
    unfold CacheOps.get, CacheOps.set, CacheOps.delete,
      CacheOps.deletePattern, CacheOps.exists_, CacheOps.flush;
    by rewrite Hun.
Qed.

(** A text the parser refuses, and a value with no JSON text, are
    failures of the same kind. *)
Lemma get_unreadable key cs c text ttl :
  ready cs c →
  Redis.db c !! wire cs key
  = Some {| Redis.payload := text; Redis.expiry := ttl |} →
  parse text = None →
  (CacheOps.get wire key cs).1 = Ok null.
Proof.
  intros Hready Hk Hparse. rewrite (get_eq key cs c Hready). cbv zeta.
  rewrite Hk. simpl. rewrite Hparse. by repeat case_match.
Qed.

Lemma set_undefined key ttlSeconds cs :
  CacheOps.set env wire key (VPrim PUndefined) ttlSeconds cs = (Ok false, cs).
Proof.
  unfold CacheOps.set. destruct (unavailable cs); [done|]. by run_async.
Qed.

End CacheFacts.

Section CacheTheorems.
Context (env : Env) (wire : CacheService → string → string).

Lemma backend_ready cs c : ready cs c → backend cs = Redis.db c.
Proof. intros [Hc _]. unfold backend. by rewrite Hc. Qed.

Lemma backend_sent_to cs c cmd : backend (sent_to cs c cmd) = Redis.db c.
Proof. reflexivity. Qed.

Lemma backend_stored cs c cmd d : backend (stored cs c cmd d) = d.
Proof. reflexivity. Qed.

Lemma backend_with_client cs c : backend (with_client cs c) = Redis.db c.
Proof. reflexivity. Qed.

(** Reading the database of a state given by one of the equations. *)
Ltac read_backend H :=
  cbv beta iota zeta delta [snd fst] in H;
  rewrite ?backend_stored, ?backend_sent_to, ?backend_with_client in H.

Lemma del_keys_lookup ks (d : gmap string Redis.entry) k :
  (Redis.del_keys ks d).2 !! k = if decide (k ∈ ks) then None else d !! k.
Proof.
  revert d. induction ks as [|k' ks IH]; intros d; simpl.
  { done. }
  destruct (Redis.del_keys ks (base.delete k' d)) as [n d'] eqn:Hdel.
  simpl. specialize (IH (base.delete k' d)). rewrite Hdel in IH. simpl in IH.
  rewrite IH. destruct (decide (k = k')) as [->|Hne].
  - rewrite (decide_True (P := k' ∈ k' :: ks)) by (apply elem_of_cons; auto).
    destruct (decide (k' ∈ ks)); [done|]. by rewrite lookup_delete_eq.
  - rewrite lookup_delete_ne by done.
    destruct (decide (k ∈ ks)).
    + by rewrite decide_True by (apply elem_of_cons; auto).
    + by rewrite decide_False by (by apply not_elem_of_cons).
Qed.

Lemma del_keys_shrinks ks (d : gmap string Redis.entry) k e :
  (Redis.del_keys ks d).2 !! k = Some e → d !! k = Some e.
Proof. rewrite del_keys_lookup. by case_decide. Qed.

(** Reading the cache changes nothing in the database. *)
Lemma get_backend key cs : backend (CacheOps.get wire key cs).2 = backend cs.
Proof.
  destruct (unavailable cs) eqn:Hun.
  { unfold CacheOps.get. by rewrite Hun. }
  destruct (unavailable_ready cs Hun) as [c Hready].
  rewrite (get_eq wire key cs c Hready), (backend_ready cs c Hready).
  cbv zeta. destruct (Redis.rejects c); [done|].
  destruct (Redis.payload <$> _) as [text|]; [|done].
  by destruct (String.eqb text "").
Qed.

Lemma exists_backend key cs :
  backend (CacheOps.exists_ wire key cs).2 = backend cs.
Proof.
  destruct (unavailable cs) eqn:Hun.
  { unfold CacheOps.exists_. by rewrite Hun. }
  destruct (unavailable_ready cs Hun) as [c Hready].
  rewrite (exists_eq wire key cs c Hready), (backend_ready cs c Hready).
  cbv zeta. by destruct (Redis.rejects c).
Qed.

(** No call stores an entry without an expiry: an entry that a call has
    put in the database, or changed there, has a positive number of
    seconds to live. *)
Lemma written_entries_expire call cs k e :
  backend (after env wire call cs) !! k = Some e →
  backend cs !! k ≠ Some e →
  ∃ seconds, Redis.expiry e = Some seconds ∧ (0 < seconds)%Z.
Proof.
  intros Hafter Hbefore.
  destruct (unavailable cs) eqn:Hun.
  { by rewrite unavailable_untouched in Hafter. }
  destruct (unavailable_ready cs Hun) as [c Hready].
  assert (Hsame : backend cs !! k = Some e → False) by done.
  rewrite (backend_ready cs c Hready) in Hbefore.
  destruct call as [key|key v ttlSeconds|key|pattern|key|]; simpl in Hafter.
  - rewrite get_backend in Hafter. by destruct Hsame.
  - rewrite (set_eq env wire key v ttlSeconds cs c Hready) in Hafter.
    cbv zeta in Hafter.
    destruct (stringify v) as [text|]; [|by destruct Hsame].
    destruct (Redis.rejects c || _) eqn:Hok; read_backend Hafter;
      [by destruct Hbefore|].
    apply orb_false_elim in Hok as [_ Hpos].
    apply negb_false_iff, positive_whole in Hpos as [_ Hpos].
    rewrite lookup_insert in Hafter.
    case_decide; [|by destruct Hbefore]. simplify_eq. simpl. eauto.
  - rewrite (delete_eq wire key cs c Hready) in Hafter.
    destruct (Redis.rejects c); read_backend Hafter; [by destruct Hbefore|].
    rewrite lookup_delete in Hafter. case_decide; [done|by destruct Hbefore].
  - rewrite (deletePattern_eq wire pattern cs c Hready) in Hafter.
    cbv zeta in Hafter.
    destruct (Redis.rejects c); [read_backend Hafter; by destruct Hbefore|].
    destruct (length _ =? 0)%nat;
      [read_backend Hafter; by destruct Hbefore|].
    destruct (Redis.rejects _); read_backend Hafter;
      [by destruct Hbefore|].
    apply del_keys_shrinks in Hafter. by destruct Hbefore.
  - rewrite exists_backend in Hafter. by destruct Hsame.
  - rewrite (flush_eq cs c Hready) in Hafter.
    destruct (Redis.rejects c); read_backend Hafter;
      [by destruct Hbefore|done].
Qed.

(** C10, amended.  Every entry is written with an expiry.  A [set] that
    succeeds has sent one [SETEX] with a positive whole number of
    seconds, and the entry it stored carries that expiry.  The seconds
    are the [ttlSeconds] of the caller when that is a number other than
    zero and [NaN], and the configured default when it is left out, zero
    or [NaN].  No call of the service, in either revision, leaves an
    entry it wrote without a positive expiry. *)
Theorem set_writes_with_expiry key v ttlSeconds cs :
  (CacheOps.set env wire key v ttlSeconds cs).1 = Ok true →
  let cs' := (CacheOps.set env wire key v ttlSeconds cs).2 in
  (∃ seconds text,
     stringify v = Some text
     ∧ (0 < seconds)%Z
     ∧ match ttlSeconds with
       | None | Some (Num 0) | Some NaN =>
           CACHE_TTL_SECONDS env = Num seconds
       | Some n => n = Num seconds
       end
     ∧ last (commands cs')
       = Some (Redis.SETEX (wire cs key) (Num seconds) text)
     ∧ backend cs' !! wire cs key
       = Some {| Redis.payload := text; Redis.expiry := Some seconds |})
  ∧ (∀ call cs0 k e,
       backend (after env wire call cs0) !! k = Some e →
       backend cs0 !! k ≠ Some e →
       ∃ seconds, Redis.expiry e = Some seconds ∧ (0 < seconds)%Z).
Proof.
  intros Hset cs'. split; [|apply written_entries_expire].
  subst cs'. revert Hset.
  destruct (unavailable cs) eqn:Hun.
  { unfold CacheOps.set. by rewrite Hun. }
  destruct (unavailable_ready cs Hun) as [c Hready].
  rewrite (set_eq env wire key v ttlSeconds cs c Hready). cbv zeta.
  destruct (stringify v) as [text|]; [|done].
  destruct (Redis.rejects c || _) eqn:Hok; [done|]. intros _.
  apply orb_false_elim in Hok as [_ Hpos].
  apply negb_false_iff, positive_whole in Hpos as [Hnum Hpos].
  eexists _, text. split_and!; [done|exact Hpos| | |].
  - destruct ttlSeconds as [[[| |]| | |]|]; simpl in *; done.
  - unfold commands, stored. simpl. rewrite last_snoc. by rewrite <-Hnum.
  - unfold backend, stored. simpl. by rewrite lookup_insert_eq.
Qed.

End CacheTheorems.

Section CurrentService.
Context (env : Env).

Lemma stored_ready cs c cmd d :
  ready cs c → ready (stored cs c cmd d) (Redis.with_db (Redis.tick cmd c) d).
Proof. intros [Hc Hconn]. by split. Qed.

(** What [get] reads right after a [set] that succeeded: the JSON text of
    the value, parsed. *)
Lemma set_then_get key v ttlSeconds cs :
  (CacheService.set env key v ttlSeconds cs).1 = Ok true →
  rejected_at 0 (CacheService.set env key v ttlSeconds cs).2 = false →
  ∃ text,
    stringify v = Some text
    ∧ (CacheService.get key (CacheService.set env key v ttlSeconds cs).2).1
      = Ok (if String.eqb text "" then null else default null (parse text)).
Proof.
  unfold CacheService.set, CacheService.get.
  destruct (unavailable cs) eqn:Hun.
  { unfold CacheOps.set. by rewrite Hun. }
  destruct (unavailable_ready cs Hun) as [c Hready].
  rewrite (set_eq env _ key v ttlSeconds cs c Hready). cbv zeta.
  destruct (stringify v) as [text|]; [|done].
  destruct (Redis.rejects c || _) eqn:Hok; [done|].
  cbv beta iota delta [fst snd]. intros _ Hrej. exists text. split; [done|].
  erewrite get_eq by by apply stored_ready.
  erewrite rejected_at_0 in Hrej by reflexivity.
  cbv zeta. rewrite Hrej.
  replace (CacheService.getPrefixedKey (stored _ _ _ _) key)
    with (CacheService.getPrefixedKey cs key) by done.
  simpl. rewrite lookup_insert_eq. simpl.
  by destruct (String.eqb text "").
Qed.

(** C5, amended.  With the service connected, after a [set] that returned
    [true], a [get] of the same key that the backend answers returns the
    value, for every key and TTL and for every value that comes back from
    its JSON text as it went in. *)
Theorem set_then_get_round_trip key v ttlSeconds cs :
  (CacheService.set env key v ttlSeconds cs).1 = Ok true →
  rejected_at 0 (CacheService.set env key v ttlSeconds cs).2 = false →
  round_trips v →
  (CacheService.get key (CacheService.set env key v ttlSeconds cs).2).1
  = Ok v.
Proof.
  intros Hset Hget Hround.
  destruct (set_then_get key v ttlSeconds cs Hset Hget) as (text & Htext & ->).
  unfold round_trips in Hround. rewrite Htext in Hround. simpl in Hround.
  destruct text; [done|]. simpl. by rewrite Hround.
Qed.


End CurrentService.

(** C2 on a service that never connected, and on a connected service
    whose backend rejects the next command. *)
Lemma cache_degrades_witness :
  ((CacheService.get "user:1" (CacheService.new Example.env)).1 = Ok null
   ∧ (CacheService.set Example.env "user:1" Example.testValue (Some (Num 60))
        (CacheService.new Example.env)).1 = Ok false
   ∧ (CacheService.delete "user:1" (CacheService.new Example.env)).1
     = Ok false
   ∧ (CacheService.deletePattern "users:list:*"
        (CacheService.new Example.env)).1 = Ok 0%Z)
  ∧ ((CacheService.get "user:1" (Example.connected Example.warm [true])).1
     = Ok null
     ∧ (CacheServiceV1.exists_ "app:user:1"
          (Example.connected Example.warm [true])).1 = Ok false
     ∧ (CacheService.flush (Example.connected Example.warm [true])).1
       = Ok false).
Proof.
  destruct (cache_degrades Example.env CacheService.getPrefixedKey "user:1"
              Example.testValue (Some (Num 60)) "users:list:*"
              (CacheService.new Example.env) (or_introl eq_refl))
    as (Hget & Hset & Hdel & Hpat & _).
  destruct (cache_degrades Example.env CacheService.getPrefixedKey "user:1"
              Example.testValue (Some (Num 60)) "users:list:*"
              (Example.connected Example.warm [true]) (or_intror eq_refl))
    as (Hget' & _ & _ & _ & _ & Hflush & _).
  destruct (cache_degrades Example.env CacheServiceV1.plainKey "app:user:1"
              Example.testValue (Some (Num 60)) "users:list:*"
              (Example.connected Example.warm [true]) (or_intror eq_refl))
    as (_ & _ & _ & _ & Hexists & _).
  exact (conj (conj Hget (conj Hset (conj Hdel Hpat)))
              (conj Hget' (conj Hexists Hflush))).
Defined.

(** C10 does not hold as stated: a [ttlSeconds] of zero is given, not
    left out, and the entry is written with the configured default of an
    hour, which is not what the caller gave; and so is a [ttlSeconds] of
    [NaN]. *)
Lemma zero_ttl_is_the_default :
  (CacheService.set Example.env "user:1" Example.testValue (Some (Num 0))
     (Example.connected ∅ [])).1 = Ok true
  ∧ Redis.expiry
      <$> backend
            (CacheService.set Example.env "user:1" Example.testValue
               (Some (Num 0)) (Example.connected ∅ [])).2 !! "app:user:1"
    = Some (Some 3600%Z)
  ∧ Redis.expiry
      <$> backend
            (CacheService.set Example.env "user:1" Example.testValue
               (Some NaN) (Example.connected ∅ [])).2 !! "app:user:1"
    = Some (Some 3600%Z).
Proof. split_and!; vm_compute; reflexivity. Qed.

(** C10 on the write of the self-test. *)
Lemma set_writes_with_expiry_witness :
  ∃ seconds text,
    stringify Example.testValue = Some text
    ∧ (0 < seconds)%Z
    ∧ Num 60 = Num seconds
    ∧ backend
        (CacheService.set Example.env "test:cache:connection"
           Example.testValue (Some (Num 60)) (Example.connected ∅ [])).2
      !! "app:test:cache:connection"
      = Some {| Redis.payload := text; Redis.expiry := Some seconds |}.
Proof.
  destruct (set_writes_with_expiry Example.env CacheService.getPrefixedKey
              "test:cache:connection" Example.testValue (Some (Num 60))
              (Example.connected ∅ []) ltac:(vm_compute; reflexivity))
    as [(seconds & text & Htext & Hpos & Hsrc & _ & Hdb) _].
  exists seconds, text. exact (conj Htext (conj Hpos (conj Hsrc Hdb))).
Defined.

(** C5 on the self-test of the cache: set, then get, and the value is
    back. *)
Lemma set_then_get_round_trip_witness :
  (CacheService.get "test:cache:connection"
     (CacheService.set Example.env "test:cache:connection"
        Example.testValue (Some (Num 60)) (Example.connected ∅ [])).2).1
  = Ok Example.testValue.
Proof.
  apply set_then_get_round_trip; vm_compute; reflexivity.
Defined.

(** C5 does not hold as stated: a row of the users table, which carries
    a date, is written and read back, and what comes back is not the row:
    its date is a string. *)
Lemma date_comes_back_as_text :
  (CacheService.set Example.env "user:1"
     (UserRepository.row_value Example.john) (Some (Num 900))
     (Example.connected ∅ [])).1 = Ok true
  ∧ (CacheService.get "user:1"
       (CacheService.set Example.env "user:1"
          (UserRepository.row_value Example.john) (Some (Num 900))
          (Example.connected ∅ [])).2).1 = Ok Example.john_from_cache
  ∧ Example.john_from_cache ≠ UserRepository.row_value Example.john.
Proof. split_and!; [vm_compute; reflexivity ..|discriminate]. Qed.


(** ** The repository *)

Section InvalidationFacts.
Context (env : Env).

Abbreviation wire := CacheService.getPrefixedKey.

Lemma elem_of_matching pattern (d : gmap string Redis.entry) k :
  k ∈ matching pattern d ↔ Redis.glob_match pattern k = true ∧ is_Some (d !! k).
Proof.
  unfold matching. rewrite list_elem_of_filter, list_elem_of_fmap.
  split.
  - intros [Hm ([k' e] & -> & Hin)]. apply elem_of_map_to_list in Hin.
    simpl in *. eauto.
  - intros [Hm [e He]]. split; [done|]. exists (k, e).
    by rewrite elem_of_map_to_list.
Qed.

Lemma glob_star s : Redis.glob_match "*" s = true.
Proof. induction s as [|c s IH]; [done|]. simpl in *. by rewrite IH. Qed.

Lemma glob_plain_app a b :
  Redis.glob_plain (a +:+ b) = Redis.glob_plain a && Redis.glob_plain b.
Proof.
  induction a as [|c a IH]; [done|].
  rewrite app_String. simpl. rewrite IH. by rewrite andb_assoc.
Qed.

(** A pattern that is a plain text and then a star matches the keys that
    begin with the text. *)
Lemma glob_prefix p s :
  Redis.glob_plain p = true →
  Redis.glob_match (p +:+ "*") s = String.prefix p s.
Proof.
  revert s. induction p as [|c p IH]; intros s Hp.
  { rewrite glob_star. by destruct s. }
  rewrite app_String. simpl in Hp. apply andb_prop in Hp as [Hc Hp].
  apply negb_true_iff in Hc.
  apply orb_false_elim in Hc as [Hc _].
  apply orb_false_elim in Hc as [Hc _].
  apply orb_false_elim in Hc as [Hstar Hq].
  simpl. rewrite Hstar. destruct s as [|d s]; [done|].
  rewrite Hq, IH by done. simpl.
  destruct (ascii_dec c d) as [->|Hne].
  - by rewrite Ascii.eqb_refl.
  - apply Ascii.eqb_neq in Hne. by rewrite Hne.
Qed.

Lemma healthy_accepts cs c :
  ready cs c → Redis.faults c = [] → Redis.rejects c = false.
Proof. intros _ Hf. unfold Redis.rejects. by rewrite Hf. Qed.

(** An invalidating call on a healthy service leaves it healthy, under
    the same prefix, and takes away the keys it names and no other. *)
Lemma invalidating_call call cs :
  healthy cs → invalidating call = true →
  healthy (after env wire call cs)
  ∧ keyPrefix (after env wire call cs) = keyPrefix cs
  ∧ ∀ k, backend (after env wire call cs) !! k
         = if removes (keyPrefix cs) call k then None else backend cs !! k.
Proof.
  intros (c & Hready & Hfaults) Hcall.
  pose proof (healthy_accepts cs c Hready Hfaults) as Hacc.
  rewrite (backend_ready cs c Hready).
  destruct call as [|?|key|pattern|?|]; try done; simpl.
  - rewrite (delete_eq wire key cs c Hready). cbv zeta. rewrite Hacc.
    cbn [snd]. split_and!.
    + eexists. split; [by apply stored_ready|]. simpl. by rewrite Hfaults.
    + done.
    + intros k. rewrite backend_stored, lookup_delete.
      unfold wire. destruct (decide (_ = k)) as [<-|Hne].
      * by rewrite bool_decide_eq_true_2.
      * by rewrite bool_decide_eq_false_2.
  - rewrite (deletePattern_eq wire pattern cs c Hready). cbv zeta.
    rewrite Hacc. fold (wire cs pattern).
    destruct (length _ =? 0)%nat eqn:Hlen; cbn [snd].
    + split_and!.
      * eexists. split; [split; [reflexivity|apply Hready]|].
        simpl. by rewrite Hfaults.
      * done.
      * intros k. rewrite backend_with_client. simpl.
        destruct (Redis.glob_match _ k) eqn:Hm; [|done].
        destruct (Redis.db c !! k) eqn:Hk; [|done].
        apply Nat.eqb_eq, nil_length_inv in Hlen.
        assert (Hin : k ∈ matching (wire cs pattern) (Redis.db c))
          by (apply elem_of_matching; eauto).
        rewrite Hlen in Hin. by apply elem_of_nil in Hin.
    + assert (Hacc' : Redis.rejects
                        (Redis.tick (Redis.KEYS (wire cs pattern)) c) = false).
      { unfold Redis.rejects, Redis.tick. simpl. by rewrite Hfaults. }
      rewrite Hacc'. cbn [snd]. split_and!.
      * eexists. split; [split; [reflexivity|apply Hready]|].
        simpl. by rewrite Hfaults.
      * done.
      * intros k. rewrite backend_stored, del_keys_lookup.
        fold (wire cs pattern).
        destruct (Redis.glob_match _ k) eqn:Hm.
        -- case_decide as Hin; [done|].
           destruct (Redis.db c !! k) eqn:Hk; [|done].
           destruct Hin. apply elem_of_matching. eauto.
        -- case_decide as Hin; [|done].
           apply elem_of_matching in Hin as [Hm' _]. congruence.
Qed.

(** The same for a sequence of invalidating calls: a key is gone when one
    of the calls removes it, and is as it was otherwise. *)
Lemma invalidating_calls calls cs :
  healthy cs → forallb invalidating calls = true →
  healthy (replay env wire calls cs)
  ∧ keyPrefix (replay env wire calls cs) = keyPrefix cs
  ∧ ∀ k, backend (replay env wire calls cs) !! k
         = if existsb (fun call => removes (keyPrefix cs) call k) calls
           then None else backend cs !! k.
Proof.
  revert cs. induction calls as [|call calls IH]; intros cs Hcs Hcalls.
  { done. }
  simpl in Hcalls. apply andb_prop in Hcalls as [Hcall Hcalls].
  destruct (invalidating_call call cs Hcs Hcall) as (Hcs' & Hprefix & Hone).
  destruct (IH _ Hcs' Hcalls) as (Hcs'' & Hprefix' & Hrest).
  unfold replay in *. simpl. split_and!; [done|congruence|].
  intros k. rewrite Hrest, Hone, Hprefix.
  by destruct (removes _ call k), (existsb _ calls).
Qed.

End InvalidationFacts.

Section RepositoryFacts.
Import UserRepository.
Context {DB : Type} `{UserModel DB} (env : Env).

Abbreviation wire := CacheService.getPrefixedKey.

Lemma replay_app calls1 calls2 cs :
  replay env wire (calls1 ++ calls2) cs
  = replay env wire calls2 (replay env wire calls1 cs).
Proof. unfold replay. by rewrite foldl_app. Qed.

Lemma on_cache_delete key (w : @World DB) :
  ∃ r, on_cache (CacheService.delete key) w
       = (Ok r, {| store := store w;
                   cacheService :=
                     after env wire (CallDelete key) (cacheService w) |}).
Proof.
  destruct (cache_calls_never_throw env wire key null None "" (cacheService w))
    as (_ & _ & [r Hr] & _).
  exists r. unfold on_cache, CacheService.delete. simpl.
  destruct (CacheOps.delete wire key (cacheService w)) as [r' cs'].
  simpl in *. by rewrite Hr.
Qed.

Lemma on_cache_deletePattern pattern (w : @World DB) :
  ∃ r, on_cache (CacheService.deletePattern pattern) w
       = (Ok r, {| store := store w;
                   cacheService :=
                     after env wire (CallDeletePattern pattern)
                       (cacheService w) |}).
Proof.
  destruct (cache_calls_never_throw env wire "" null None pattern
              (cacheService w)) as (_ & _ & _ & [r Hr] & _).
  exists r. unfold on_cache, CacheService.deletePattern. simpl.
  destruct (CacheOps.deletePattern wire pattern (cacheService w)) as [r' cs'].
  simpl in *. by rewrite Hr.
Qed.

(** [invalidateUserCache] never throws, and the cache it leaves is the
    cache after its deletes, in order. *)
Lemma invalidateUserCache_trace userId oldEmail newEmail (w : @World DB) :
  invalidateUserCache userId oldEmail newEmail w
  = (Ok tt, {| store := store w;
               cacheService :=
                 replay env wire
                   (user_invalidation userId oldEmail newEmail)
                   (cacheService w) |}).
Proof.
  unfold invalidateUserCache, user_invalidation, replay, bind.
  destruct (on_cache_delete (LegacyKeys.generateUserKey userId) w)
    as [r1 ->].
  set (w1 := {| store := store w; cacheService := _ |}).
  destruct (truthy_str oldEmail).
  - destruct (on_cache_delete
                (LegacyKeys.generateUserByEmailKey (default "" oldEmail)) w1)
      as [r2 ->]. unfold ret at 1.
    set (w2 := {| store := store w1; cacheService := _ |}).
    destruct (truthy_str newEmail && _).
    + destruct (on_cache_delete
                  (LegacyKeys.generateUserByEmailKey (default "" newEmail)) w2)
        as [r3 ->]. done.
    + done.
  - unfold ret at 1.
    destruct (truthy_str newEmail && _).
    + destruct (on_cache_delete
                  (LegacyKeys.generateUserByEmailKey (default "" newEmail)) w1)
        as [r3 ->]. done.
    + done.
Qed.

Lemma invalidateUsersListCache_trace (w : @World DB) :
  invalidateUsersListCache w
  = (Ok tt, {| store := store w;
               cacheService :=
                 replay env wire list_invalidation (cacheService w) |}).
Proof.
  unfold invalidateUsersListCache, list_invalidation, replay, bind.
  by destruct (on_cache_deletePattern "users:list:*" w) as [r ->].
Qed.

Lemma invalidation_of_invalidating m current result :
  forallb invalidating (invalidation_of m current result) = true.
Proof.
  destruct m, current; simpl; unfold user_invalidation;
    repeat case_match; done.
Qed.

(** The whole of a write: when the store throws, so does the write, and
    the cache is as it was; when the store answers, the write returns
    its answer, and the cache is the cache after the invalidating
    calls. *)
Lemma write_outcome m (w : @World DB) :
  match store_side m (store w) with
  | (Throw e, d) =>
      run m w = (Throw e, {| store := d; cacheService := cacheService w |})
  | (Ok result, d) =>
      run m w
      = (Ok result,
         {| store := d;
            cacheService :=
              replay env wire
                (invalidation_of m (row_before m (store w)) result)
                (cacheService w) |})
  end.
Proof.
  destruct m as [data|userId data|userId];
    cbn [run store_side row_before invalidation_of].
  - unfold create, bind, on_store.
    destruct (model_create data (store w)) as [[result|e] d]; [|done].
    by rewrite invalidateUsersListCache_trace.
  - unfold update, bind, on_store.
    destruct (findUnique userId (store w)) as [[current|e] d1]; [|done].
    cbn [store cacheService].
    destruct (model_update userId data d1) as [[result|e] d2]; [|done].
    rewrite invalidateUserCache_trace, invalidateUsersListCache_trace.
    unfold ret. cbn [store cacheService]. by rewrite replay_app.
  - unfold delete, bind, on_store.
    destruct (findUnique userId (store w)) as [[current|e] d1]; [|done].
    cbn [store cacheService].
    destruct (model_delete userId d1) as [[result|e] d2]; [|done].
    destruct current as [u|].
    + rewrite invalidateUserCache_trace, invalidateUsersListCache_trace.
      unfold ret. cbn [store cacheService]. by rewrite replay_app.
    + unfold ret at 1. by rewrite invalidateUsersListCache_trace.
Qed.

(** Which backend keys the invalidation of an update removes. *)
Lemma update_removes prefix userId oldEmail newEmail k :
  Redis.glob_plain prefix = true →
  existsb (fun call => removes prefix call k)
    (user_invalidation userId oldEmail newEmail ++ list_invalidation)
  = bool_decide (k = prefix +:+ ":" +:+ LegacyKeys.generateUserKey userId)
    || truthy_str oldEmail
       && bool_decide (k = prefix +:+ ":"
                           +:+ LegacyKeys.generateUserByEmailKey
                                 (default "" oldEmail))
    || truthy_str newEmail
       && bool_decide (k = prefix +:+ ":"
                           +:+ LegacyKeys.generateUserByEmailKey
                                 (default "" newEmail))
    || String.prefix (prefix +:+ ":users:list:") k.
Proof.
  intros Hplain.
  assert (Hglob : Redis.glob_match (prefix +:+ ":" +:+ "users:list:*") k
                  = String.prefix (prefix +:+ ":users:list:") k).
  { rewrite <-glob_prefix by (by rewrite glob_plain_app, Hplain).
    by rewrite app_assoc_s. }
  unfold user_invalidation, list_invalidation.
  rewrite !existsb_app. simpl. rewrite Hglob, !orb_false_r.
  destruct (bool_decide (newEmail = oldEmail)) eqn:Heq.
  - apply bool_decide_eq_true in Heq as ->.
    destruct (truthy_str oldEmail); simpl; rewrite ?orb_false_r; [|done].
    by destruct (bool_decide (k = _ +:+ _ +:+ LegacyKeys.generateUserKey _)),
      (bool_decide (k = _ +:+ _ +:+ LegacyKeys.generateUserByEmailKey _)).
  - destruct (truthy_str oldEmail), (truthy_str newEmail); simpl;
      rewrite ?orb_false_r; try done.
    by rewrite orb_assoc.
Qed.

(** C3, amended.  With the cache connected and its backend answering,
    under a prefix with no glob character in it: once [update] has
    completed, the by-id key of the user is gone, the by-e-mail key of
    the previous e-mail is gone when that e-mail is not empty, the
    by-e-mail key of the new e-mail is gone when that e-mail is not
    empty, every key that begins with [users:list:] is gone, and every
    other key of the backend is as it was. *)
Theorem update_invalidates userId data (w : @World DB) current d1 result d2 :
  healthy (cacheService w) →
  Redis.glob_plain (keyPrefix (cacheService w)) = true →
  findUnique userId (store w) = (Ok current, d1) →
  model_update userId data d1 = (Ok result, d2) →
  let now := backend (cacheService (update userId data w).2) in
  let key := wire (cacheService w) in
  (update userId data w).1 = Ok result
  ∧ now !! key (LegacyKeys.generateUserKey userId) = None
  ∧ (∀ old, email <$> current = Some old → old ≠ "" →
            now !! key (LegacyKeys.generateUserByEmailKey old) = None)
  ∧ (email result ≠ "" →
     now !! key (LegacyKeys.generateUserByEmailKey (email result)) = None)
  ∧ (∀ k, String.prefix (key "users:list:") k = true → now !! k = None)
  ∧ (∀ k,
       k ≠ key (LegacyKeys.generateUserKey userId) →
       (∀ old, email <$> current = Some old → old ≠ "" →
               k ≠ key (LegacyKeys.generateUserByEmailKey old)) →
       (email result ≠ "" →
        k ≠ key (LegacyKeys.generateUserByEmailKey (email result))) →
       String.prefix (key "users:list:") k = false →
       now !! k = backend (cacheService w) !! k).
Proof.
  intros Hhealthy Hplain Hfind Hupdate now key.
  pose proof (write_outcome (Update userId data) w) as Hrun.
  cbn [run store_side row_before invalidation_of] in Hrun.
  unfold bind in Hrun at 1. rewrite Hfind, Hupdate in Hrun.
  destruct (invalidating_calls env
              (invalidation_of (Update userId data) current result)
              (cacheService w) Hhealthy
              (invalidation_of_invalidating _ _ _)) as (_ & _ & Hlook).
  cbn [invalidation_of] in Hlook.
  assert (Hnow : ∀ k, now !! k
    = if bool_decide (k = key (LegacyKeys.generateUserKey userId))
         || truthy_str (email <$> current)
            && bool_decide
                 (k = key (LegacyKeys.generateUserByEmailKey
                             (default "" (email <$> current))))
         || negb (String.eqb (email result) "")
            && bool_decide
                 (k = key (LegacyKeys.generateUserByEmailKey (email result)))
         || String.prefix (key "users:list:") k
      then None else backend (cacheService w) !! k).
  { intros k. subst now. rewrite Hrun. cbn [snd cacheService].
    rewrite Hlook, (update_removes _ _ _ _ _ Hplain). done. }
  assert (Hne : ∀ s, s ≠ "" → negb (String.eqb s "") = true).
  { intros s Hs. apply negb_true_iff. by apply String.eqb_neq. }
  split_and!.
  - by rewrite Hrun.
  - rewrite Hnow. by rewrite bool_decide_eq_true_2.
  - intros old Hold Hnonempty. rewrite Hnow, Hold. simpl.
    rewrite (Hne old Hnonempty), (bool_decide_eq_true_2 _ eq_refl).
    simpl. by rewrite orb_true_r.
  - intros Hnonempty. rewrite Hnow.
    rewrite (Hne _ Hnonempty), (bool_decide_eq_true_2 (_ = key (LegacyKeys.generateUserByEmailKey _)) eq_refl).
    simpl. by rewrite orb_true_r.
  - intros k Hk. rewrite Hnow, Hk. by rewrite orb_true_r.
  - intros k Hid Hold Hnew Hlist. rewrite Hnow, Hlist.
    rewrite (bool_decide_eq_false_2 _ Hid). simpl.
    destruct (email <$> current) as [old|] eqn:Hcur; simpl.
    + destruct (String.eqb old "") eqn:Hempty; simpl.
      * destruct (String.eqb (email result) "") eqn:Hempty'; simpl; [done|].
        apply String.eqb_neq in Hempty'.
        by rewrite (bool_decide_eq_false_2 _ (Hnew Hempty')).
      * apply String.eqb_neq in Hempty.
        rewrite (bool_decide_eq_false_2 _ (Hold old eq_refl Hempty)). simpl.
        destruct (String.eqb (email result) "") eqn:Hempty'; simpl; [done|].
        apply String.eqb_neq in Hempty'.
        by rewrite (bool_decide_eq_false_2 _ (Hnew Hempty')).
    + destruct (String.eqb (email result) "") eqn:Hempty'; simpl; [done|].
      apply String.eqb_neq in Hempty'.
      by rewrite (bool_decide_eq_false_2 _ (Hnew Hempty')).
Qed.

(** C4.  In every create, update and delete, the cache is touched only
    once the store of record has answered: when the call on the store
    throws, the write throws the same error and the cache service is as
    it was, no command sent and no entry changed; and a write that has
    changed the cache service is a write whose call on the store
    succeeded. *)
Theorem store_failure_leaves_cache m (w : @World DB) e d :
  store_side m (store w) = (Throw e, d) →
  run m w = (Throw e, {| store := d; cacheService := cacheService w |})
  ∧ (∀ w' : @World DB,
       cacheService (run m w').2 ≠ cacheService w' →
       ∃ result d',
         store_side m (store w') = (Ok result, d')
         ∧ (run m w').1 = Ok result).
Proof.
  intros Hthrow. split.
  - pose proof (write_outcome m w) as Hrun. by rewrite Hthrow in Hrun.
  - intros w' Hchanged. pose proof (write_outcome m w') as Hrun.
    destruct (store_side m (store w')) as [[result|e'] d'].
    + exists result, d'. by rewrite Hrun.
    + destruct Hchanged. by rewrite Hrun.
Qed.

End RepositoryFacts.

Section RepositoryRuns.
Import UserRepository.

(** C3 on the scenario of the specification: John is cached under his id
    and his e-mail, his e-mail is changed to Jane's, and the keys are
    gone while the key of a product stays. *)
Lemma update_invalidates_witness :
  backend (cacheService
             (update "1" (Example.new_email "jane@test.com")
                (Example.world (Example.users Example.john)
                   (Example.connected Example.warm []))).2)
  !! "app:user:1" = None
  ∧ backend (cacheService
               (update "1" (Example.new_email "jane@test.com")
                  (Example.world (Example.users Example.john)
                     (Example.connected Example.warm []))).2)
    !! "app:user:email:john@test.com" = None
  ∧ backend (cacheService
               (update "1" (Example.new_email "jane@test.com")
                  (Example.world (Example.users Example.john)
                     (Example.connected Example.warm []))).2)
    !! "app:users:list:all" = None
  ∧ backend (cacheService
               (update "1" (Example.new_email "jane@test.com")
                  (Example.world (Example.users Example.john)
                     (Example.connected Example.warm []))).2)
    !! "app:product:9" = Some (Example.entry "{}" 900).
Proof.
  edestruct (update_invalidates (DB := MemStore.t) Example.env "1"
               (Example.new_email "jane@test.com")
               (Example.world (Example.users Example.john)
                  (Example.connected Example.warm [])))
    as (_ & Hid & Hold & _ & Hlist & Hother).
  - eexists. split; [split; reflexivity|reflexivity].
  - reflexivity.
  - vm_compute. reflexivity.
  - vm_compute. reflexivity.
  - split_and!.
    + exact Hid.
    + apply (Hold "john@test.com"); [reflexivity|discriminate].
    + apply Hlist. reflexivity.
    + rewrite (Hother "app:product:9"); [reflexivity|discriminate| | |reflexivity].
      * intros old [= <-] _. discriminate.
      * intros _. discriminate.
Defined.

(** C3 does not hold as stated.  A user whose e-mail column is empty is
    updated: the update completes and the by-e-mail key of the previous
    e-mail is still there, because an empty e-mail is falsy.  With the
    service offline the update completes and the by-id key is still in
    the backend, because nothing is sent.  And when the backend rejects
    the first delete the update completes all the same and the by-id key
    stays. *)
Lemma stale_keys_after_update :
  ((∃ result,
      (update "1" (Example.new_email "jane@test.com")
         (Example.world (Example.users Example.nameless)
            (Example.connected Example.warm []))).1 = Ok result)
   ∧ backend (cacheService
                (update "1" (Example.new_email "jane@test.com")
                   (Example.world (Example.users Example.nameless)
                      (Example.connected Example.warm []))).2)
     !! CacheService.getPrefixedKey (Example.connected Example.warm [])
          (LegacyKeys.generateUserByEmailKey (email Example.nameless))
     = Some (Example.entry "{}" 900))
  ∧ ((∃ result,
        (update "1" (Example.new_email "jane@test.com")
           (Example.world (Example.users Example.john)
              (Example.offline Example.warm))).1 = Ok result)
     ∧ backend (cacheService
                  (update "1" (Example.new_email "jane@test.com")
                     (Example.world (Example.users Example.john)
                        (Example.offline Example.warm))).2)
       !! CacheService.getPrefixedKey (Example.offline Example.warm)
            (LegacyKeys.generateUserKey "1")
       = Some (Example.entry "{}" 900))
  ∧ ((∃ result,
        (update "1" (Example.new_email "jane@test.com")
           (Example.world (Example.users Example.john)
              (Example.connected Example.warm [true]))).1 = Ok result)
     ∧ backend (cacheService
                  (update "1" (Example.new_email "jane@test.com")
                     (Example.world (Example.users Example.john)
                        (Example.connected Example.warm [true]))).2)
       !! CacheService.getPrefixedKey (Example.connected Example.warm [true])
            (LegacyKeys.generateUserKey "1")
       = Some (Example.entry "{}" 900)).
Proof.
  split_and!; try eexists; vm_compute; reflexivity.
Qed.

(** C4 on an update of a row that is not there: the store throws, the
    write throws, and the cache is as it was. *)
Lemma store_failure_leaves_cache_witness :
  run (Update "404" (Example.new_email "jane@test.com"))
    (Example.world (Example.users Example.john) (Example.connected Example.warm []))
  = (Throw "P2025: record to update not found",
     Example.world (Example.users Example.john) (Example.connected Example.warm [])).
Proof.
  apply (store_failure_leaves_cache (DB := MemStore.t) Example.env).
  vm_compute. reflexivity.
Defined.

End RepositoryRuns.
(** ** More about keys *)

Section MoreStringFacts.
Import JS.

Lemma prefix_app a b : String.prefix a (a +:+ b) = true.
Proof.
  induction a as [|c a IH]; [by destruct b|].
  rewrite app_String. simpl. by destruct (ascii_dec c c).
Qed.


(** A text is cut at the end of its first segment in one way only. *)
Lemma first_segment_unique a b r1 r2 :
  colon_free a = true → colon_free b = true →
  segment_end r1 → segment_end r2 →
  a +:+ r1 = b +:+ r2 → a = b ∧ r1 = r2.
Proof.
  revert b. induction a as [|x a IH]; intros [|y b] Ha Hb H1 H2 Heq.
  - done.
  - rewrite app_String in Heq. change ("" +:+ r1) with r1 in Heq.
    subst r1. simpl in H1. subst y. by simpl in Hb.
  - rewrite app_String in Heq. change ("" +:+ r2) with r2 in Heq.
    subst r2. simpl in H2. subst x. by simpl in Ha.
  - rewrite !app_String in Heq. injection Heq as -> Heq.
    simpl in Ha, Hb.
    apply andb_prop in Ha as [_ Ha]. apply andb_prop in Hb as [_ Hb].
    by destruct (IH b Ha Hb H1 H2 Heq) as [-> ->].
Qed.

Lemma digit_colon_free c : is_digit c = true → Ascii.eqb c ":" = false.
Proof.
  destruct c as [[] [] [] [] [] [] [] []]; vm_compute; congruence.
Qed.

Lemma colon_free_pretty_N_go x s :
  colon_free s = true → colon_free (pretty_N_go x s) = true.
Proof.
  revert s. induction (N.lt_wf_0 x) as [x _ IH]; intros s Hs.
  destruct (decide (0 < x)%N) as [Hx|Hx].
  - rewrite pretty_N_go_step by done.
    apply IH; [by apply N.div_lt|].
    simpl. rewrite Hs, andb_true_r. apply negb_true_iff, digit_colon_free.
    apply pretty_N_char_digit. by apply N.mod_lt.
  - assert (x = 0%N) as -> by lia. by rewrite pretty_N_go_0.
Qed.

Lemma colon_free_pretty (n : Z) : colon_free (pretty n) = true.
Proof.
  destruct n as [|p|p]; [done| |].
  - by apply colon_free_pretty_N_go.
  - change (pretty (Z.neg p)) with ("-" +:+ pretty_N_go (N.pos p) "").
    simpl. by apply colon_free_pretty_N_go.
Qed.

Lemma colon_free_number_text n : colon_free (number_text n) = true.
Proof. destruct n; [apply colon_free_pretty|done..]. Qed.

(** The text of a whole number begins with a digit, or with a minus sign
    and a digit. *)
Lemma pretty_head (z : Z) :
  ∃ c r, pretty z = String c r
         ∧ (is_digit c = true
            ∨ c = "-"%char ∧ ∃ d r', r = String d r' ∧ is_digit d = true).
Proof.
  destruct z as [|p|p].
  - by exists "0"%char, ""; auto.
  - destruct (first_digit (N.pos p) "") as (c & r & Hc & Hd & _); [lia|].
    exists c, r. split; [exact Hc|by left].
  - destruct (first_digit (N.pos p) "") as (c & r & Hc & Hd & _); [lia|].
    exists "-"%char, (String c r). split.
    + change (pretty (Z.neg p)) with ("-" +:+ pretty_N_go (N.pos p) "").
      by rewrite Hc.
    + right. split; [done|]. by exists c, r.
Qed.

(** Two numbers with the same text are the same number. *)
Lemma number_text_inj n m : number_text n = number_text m → n = m.
Proof.
  assert (Hnum : ∀ (z : Z) t, pretty z = t →
                        t ≠ "NaN" ∧ t ≠ "Infinity" ∧ t ≠ "-Infinity").
  { intros z t Hz.
    destruct (pretty_head z) as (c & r & Hc & [Hd|[-> (d & r' & -> & Hd)]]);
      rewrite Hc in Hz; subst t; split_and!; intros [= -> ->];
      by vm_compute in Hd. }
  destruct n as [z| | |], m as [z'| | |]; simpl; intros Heq; try done.
  - f_equal. by apply (inj pretty).
  - by destruct (Hnum z _ Heq) as (? & _ & _).
  - by destruct (Hnum z _ Heq) as (_ & ? & _).
  - by destruct (Hnum z _ Heq) as (_ & _ & ?).
  - by destruct (Hnum z' _ (eq_sym Heq)) as (? & _ & _).
  - by destruct (Hnum z' _ (eq_sym Heq)) as (_ & ? & _).
  - by destruct (Hnum z' _ (eq_sym Heq)) as (_ & _ & ?).
Qed.

(** The numbers that do not count: none, zero and [NaN]. *)
Lemma falsy_num n :
  truthy_num n = false ↔ n ∈ [None; Some (Num 0); Some NaN].
Proof.
  rewrite !elem_of_cons, elem_of_nil.
  destruct n as [[z| | |]|]; simpl.
  - rewrite negb_false_iff, Z.eqb_eq. split; [intros ->; auto|].
    by intros [?|[[= ->]|[?|[]]]].
  - split; auto.
  - split; [done|]. by intros [?|[?|[?|[]]]].
  - split; [done|]. by intros [?|[?|[?|[]]]].
  - split; auto.
Qed.

(** Joining segments that hold no colon and cutting the text at its
    colons gives the segments back. *)
Lemma split_colon_join parts :
  parts ≠ [] → Forall (fun s => colon_free s = true) parts →
  split_colon (join ":" parts) = parts.
Proof.
  intros Hne Hfree. induction Hfree as [|x parts Hx Hfree IH]; [done|].
  destruct parts as [|y parts].
  - simpl. by apply split_colon_free.
  - rewrite join_cons, split_colon_cut by done. f_equal. by apply IH.
Qed.

End MoreStringFacts.

Section MoreKeyFacts.
Import CacheKeyGenerator LegacyKeys.

Lemma segment_end_join (l : list string) :
  segment_end (match l with [] => "" | _ => ":" +:+ join ":" l end).
Proof. by destruct l. Qed.

Lemma join_segments (l1 l2 : list string) :
  l1 ≠ [] →
  join ":" (l1 ++ l2)
  = join ":" l1 +:+ match l2 with [] => "" | _ => ":" +:+ join ":" l2 end.
Proof.
  intros Hne. induction l1 as [|x l1 IH]; [done|].
  destruct l1 as [|y l1].
  - destruct l2; simpl; [by rewrite app_empty_r|done].
  - change ((x :: y :: l1) ++ l2)%list with (x :: y :: (l1 ++ l2))%list.
    rewrite !join_cons.
    change (y :: (l1 ++ l2))%list with ((y :: l1) ++ l2)%list.
    rewrite IH by done. by rewrite !app_assoc_s.
Qed.

(** The text [page:P:limit:L] and what follows it determine the two
    numbers. *)
Lemma page_and_limit_unique (p l p' l' : number) r r' :
  segment_end r → segment_end r' →
  "page:" +:+ number_text p +:+ ":limit:" +:+ number_text l +:+ r
  = "page:" +:+ number_text p' +:+ ":limit:" +:+ number_text l' +:+ r' →
  p = p' ∧ l = l'.
Proof.
  intros Hr Hr' Heq%(inj (String.app "page:")).
  apply (first_segment_unique (number_text p) (number_text p')) in Heq
    as [Hp Heq]; try done; try apply colon_free_number_text.
  apply (inj (String.app ":limit:")) in Heq.
  apply (first_segment_unique (number_text l) (number_text l')) in Heq
    as [Hl _]; try done; try apply colon_free_number_text.
  split; by apply number_text_inj.
Qed.

Lemma complete_page_and_limit (p l : number) :
  truthy_num (Some p) = true → truthy_num (Some l) = true →
  has_page_and_limit (Some {| page := Some p; limit := Some l |}) = true.
Proof.
  intros Hp Hl. unfold has_page_and_limit.
  cbn [page_of limit_of mbind option_bind page limit]. by rewrite Hp, Hl.
Qed.

Lemma pagination_parts_complete (p l : number) :
  truthy_num (Some p) = true → truthy_num (Some l) = true →
  pagination_parts (Some {| page := Some p; limit := Some l |})
  = [ "page"; number_text p; "limit"; number_text l ].
Proof.
  intros Hp Hl. unfold pagination_parts.
  cbn [page_of limit_of mbind option_bind page limit]. by rewrite Hp, Hl.
Qed.

(** What [pagination?.page && pagination?.limit] comes to. *)
Lemma has_page_and_limit_false pagination :
  has_page_and_limit pagination = false
  ↔ page_of pagination ∈ [None; Some (Num 0); Some NaN]
    ∨ limit_of pagination ∈ [None; Some (Num 0); Some NaN].
Proof.
  unfold has_page_and_limit. rewrite andb_false_iff.
  by rewrite !falsy_num.
Qed.

(** A text is not itself with something before it. *)
Lemma app_not_longer a b : a ≠ "" → a +:+ b ≠ b.
Proof.
  intros Ha Heq. apply (f_equal String.length) in Heq.
  rewrite app_length_s in Heq. destruct a; [done|]. simpl in Heq. lia.
Qed.

End MoreKeyFacts.

Section MoreKeyTheorems.
Import CacheKeyGenerator LegacyKeys.

(** X1.  The keys of aggregations and of searches do not depend on the
    order in which the filters were written: two filter objects that
    hold the same properties give the same aggregation key and the same
    search key, and so the same [count] and [sum] keys. *)
Theorem aggregation_and_search_filter_order
    entityType aggregationType field searchQuery pagination
    (filters1 filters2 : object) :
  wf_object filters1 → filters1 ≡ₚ filters2 →
  entityAggregation entityType aggregationType field (Some filters1)
  = entityAggregation entityType aggregationType field (Some filters2)
  ∧ entitySearch entityType searchQuery pagination (Some filters1)
    = entitySearch entityType searchQuery pagination (Some filters2)
  ∧ CacheKey.count entityType (Some filters1)
    = CacheKey.count entityType (Some filters2).
Proof.
  intros Hwf Hperm.
  unfold CacheKey.count, entityAggregation, entitySearch.
  by rewrite (filter_parts_permutation filters1 filters2 Hwf Hperm).
Qed.

(** X1 on a sum of orders and a search of users, the filters written in
    two orders. *)
Lemma aggregation_and_search_filter_order_witness :
  entityAggregation "orders" "sum" (Some "total")
    (Some [("status", PStr "paid"); ("year", PNum 2025)])
  = entityAggregation "orders" "sum" (Some "total")
      (Some [("year", PNum 2025); ("status", PStr "paid")])
  ∧ entitySearch "users" "John Doe" None
      (Some [("status", PStr "paid"); ("year", PNum 2025)])
    = entitySearch "users" "John Doe" None
        (Some [("year", PNum 2025); ("status", PStr "paid")]).
Proof.
  destruct (aggregation_and_search_filter_order "orders" "sum" (Some "total")
              "" None
              [("status", PStr "paid"); ("year", PNum 2025)]
              [("year", PNum 2025); ("status", PStr "paid")])
    as (Hagg & _).
  { unfold wf_object. apply (bool_decide_unpack _). vm_compute. exact I. }
  { apply perm_swap. }
  destruct (aggregation_and_search_filter_order "users" "" None
              "John Doe" None
              [("status", PStr "paid"); ("year", PNum 2025)]
              [("year", PNum 2025); ("status", PStr "paid")])
    as (_ & Hsearch & _).
  { unfold wf_object. apply (bool_decide_unpack _). vm_compute. exact I. }
  { apply perm_swap. }
  exact (conj Hagg Hsearch).
Defined.

(** X2.  Two complete paginations never share a key: with a page and a
    limit that count on both sides, numbers other than zero and [NaN],
    equal list keys, whatever the filters, equal relation keys and equal
    keys of the generator kept on the service each force the same page
    and the same limit. *)
Theorem complete_paginations_do_not_collide
    entityType parentEntity parentId relation (p l p' l' : number)
    filters filters' :
  truthy_num (Some p) = true → truthy_num (Some l) = true →
  truthy_num (Some p') = true → truthy_num (Some l') = true →
  (entityList entityType
     (Some {| page := Some p; limit := Some l |}) filters
   = entityList entityType
       (Some {| page := Some p'; limit := Some l' |}) filters' →
   p = p' ∧ l = l')
  ∧ (entityRelation parentEntity parentId relation
       (Some {| page := Some p; limit := Some l |})
     = entityRelation parentEntity parentId relation
         (Some {| page := Some p'; limit := Some l' |}) →
     p = p' ∧ l = l')
  ∧ (generateUsersListKey (Some p) (Some l)
     = generateUsersListKey (Some p') (Some l') →
     p = p' ∧ l = l').
Proof.
  intros Hp Hl Hp' Hl'. split_and!.
  - rewrite !entityList_unfold, !pagination_parts_complete by done.
    rewrite !join_segments by done.
    intros Heq%(inj (String.app entityType))%(inj (String.app ":list:")).
    cbn [join String.concat] in Heq. rewrite !app_assoc_s in Heq.
    eapply page_and_limit_unique; [| |exact Heq]; apply segment_end_join.
  - unfold entityRelation.
    rewrite !complete_page_and_limit by done. unfold page_and_limit.
    cbn [page_of limit_of mbind option_bind page limit default].
    rewrite !(join_segments [_; _; _]) by done.
    intros Heq%(inj (String.app _)).
    apply (inj (String.app ":")) in Heq.
    cbn [join String.concat id] in Heq.
    apply (page_and_limit_unique p l p' l' "" ""); try done.
    rewrite !app_empty_r. exact Heq.
  - unfold generateUsersListKey.
    rewrite Hp, Hl, Hp', Hl'.
    cbn [negb andb default]. intros Heq.
    apply (page_and_limit_unique p l p' l' "" ""); try done.
    rewrite !app_empty_r.
    change "users:list:page:" with ("users:list:" +:+ "page:") in Heq.
    rewrite !app_assoc_s in Heq.
    by apply (inj (String.app "users:list:")) in Heq.
Qed.

(** X2 on the first two pages of ten users. *)
Lemma complete_paginations_do_not_collide_witness :
  entityList "users"
    (Some {| page := Some (Num 1); limit := Some (Num 10) |}) None
  ≠ entityList "users"
      (Some {| page := Some (Num 2); limit := Some (Num 10) |}) None
  ∧ generateUsersListKey (Some (Num 1)) (Some (Num 10))
    ≠ generateUsersListKey (Some (Num 2)) (Some (Num 10)).
Proof.
  destruct (complete_paginations_do_not_collide "users" "user"
              (IdNumber (Num 1)) "posts" (Num 1) (Num 10) (Num 2) (Num 10)
              None None)
    as (Hlist & _ & Hlegacy); [done ..|].
  split; intros Heq.
  - by destruct (Hlist Heq).
  - by destruct (Hlegacy Heq).
Defined.

(** X3.  A relation key and a search key know a pagination only when it
    has both a page and a limit that count.  The relation key is the key
    of the whole relation, which ends in [all], exactly when the page or
    the limit is missing, zero or [NaN]; and the search key is the key of
    the search without pagination exactly then. *)
Theorem incomplete_pagination_is_dropped
    parentEntity parentId relation entityType searchQuery filters
    pagination :
  (entityRelation parentEntity parentId relation pagination
   = parentEntity +:+ ":" +:+ id_text parentId +:+ ":" +:+ relation
       +:+ ":all"
   ↔ page_of pagination ∈ [None; Some (Num 0); Some NaN]
     ∨ limit_of pagination ∈ [None; Some (Num 0); Some NaN])
  ∧ (entitySearch entityType searchQuery pagination filters
     = entitySearch entityType searchQuery None filters
     ↔ page_of pagination ∈ [None; Some (Num 0); Some NaN]
       ∨ limit_of pagination ∈ [None; Some (Num 0); Some NaN]).
Proof.
  rewrite <-has_page_and_limit_false.
  unfold entityRelation, entitySearch.
  change (has_page_and_limit None) with false. cbv iota.
  destruct (has_page_and_limit pagination) eqn:Hboth; split; split;
    try done.
  - rewrite !(join_segments [_; _; _]) by done.
    cbn [join String.concat]. rewrite !app_assoc_s.
    unfold page_and_limit.
    intros Heq%(inj (String.app parentEntity))%(inj (String.app ":")).
    apply (inj (String.app (id_text parentId))) in Heq.
    apply (inj (String.app ":")), (inj (String.app relation)) in Heq.
    by simplify_eq/=.
  - rewrite (join_segments [_; _; _]) by done.
    rewrite (join_segments [_; _; _] ([] ++ _)) by done.
    intros Heq%(inj (String.app _)). exfalso. revert Heq.
    unfold page_and_limit. cbn [app].
    destruct (filter_parts filters) as [|f fs] eqn:Hf; [done|].
    intros Heq%(inj (String.app ":")).
    change (?a :: ?b :: ?c :: ?d :: f :: fs)
      with ([a; b; c; d] ++ f :: fs)%list in Heq.
    rewrite join_segments in Heq by done.
    rewrite <-app_assoc_s in Heq.
    by apply app_not_longer in Heq.
Qed.

(** X3 on a page without a limit and on a page that is [NaN]. *)
Lemma incomplete_pagination_is_dropped_witness :
  entityRelation "user" (IdNumber (Num 7)) "posts"
    (Some {| page := Some (Num 2); limit := None |})
  = "user:7:posts:all"
  ∧ entitySearch "users" "john"
      (Some {| page := Some NaN; limit := Some (Num 10) |}) None
    = entitySearch "users" "john" None None.
Proof.
  destruct (incomplete_pagination_is_dropped "user" (IdNumber (Num 7))
              "posts" "users" "john" None
              (Some {| page := Some (Num 2); limit := None |}))
    as ([_ Hrel] & _).
  destruct (incomplete_pagination_is_dropped "user" (IdNumber (Num 7))
              "posts" "users" "john" None
              (Some {| page := Some NaN; limit := Some (Num 10) |}))
    as (_ & [_ Hsearch]).
  split.
  - apply Hrel. right. apply list_elem_of_here.
  - apply Hsearch. left. do 2 apply list_elem_of_further.
    apply list_elem_of_here.
Defined.

End MoreKeyTheorems.

Section QueryFacts.
Import CacheKeyGenerator.

Lemma is_space_lower c : is_space (lower_char c) = is_space c.
Proof. by destruct c as [[] [] [] [] [] [] [] []]. Qed.

Lemma lower_char_idemp c : lower_char (lower_char c) = lower_char c.
Proof. by destruct c as [[] [] [] [] [] [] [] []]. Qed.

Lemma toLowerCase_idemp s : toLowerCase (toLowerCase s) = toLowerCase s.
Proof.
  induction s as [|c s IH]; simpl; [done|]. by rewrite lower_char_idemp, IH.
Qed.

Lemma toLowerCase_trimStart s :
  toLowerCase (trimStart s) = trimStart (toLowerCase s).
Proof.
  induction s as [|c s IH]; simpl; [done|]. rewrite is_space_lower.
  by destruct (is_space c).
Qed.

Lemma toLowerCase_trimEnd s :
  toLowerCase (trimEnd s) = trimEnd (toLowerCase s).
Proof.
  induction s as [|c s IH]; simpl; [done|]. rewrite <-IH, is_space_lower.
  destruct (trimEnd s); simpl; [by destruct (is_space c)|done].
Qed.

Lemma toLowerCase_replace_spaces_go b s :
  toLowerCase (replace_spaces_go b s) = replace_spaces_go b (toLowerCase s).
Proof.
  revert b. induction s as [|c s IH]; intros b; simpl; [done|].
  rewrite is_space_lower.
  destruct (is_space c), b; simpl; by rewrite IH.
Qed.

Lemma no_space_replace_spaces_go b s : no_space (replace_spaces_go b s) = true.
Proof.
  revert b. induction s as [|c s IH]; intros b; simpl; [done|].
  destruct (is_space c) eqn:Hc; [destruct b|]; simpl; rewrite ?Hc, IH; done.
Qed.

Lemma trimStart_no_space s : no_space s = true → trimStart s = s.
Proof. destruct s as [|c s]; simpl; [done|]. by destruct (is_space c). Qed.

Lemma trimEnd_no_space s : no_space s = true → trimEnd s = s.
Proof.
  induction s as [|c s IH]; simpl; [done|].
  intros [Hc Hs]%andb_prop. rewrite IH by done.
  destruct s; [|done]. apply negb_true_iff in Hc. by rewrite Hc.
Qed.

Lemma replace_spaces_go_no_space b s :
  no_space s = true → replace_spaces_go b s = s.
Proof.
  revert b. induction s as [|c s IH]; intros b; simpl; [done|].
  intros [Hc Hs]%andb_prop. apply negb_true_iff in Hc.
  by rewrite Hc, IH.
Qed.

Lemma trimStart_blank pad s :
  blank pad = true → trimStart (pad +:+ s) = trimStart s.
Proof.
  induction pad as [|c pad IH]; [done|]. rewrite app_String. simpl.
  intros [Hc Hpad]%andb_prop. rewrite Hc. by apply IH.
Qed.

Lemma trimEnd_all_blank pad : blank pad = true → trimEnd pad = "".
Proof.
  induction pad as [|c pad IH]; simpl; [done|].
  intros [Hc Hpad]%andb_prop. by rewrite IH, Hc.
Qed.

Lemma trimEnd_blank s pad :
  blank pad = true → trimEnd (s +:+ pad) = trimEnd s.
Proof.
  intros Hpad. induction s as [|c s IH].
  - by apply trimEnd_all_blank.
  - rewrite app_String. simpl. by rewrite IH.
Qed.

Lemma trimStart_app s t :
  trimStart s ≠ "" → trimStart (s +:+ t) = trimStart s +:+ t.
Proof.
  induction s as [|c s IH]; [done|]. rewrite app_String. simpl.
  destruct (is_space c); [apply IH|done].
Qed.

Lemma trimStart_all_blank s : trimStart s = "" → blank s = true.
Proof.
  induction s as [|c s IH]; simpl; [done|].
  destruct (is_space c); [apply IH|done].
Qed.

Lemma blank_app a b : blank (a +:+ b) = blank a && blank b.
Proof.
  induction a as [|c a IH]; [done|]. rewrite app_String. simpl.
  by rewrite IH, andb_assoc.
Qed.

(** White space around a text is trimmed away with the white space the
    text begins and ends with. *)
Lemma trim_blank pad1 s pad2 :
  blank pad1 = true → blank pad2 = true →
  trim (pad1 +:+ s +:+ pad2) = trim s.
Proof.
  intros H1 H2. unfold trim. rewrite trimStart_blank by done.
  destruct (trimStart s) as [|c t] eqn:Hs.
  - rewrite <-(app_empty_r (trimStart (s +:+ pad2))).
    apply trimStart_all_blank in Hs.
    rewrite app_empty_r.
    assert (Hb : blank (s +:+ pad2) = true) by (by rewrite blank_app, Hs, H2).
    clear -Hb. induction (s +:+ pad2) as [|c u IH]; simpl; [done|].
    simpl in Hb. apply andb_prop in Hb as [Hc Hu]. rewrite Hc. by apply IH.
  - rewrite trimStart_app by (by rewrite Hs). rewrite Hs.
    by apply trimEnd_blank.
Qed.

Lemma normalizedQuery_idemp q :
  normalizedQuery (normalizedQuery q) = normalizedQuery q.
Proof.
  unfold normalizedQuery, replace_spaces, trim.
  rewrite toLowerCase_replace_spaces_go, toLowerCase_trimEnd,
    toLowerCase_trimStart, toLowerCase_idemp.
  set (t := trimEnd (trimStart (toLowerCase q))).
  pose proof (no_space_replace_spaces_go false t) as Hn.
  by rewrite trimStart_no_space, trimEnd_no_space, replace_spaces_go_no_space.
Qed.

End QueryFacts.

Section KeyShapes.
Import CacheKeyGenerator LegacyKeys.

(** X4.  A search key does not tell apart queries that differ in letter
    case, in the white space around them or in the white space between
    their words: the key of a query is the key of its lower-case form, of
    the query with white space added before and after it, and of its
    normal form, in which every run of white space is one underscore. *)
Theorem entitySearch_normal_form
    entityType searchQuery pagination filters pad1 pad2 :
  blank pad1 = true → blank pad2 = true →
  entitySearch entityType (toLowerCase searchQuery) pagination filters
  = entitySearch entityType searchQuery pagination filters
  ∧ entitySearch entityType (pad1 +:+ searchQuery +:+ pad2) pagination filters
    = entitySearch entityType searchQuery pagination filters
  ∧ entitySearch entityType (normalizedQuery searchQuery) pagination filters
    = entitySearch entityType searchQuery pagination filters
  ∧ no_space (normalizedQuery searchQuery) = true.
Proof.
  intros H1 H2. unfold entitySearch. split_and!.
  - unfold normalizedQuery. by rewrite toLowerCase_idemp.
  - unfold normalizedQuery.
    assert (Hlow : ∀ a b, toLowerCase (a +:+ b)
                          = toLowerCase a +:+ toLowerCase b).
    { intros a b. induction a as [|c a IH]; [done|].
      rewrite app_String. simpl. by rewrite IH. }
    assert (Hblank : ∀ pad, blank pad = true → blank (toLowerCase pad) = true).
    { intros pad. induction pad as [|c pad IH]; simpl; [done|].
      intros [Hc Hpad]%andb_prop. by rewrite is_space_lower, Hc, IH. }
    by rewrite !Hlow, trim_blank by (by apply Hblank).
  - by rewrite normalizedQuery_idemp.
  - apply no_space_replace_spaces_go.
Qed.

(** X4 on a query in capitals with white space around and inside it, and
    on the query that is its normal form. *)
Lemma entitySearch_normal_form_witness :
  entitySearch "users" "  John   DOE " None None = "users:search:john_doe"
  ∧ entitySearch "users" "john_doe" None None = "users:search:john_doe".
Proof.
  destruct (entitySearch_normal_form "users" "John   DOE" None None "  " " "
              eq_refl eq_refl) as (_ & Hpad & Hnormal & _).
  change (normalizedQuery "John   DOE") with "john_doe" in Hnormal.
  split.
  - exact (eq_trans Hpad eq_refl).
  - exact (eq_trans Hnormal eq_refl).
Defined.

(** X5.  A custom key can be read back: when there is at least one part
    and no part holds a colon, cutting the key at its colons gives the
    texts of the parts, so two such lists of parts with the same key have
    the same texts.  The by-id and by-field keys are the custom keys of
    their segments. *)
Theorem custom_segments parts :
  parts ≠ [] →
  Forall (fun part => colon_free (id_text part) = true) parts →
  split_colon (custom parts) = map id_text parts
  ∧ (∀ parts',
       parts' ≠ [] →
       Forall (fun part => colon_free (id_text part) = true) parts' →
       custom parts = custom parts' → map id_text parts = map id_text parts')
  ∧ (∀ entityType id field value,
       entityById entityType id = custom [IdString entityType; id]
       ∧ entityByField entityType field value
         = custom [IdString entityType; IdString field; IdString value]).
Proof.
  assert (Hsplit : ∀ ps, ps ≠ [] →
            Forall (fun part => colon_free (id_text part) = true) ps →
            split_colon (custom ps) = map id_text ps).
  { intros ps Hne Hfree. unfold custom. apply split_colon_join.
    - by destruct ps.
    - by apply Forall_fmap. }
  intros Hne Hfree. split_and!.
  - by apply Hsplit.
  - intros parts' Hne' Hfree' Heq.
    by rewrite <-(Hsplit parts), <-(Hsplit parts'), Heq.
  - done.
Qed.

(** X5 on a key of three parts, one of them a number. *)
Lemma custom_segments_witness :
  split_colon (custom [IdString "report"; IdNumber (Num 2025); IdString "q3"])
  = ["report"; "2025"; "q3"].
Proof.
  destruct (custom_segments [IdString "report"; IdNumber (Num 2025); IdString "q3"])
    as (Hsplit & _).
  - discriminate.
  - repeat constructor.
  - exact Hsplit.
Defined.

(** X6.  The pattern of an entity type covers every key made for it: when
    the entity type holds no glob character, [entityType:*] matches its
    by-id, by-field, list, relation, aggregation and search keys, and
    [entityType:list:*] matches every one of its list keys. *)
Theorem entityPattern_covers
    entityType id field value pagination filters relation
    aggregationType aggregated searchQuery :
  Redis.glob_plain entityType = true →
  Redis.glob_match (entityPattern entityType None)
    (entityById entityType id) = true
  ∧ Redis.glob_match (entityPattern entityType None)
      (entityByField entityType field value) = true
  ∧ Redis.glob_match (entityPattern entityType None)
      (entityList entityType pagination filters) = true
  ∧ Redis.glob_match (entityPattern entityType None)
      (entityRelation entityType id relation pagination) = true
  ∧ Redis.glob_match (entityPattern entityType None)
      (entityAggregation entityType aggregationType aggregated filters) = true
  ∧ Redis.glob_match (entityPattern entityType None)
      (entitySearch entityType searchQuery pagination filters) = true
  ∧ Redis.glob_match (entityPattern entityType (Some "list:*"))
      (entityList entityType pagination filters) = true.
Proof.
  intros Hplain.
  assert (Hcover : ∀ rest, Redis.glob_match (entityType +:+ ":" +:+ "*")
                             (entityType +:+ ":" +:+ rest) = true).
  { intros rest. rewrite <-!app_assoc_s, glob_prefix.
    - apply prefix_app.
    - by rewrite glob_plain_app, Hplain. }
  unfold entityPattern. cbn [from_option]. unfold Datatypes.id.
  split_and!; try apply Hcover.
  rewrite entityList_unfold.
  change (entityType +:+ ":" +:+ "list:*")
    with (entityType +:+ ":list:" +:+ "*").
  rewrite <-!app_assoc_s, glob_prefix.
  - apply prefix_app.
  - by rewrite !glob_plain_app, Hplain.
Qed.

(** X6 on a search key and a list key of the users. *)
Lemma entityPattern_covers_witness :
  Redis.glob_match "users:*"
    (entitySearch "users" "John Doe"
       (Some {| page := Some (Num 2); limit := Some (Num 10) |})
       (Some [("is_active", PBool true)]))
  = true
  ∧ Redis.glob_match "users:list:*"
      (entityList "users" (Some {| page := Some (Num 2); limit := Some (Num 10) |})
         (Some [("is_active", PBool true)])) = true.
Proof.
  destruct (entityPattern_covers "users" (IdNumber (Num 1)) "email" "a@b.c"
              (Some {| page := Some (Num 2); limit := Some (Num 10) |})
              (Some [("is_active", PBool true)]) "posts" "count" None
              "John Doe" eq_refl)
    as (_ & _ & _ & _ & _ & Hsearch & Hlist).
  exact (conj Hsearch Hlist).
Defined.

End KeyShapes.

(** ** More about the cache service *)

Section ServiceFacts.
Context (env : Env) (wire : CacheService → string → string).

Lemma rejects_healthy cs c :
  ready cs c → Redis.faults c = [] →
  Redis.rejects c = false ∧ ∀ cmd, Redis.rejects (Redis.tick cmd c) = false.
Proof.
  intros _ Hf. unfold Redis.rejects, Redis.tick. simpl. by rewrite Hf.
Qed.




(** A key that a pattern under a plain prefix matches begins with the
    prefix. *)
Lemma glob_plain_prefix p q k :
  Redis.glob_plain p = true →
  Redis.glob_match (p +:+ q) k = true → String.prefix p k = true.
Proof.
  revert k. induction p as [|c p IH]; intros k Hp Hm.
  { by destruct k. }
  rewrite app_String in Hm. simpl in Hp. apply andb_prop in Hp as [Hc Hp].
  apply negb_true_iff in Hc.
  apply orb_false_elim in Hc as [Hc _].
  apply orb_false_elim in Hc as [Hc _].
  apply orb_false_elim in Hc as [Hstar Hq].
  simpl in Hm. rewrite Hstar in Hm. destruct k as [|d k]; [done|].
  rewrite Hq in Hm. simpl in Hm. apply andb_prop in Hm as [Hcd Hm].
  apply Ascii.eqb_eq in Hcd as ->. simpl.
  destruct (ascii_dec d d); [by apply IH|done].
Qed.

End ServiceFacts.

Section ServiceTheorems.
Context (env : Env) (wire : CacheService → string → string).

Lemma set_frame key v ttlSeconds cs k :
  k ≠ wire cs key →
  backend (CacheOps.set env wire key v ttlSeconds cs).2 !! k = backend cs !! k.
Proof.
  intros Hk. destruct (unavailable cs) eqn:Hun.
  { unfold CacheOps.set. by rewrite Hun. }
  destruct (unavailable_ready cs Hun) as [c Hready].
  rewrite (set_eq env wire key v ttlSeconds cs c Hready),
    (backend_ready cs c Hready). cbv zeta.
  destruct (stringify v) as [text|];
    [|cbn [snd]; by rewrite (backend_ready cs c Hready)].
  destruct (Redis.rejects c || _); cbn [snd]; [done|].
  rewrite backend_stored. by rewrite lookup_insert_ne.
Qed.

Lemma delete_frame key cs k :
  k ≠ wire cs key →
  backend (CacheOps.delete wire key cs).2 !! k = backend cs !! k.
Proof.
  intros Hk. destruct (unavailable cs) eqn:Hun.
  { unfold CacheOps.delete. by rewrite Hun. }
  destruct (unavailable_ready cs Hun) as [c Hready].
  rewrite (delete_eq wire key cs c Hready), (backend_ready cs c Hready).
  cbv zeta. destruct (Redis.rejects c); cbn [snd]; [done|].
  rewrite backend_stored. by rewrite lookup_delete_ne.
Qed.

(** What [deletePattern] leaves of the database, in every state of the
    service: a key that is gone matched the pattern. *)
Lemma deletePattern_frame pattern cs k :
  Redis.glob_match (wire cs pattern) k = false →
  backend (CacheOps.deletePattern wire pattern cs).2 !! k = backend cs !! k.
Proof.
  intros Hk. destruct (unavailable cs) eqn:Hun.
  { unfold CacheOps.deletePattern. by rewrite Hun. }
  destruct (unavailable_ready cs Hun) as [c Hready].
  rewrite (deletePattern_eq wire pattern cs c Hready),
    (backend_ready cs c Hready). cbv zeta.
  destruct (Redis.rejects c); [done|].
  destruct (length _ =? 0)%nat; [done|].
  destruct (Redis.rejects _); cbn [snd]; [done|].
  rewrite backend_stored, del_keys_lookup. case_decide as Hin; [|done].
  apply elem_of_matching in Hin as [Hm _]. congruence.
Qed.

(** No call changes the prefix of the service. *)
Lemma after_keyPrefix call cs :
  keyPrefix (after env wire call cs) = keyPrefix cs.
Proof.
  destruct (unavailable cs) eqn:Hun.
  { by rewrite unavailable_untouched. }
  destruct (unavailable_ready cs Hun) as [c Hready].
  destruct call as [key|key v ttl|key|pattern|key|]; simpl.
  - rewrite (get_eq wire key cs c Hready). cbv zeta. by repeat case_match.
  - rewrite (set_eq env wire key v ttl cs c Hready). cbv zeta.
    by repeat case_match.
  - rewrite (delete_eq wire key cs c Hready). cbv zeta. by repeat case_match.
  - rewrite (deletePattern_eq wire pattern cs c Hready). cbv zeta.
    by repeat case_match.
  - rewrite (exists_eq wire key cs c Hready). cbv zeta. by repeat case_match.
  - rewrite (flush_eq cs c Hready). by repeat case_match.
Qed.

(** [connect] and [disconnect] do not throw: each settles without an
    error, or stays pending. *)
Lemma connect_ok dial cs :
  (CacheService.connect env dial cs).1 = Settles (Ok tt)
  ∨ (CacheService.connect env dial cs).1 = Pending.
Proof.
  unfold CacheService.connect, try_await, settle, try_catch, bind, modify, ret.
  destruct (_ || _); [by left|]. destruct (dial _); simpl; auto.
Qed.

Lemma disconnect_ok quit cs :
  (CacheService.disconnect quit cs).1 = Settles (Ok tt)
  ∨ (CacheService.disconnect quit cs).1 = Pending.
Proof.
  unfold CacheService.disconnect, try_await, settle, try_catch, bind,
    modify, ret.
  destruct (client cs) as [c|]; [|by left].
  destruct (quit c) as [[[]|e]|]; simpl; auto.
Qed.

Lemma connect_keyPrefix dial cs :
  keyPrefix (CacheService.connect env dial cs).2 = keyPrefix cs.
Proof.
  unfold CacheService.connect, try_await, settle, try_catch, bind, modify, ret.
  destruct (_ || _); [done|]. by destruct (dial _).
Qed.

Lemma disconnect_keyPrefix quit cs :
  keyPrefix (CacheService.disconnect quit cs).2 = keyPrefix cs.
Proof.
  unfold CacheService.disconnect, try_await, settle, try_catch, bind,
    modify, ret.
  destruct (client cs) as [c|]; [|done]. by destruct (quit c) as [[[]|e]|].
Qed.

Lemma step_keyPrefix l cs : keyPrefix (step env wire l cs) = keyPrefix cs.
Proof.
  destruct l as [call|dial|quit]; simpl.
  - apply after_keyPrefix.
  - apply connect_keyPrefix.
  - apply disconnect_keyPrefix.
Qed.

Lemma lifetime_keyPrefix steps cs :
  keyPrefix (lifetime env wire steps cs) = keyPrefix cs.
Proof.
  revert cs. induction steps as [|l steps IH]; intros cs; [done|].
  simpl. fold (lifetime env wire steps (step env wire l cs)).
  by rewrite IH, step_keyPrefix.
Qed.

(** X7.  The namespace prefix is set once.  The validated environment
    carries no [REDIS_KEY_PREFIX], so the constructor takes the prefix
    from [APP_NAME], and takes [default] when that is empty.  No call,
    no [connect] and no [disconnect] changes the prefix, whether it
    settles or stays pending; so through the life of the service, in
    either revision, its prefix and what [getKeyPrefix] returns are what
    the constructor has set. *)
Theorem keyPrefix_is_set_once steps :
  keyPrefix (CacheService.new env)
  = (if String.eqb (APP_NAME env) "" then "default" else APP_NAME env)
  ∧ (∀ l cs, keyPrefix (step env wire l cs) = keyPrefix cs)
  ∧ keyPrefix (lifetime env wire steps (CacheService.new env))
    = keyPrefix (CacheService.new env)
  ∧ CacheService.getKeyPrefix env
      (lifetime env wire steps (CacheService.new env))
    = keyPrefix (CacheService.new env).
Proof.
  assert (Hnew : keyPrefix (CacheService.new env)
                 = if String.eqb (APP_NAME env) "" then "default"
                   else APP_NAME env).
  { unfold CacheService.new, truthy_str. simpl.
    by destruct (String.eqb (APP_NAME env) ""). }
  split_and!; [done|apply step_keyPrefix|apply lifetime_keyPrefix|].
  unfold CacheService.getKeyPrefix. rewrite lifetime_keyPrefix.
  destruct (String.eqb (keyPrefix (CacheService.new env)) "") eqn:Hempty;
    [|done].
  exfalso. apply String.eqb_eq in Hempty. rewrite Hnew in Hempty.
  destruct (String.eqb (APP_NAME env) "") eqn:Hname; [done|].
  apply String.eqb_neq in Hname. done.
Qed.

(** X8.  [connect] and [disconnect] never throw.  [connect] does nothing
    when the service has a client already or no URL is configured.
    Otherwise the client is assigned before the connection is awaited:
    when the connection is made the service is ready on it; when making
    it fails the service is left without a client; and when the server
    is not reached [connect] stays pending, the service holds the client
    and is not ready, every call on it is answered without a command
    being sent, and another [connect] returns at once.  After a [quit]
    that succeeded the service has no client: it is not ready, every
    call on it is answered without a command being sent, and a [connect]
    makes a new connection.  After a [quit] that failed or stays pending,
    and when there was no client, [disconnect] leaves the service as it
    was. *)
Theorem connect_and_disconnect dial quit cs :
  ((∀ e, (CacheService.connect env dial cs).1 ≠ Settles (Throw e))
   ∧ (is_Some (client cs) ∨ truthy_str (REDIS_URL env) = false →
      CacheService.connect env dial cs = (Settles (Ok tt), cs))
   ∧ (client cs = None → truthy_str (REDIS_URL env) = true →
      match dial (default "" (REDIS_URL env)) with
      | CacheService.Connected c =>
          (CacheService.connect env dial cs).1 = Settles (Ok tt)
          ∧ ready (CacheService.connect env dial cs).2 c
      | CacheService.Failed _ =>
          (CacheService.connect env dial cs).1 = Settles (Ok tt)
          ∧ client (CacheService.connect env dial cs).2 = None
          ∧ isReady (CacheService.connect env dial cs).2 = false
      | CacheService.Unreached c =>
          (CacheService.connect env dial cs).1 = Pending
          ∧ client (CacheService.connect env dial cs).2 = Some c
          ∧ isReady (CacheService.connect env dial cs).2 = false
          ∧ (∀ call,
               after env wire call (CacheService.connect env dial cs).2
               = (CacheService.connect env dial cs).2)
          ∧ (∀ dial',
               CacheService.connect env dial'
                 (CacheService.connect env dial cs).2
               = (Settles (Ok tt), (CacheService.connect env dial cs).2))
      end)
   ∧ (truthy_str (REDIS_URL env) = false →
      ∀ call,
        after env wire call
          (CacheService.connect env dial (CacheService.new env)).2
        = CacheService.new env))
  ∧ ((∀ e, (CacheService.disconnect quit cs).1 ≠ Settles (Throw e))
     ∧ (∀ c, client cs = Some c → quit c = Settles (Ok tt) →
          (CacheService.disconnect quit cs).1 = Settles (Ok tt)
          ∧ client (CacheService.disconnect quit cs).2 = None
          ∧ isReady (CacheService.disconnect quit cs).2 = false
          ∧ (∀ call,
               after env wire call (CacheService.disconnect quit cs).2
               = (CacheService.disconnect quit cs).2)
          ∧ (truthy_str (REDIS_URL env) = true →
             ∀ c', dial (default "" (REDIS_URL env)) = CacheService.Connected c' →
                   ready (CacheService.connect env dial
                            (CacheService.disconnect quit cs).2).2 c'))
     ∧ (∀ c e, client cs = Some c → quit c = Settles (Throw e) →
               CacheService.disconnect quit cs = (Settles (Ok tt), cs))
     ∧ (∀ c, client cs = Some c → quit c = Pending →
             CacheService.disconnect quit cs = (Pending, cs))
     ∧ (client cs = None →
        CacheService.disconnect quit cs = (Settles (Ok tt), cs))).
Proof.
  split.
  { split_and!.
    - intros e. by destruct (connect_ok dial cs) as [-> | ->].
    - unfold CacheService.connect. intros [Hc|Hurl].
      + by rewrite (bool_decide_eq_true_2 _ Hc).
      + by rewrite Hurl, orb_true_r.
    - intros Hc Hurl.
      unfold CacheService.connect, try_await, settle, try_catch, bind,
        modify, ret.
      rewrite Hc, Hurl.
      rewrite bool_decide_eq_false_2 by (by intros [? ?]). cbn [negb orb].
      destruct (dial _) as [c|e|c]; simpl; (split_and!; try done).
      intros call. by apply unavailable_untouched.
    - intros Hurl call. unfold CacheService.connect.
      rewrite Hurl, orb_true_r. cbn [snd].
      by apply unavailable_untouched. }
  { split_and!.
    - intros e. by destruct (disconnect_ok quit cs) as [-> | ->].
    - intros c Hc Hquit.
      unfold CacheService.disconnect, try_await, settle, try_catch, bind,
        modify, ret.
      rewrite Hc, Hquit. cbn [fst snd]. split_and!; try done.
      + intros call. by apply unavailable_untouched.
      + intros Hurl c' Hdial.
        unfold CacheService.connect, try_await, settle, try_catch, bind,
          modify, ret.
        cbn [client]. rewrite Hurl, Hdial.
        rewrite bool_decide_eq_false_2 by (by intros [? ?]). by cbn.
    - intros c e Hc Hquit.
      unfold CacheService.disconnect, try_await, settle, try_catch, bind,
        modify, ret.
      by rewrite Hc, Hquit.
    - intros c Hc Hquit.
      unfold CacheService.disconnect, try_await. by rewrite Hc, Hquit.
    - unfold CacheService.disconnect. by intros ->. }
Qed.

(** X9.  [get], [set], [delete] and [exists] on a key never change the
    entry of another key, in any state of the service and of the
    backend. *)
Theorem point_calls_touch_one_key key v ttlSeconds cs k :
  k ≠ wire cs key →
  backend (CacheOps.get wire key cs).2 !! k = backend cs !! k
  ∧ backend (CacheOps.set env wire key v ttlSeconds cs).2 !! k
    = backend cs !! k
  ∧ backend (CacheOps.delete wire key cs).2 !! k = backend cs !! k
  ∧ backend (CacheOps.exists_ wire key cs).2 !! k = backend cs !! k.
Proof.
  intros Hk. split_and!.
  - by rewrite get_backend.
  - by apply set_frame.
  - by apply delete_frame.
  - by rewrite exists_backend.
Qed.

(** X12.  An entry that cannot be read is a miss, not an error: when the
    text stored under a key is empty or white space, or begins with a
    character that no JSON value begins with, as a text that another
    program wrote without encoding it does, [get] returns [null] while
    [exists] returns [true]. *)
Theorem unreadable_entry_is_a_miss key cs e :
  healthy cs →
  backend cs !! wire cs key = Some e →
  starts_value (Redis.payload e) = false →
  (CacheOps.get wire key cs).1 = Ok null
  ∧ (CacheOps.exists_ wire key cs).1 = Ok true.
Proof.
  intros (c & Hready & Hfaults) He Hbad.
  destruct (rejects_healthy cs c Hready Hfaults) as [Hacc _].
  rewrite (backend_ready cs c Hready) in He.
  rewrite (get_eq wire key cs c Hready), (exists_eq wire key cs c Hready).
  cbv zeta. rewrite Hacc, He. simpl. split; [|done].
  rewrite (starts_value_parse _ Hbad). by destruct (String.eqb _ _).
Qed.

End ServiceTheorems.

Section NamespaceTheorems.
Context (env : Env).

(** X11.  Under a prefix that holds no glob character, no call but
    [flush] reaches into another namespace: a key that does not begin
    with the prefix and a colon is after the call as it was before, in
    any state of the service and of the backend. *)
Theorem other_namespaces_untouched call cs k :
  Redis.glob_plain (keyPrefix cs) = true →
  call ≠ CallFlush →
  String.prefix (keyPrefix cs +:+ ":") k = false →
  backend (after env CacheService.getPrefixedKey call cs) !! k
  = backend cs !! k.
Proof.
  intros Hplain Hcall Hk.
  assert (Hne : ∀ key, k ≠ CacheService.getPrefixedKey cs key).
  { intros key ->. unfold CacheService.getPrefixedKey in Hk.
    by rewrite <-app_assoc_s, prefix_app in Hk. }
  destruct call as [key|key v ttl|key|pattern|key|]; simpl; [| | | | |done].
  - by rewrite get_backend.
  - by apply set_frame.
  - by apply delete_frame.
  - apply deletePattern_frame.
    destruct (Redis.glob_match _ k) eqn:Hm; [|done].
    unfold CacheService.getPrefixedKey in Hm. rewrite <-app_assoc_s in Hm.
    apply glob_plain_prefix in Hm; [congruence|].
    by rewrite glob_plain_app, Hplain.
  - by rewrite exists_backend.
Qed.


(** X13.  After a [delete] that the backend answered, the key is a miss:
    [delete] returns whether the key was there, and a [get] of the key
    returns [null] and an [exists] returns [false], whether the backend
    answers them or not. *)
Theorem delete_then_get key cs :
  rejected_at 0 cs = false →
  (CacheService.delete key cs).1
  = Ok (negb (unavailable cs)
        && bool_decide
             (is_Some (backend cs !! CacheService.getPrefixedKey cs key)))
  ∧ (CacheService.get key (CacheService.delete key cs).2).1 = Ok null
  ∧ (CacheService.exists_ key (CacheService.delete key cs).2).1 = Ok false.
Proof.
  intros Hrej. unfold CacheService.delete, CacheService.get,
    CacheService.exists_.
  destruct (unavailable cs) eqn:Hun.
  { unfold CacheOps.delete, CacheOps.get, CacheOps.exists_.
    rewrite Hun. cbn [fst snd]. by rewrite Hun. }
  destruct (unavailable_ready cs Hun) as [c Hready].
  rewrite (rejected_at_0 cs c) in Hrej by apply Hready.
  rewrite (delete_eq _ key cs c Hready), (backend_ready cs c Hready).
  cbv zeta. rewrite Hrej. cbn [fst snd negb andb]. split; [done|].
  erewrite get_eq, exists_eq by by apply stored_ready.
  cbv zeta.
  replace (CacheService.getPrefixedKey (stored _ _ _ _) key)
    with (CacheService.getPrefixedKey cs key) by done.
  cbn [Redis.db Redis.with_db]. rewrite lookup_delete_eq.
  rewrite bool_decide_eq_false_2 by (by intros [? ?]).
  split; by case_match.
Qed.

End NamespaceTheorems.

(** ** More about the repository *)

Section HealthyService.
Context (env : Env).

Abbreviation wire := CacheService.getPrefixedKey.


Lemma healthy_get key cs :
  healthy cs →
  ∃ cs', CacheService.get key cs = (Ok (cached cs key), cs')
         ∧ healthy cs' ∧ backend cs' = backend cs
         ∧ keyPrefix cs' = keyPrefix cs.
Proof.
  intros (c & Hready & Hfaults). unfold CacheService.get, cached.
  destruct (rejects_healthy cs c Hready Hfaults) as [Hacc _].
  rewrite (get_eq _ key cs c Hready), (backend_ready cs c Hready).
  cbv zeta. rewrite Hacc.
  exists (sent_to cs c (Redis.GET (wire cs key))). split_and!.
  - destruct (Redis.db c !! _) as [e|]; simpl; [|done].
    by destruct (String.eqb _ _).
  - eexists. split; [split; [reflexivity|apply Hready]|].
    simpl. by rewrite Hfaults.
  - done.
  - done.
Qed.

Lemma healthy_set key v ttl cs text :
  healthy cs → stringify v = Some text → (0 < ttl)%Z →
  ∃ cs', CacheService.set env key v (Some (Num ttl)) cs = (Ok true, cs')
         ∧ healthy cs'
         ∧ backend cs'
           = <[wire cs key := {| Redis.payload := text;
                                 Redis.expiry := Some ttl |}]> (backend cs)
         ∧ keyPrefix cs' = keyPrefix cs.
Proof.
  intros (c & Hready & Hfaults) Htext Httl. unfold CacheService.set.
  destruct (rejects_healthy cs c Hready Hfaults) as [Hacc _].
  rewrite (set_eq env _ key v (Some (Num ttl)) cs c Hready),
    (backend_ready cs c Hready).
  cbv zeta. rewrite Htext, Hacc. unfold truthy_num.
  assert (Hnz : (ttl =? 0)%Z = false) by lia. rewrite Hnz. simpl.
  assert (Hpos : (0 <? ttl)%Z = true) by lia. rewrite Hpos. simpl.
  eexists. split_and!; [reflexivity| |done|done].
  eexists. split; [by apply stored_ready|]. simpl. by rewrite Hfaults.
Qed.

End HealthyService.

Section ReadFacts.
Import UserRepository.
Context {DB : Type} `{UserModel DB} `{UserQueries DB} (env : Env).

Abbreviation wire := CacheService.getPrefixedKey.

(** The row and what comes back from the cache have the same JSON text,
    and the parser reads the second back from it. *)
Lemma row_text u : stringify (row_value u) = Some (text_of (cached_value u)).
Proof. reflexivity. Qed.

Lemma row_read_back u :
  parse (text_of (cached_value u)) = Some (cached_value u).
Proof.
  pose proof (plain_round_trips (cached_value u) eq_refl) as Hround.
  unfold round_trips in Hround.
  by change (stringify (cached_value u)) with (Some (text_of (cached_value u)))
    in Hround.
Qed.

Lemma row_text_not_empty u : String.eqb (text_of (cached_value u)) "" = false.
Proof. reflexivity. Qed.

(** Running a call on the cache inside the repository. *)
Lemma on_cache_eq {A} (m : M CacheService A) (w : @World DB) r cs :
  m (cacheService w) = (r, cs) →
  on_cache m w = (r, {| store := store w; cacheService := cs |}).
Proof. intros Hm. unfold on_cache. by rewrite Hm. Qed.

Lemma on_cache_get key (w : @World DB) :
  ∃ r cs, on_cache (CacheService.get key) w
          = (Ok r, {| store := store w; cacheService := cs |})
          ∧ CacheService.get key (cacheService w) = (Ok r, cs).
Proof.
  destruct (cache_calls_never_throw env wire key null None "" (cacheService w))
    as ([r Hr] & _).
  destruct (CacheService.get key (cacheService w)) as [r' cs] eqn:Hget.
  unfold CacheService.get in Hget. rewrite Hget in Hr. simpl in Hr. subst r'.
  exists r, cs. split; [|done]. by apply on_cache_eq.
Qed.

Lemma on_cache_set key v ttl (w : @World DB) :
  ∃ r cs, on_cache (CacheService.set env key v ttl) w
          = (Ok r, {| store := store w; cacheService := cs |}).
Proof.
  destruct (cache_calls_never_throw env wire key v ttl "" (cacheService w))
    as (_ & [r Hr] & _).
  destruct (CacheService.set env key v ttl (cacheService w)) as [r' cs]
    eqn:Hset.
  unfold CacheService.set in Hset. rewrite Hset in Hr. simpl in Hr. subst r'.
  exists r, cs. by apply on_cache_eq.
Qed.

End ReadFacts.

Section ReadTheorems.
Import UserRepository.
Context {DB : Type} `{UserModel DB} `{UserQueries DB} (env : Env).

Abbreviation wire := CacheService.getPrefixedKey.

(** X14.  A read of the repository fails only when the store of record
    fails: in every state of the cache and of its backend, when
    [findById], [findByEmail] or [findAll] throws, the error is the one
    the query on the store threw. *)
Theorem reads_fail_only_with_the_store
    userId address pagination (w : @World DB) err :
  ((findById env userId w).1 = Throw err →
   ∃ d, findUnique userId (store w) = (Throw err, d))
  ∧ ((findByEmail env address w).1 = Throw err →
     ∃ d, findUniqueByEmail address (store w) = (Throw err, d))
  ∧ ((findAll env pagination w).1 = Throw err →
     ∃ d, findMany (window pagination) (store w) = (Throw err, d)).
Proof.
  split_and!.
  - unfold findById, bind.
    destruct (on_cache_get env (LegacyKeys.generateUserKey userId) w)
      as (r & cs & -> & _).
    destruct (truthy r); [done|]. unfold on_store. cbn [store cacheService].
    destruct (findUnique userId (store w)) as [[[u|]|e] d]; try done.
    + destruct (on_cache_set env (LegacyKeys.generateUserKey userId)
                  (row_value u) (Some (Num 900))
                  {| store := d; cacheService := cs |}) as (r1 & cs1 & ->).
      done.
    + intros [= ->]. eauto.
  - unfold findByEmail, bind.
    destruct (on_cache_get env (LegacyKeys.generateUserByEmailKey address) w)
      as (r & cs & -> & _).
    destruct (truthy r); [done|]. unfold on_store. cbn [store cacheService].
    destruct (findUniqueByEmail address (store w)) as [[[u|]|e] d]; try done.
    + destruct (on_cache_set env (LegacyKeys.generateUserByEmailKey address)
                  (row_value u) (Some (Num 900))
                  {| store := d; cacheService := cs |}) as (r1 & cs1 & ->).
      destruct (on_cache_set env (LegacyKeys.generateUserKey (id u))
                  (row_value u) (Some (Num 900))
                  {| store := store {| store := d; cacheService := cs |};
                     cacheService := cs1 |}) as (r2 & cs2 & ->).
      done.
    + intros [= ->]. eauto.
  - unfold findAll, bind.
    destruct (on_cache_get env
                (LegacyKeys.generateUsersListKey (page <$> pagination)
                   (limit <$> pagination)) w) as (r & cs & -> & _).
    destruct (truthy r); [done|]. unfold on_store. cbn [store cacheService].
    destruct (findMany (window pagination) (store w)) as [[rows|e] d].
    + destruct (on_cache_set env
                  (LegacyKeys.generateUsersListKey (page <$> pagination)
                     (limit <$> pagination))
                  (VArray (map row_value rows)) (Some (Num 300))
                  {| store := d; cacheService := cs |}) as (r1 & cs1 & ->).
      done.
    + intros [= ->]. eauto.
Qed.

(** X15.  With the cache not connected the repository reads from the
    store of record and leaves the cache service as it was: [findById]
    and [findByEmail] return the row the store has, or [null], and
    [findAll] the rows of the query, and each throws what the store
    throws. *)
Theorem reads_without_the_cache userId address pagination (w : @World DB) :
  unavailable (cacheService w) = true →
  findById env userId w
  = (let '(r, d) := findUnique userId (store w) in
     (match r with
      | Ok row => Ok (from_option row_value null row)
      | Throw e => Throw e
      end, {| store := d; cacheService := cacheService w |}))
  ∧ findByEmail env address w
    = (let '(r, d) := findUniqueByEmail address (store w) in
       (match r with
        | Ok row => Ok (from_option row_value null row)
        | Throw e => Throw e
        end, {| store := d; cacheService := cacheService w |}))
  ∧ findAll env pagination w
    = (let '(r, d) := findMany (window pagination) (store w) in
       (match r with
        | Ok rows => Ok (VArray (map row_value rows))
        | Throw e => Throw e
        end, {| store := d; cacheService := cacheService w |})).
Proof.
  intros Hun.
  assert (Hget : ∀ key (w' : @World DB), cacheService w' = cacheService w →
            on_cache (CacheService.get key) w' = (Ok null, w')).
  { intros key [d cs] Hcs. simpl in Hcs. subst cs.
    unfold on_cache, CacheService.get, CacheOps.get. simpl. by rewrite Hun. }
  assert (Hset : ∀ key v ttl (w' : @World DB),
            cacheService w' = cacheService w →
            on_cache (CacheService.set env key v ttl) w' = (Ok false, w')).
  { intros key v ttl [d cs] Hcs. simpl in Hcs. subst cs.
    unfold on_cache, CacheService.set, CacheOps.set. simpl. by rewrite Hun. }
  destruct w as [d0 cs0]. simpl in *. split_and!.
  - unfold findById, bind. rewrite Hget by done. simpl.
    unfold on_store. simpl.
    destruct (findUnique userId d0) as [[[u|]|e] d]; try done.
    by rewrite Hset.
  - unfold findByEmail, bind. rewrite Hget by done. simpl.
    unfold on_store. simpl.
    destruct (findUniqueByEmail address d0) as [[[u|]|e] d]; try done.
    by rewrite !Hset.
  - unfold findAll, bind. rewrite Hget by done. simpl.
    unfold on_store. simpl.
    destruct (findMany (window pagination) d0) as [[rows|e] d]; try done.
    by rewrite Hset.
Qed.

End ReadTheorems.

Section ReadThrough.
Import UserRepository.
Context {DB : Type} `{UserModel DB} `{UserQueries DB} (env : Env).

Abbreviation wire := CacheService.getPrefixedKey.


Lemma wire_prefix cs cs' key :
  keyPrefix cs' = keyPrefix cs → wire cs' key = wire cs key.
Proof. unfold CacheService.getPrefixedKey. by intros ->. Qed.

Lemma cached_row cs key u :
  backend cs !! wire cs key = Some (row_entry u) →
  cached cs key = cached_value u.
Proof.
  intros Hk. unfold cached. rewrite Hk. cbn [Redis.payload row_entry].
  by rewrite row_text_not_empty, row_read_back.
Qed.

(** A hit: the read returns what the cache holds and does not ask the
    store. *)
Lemma findById_hit userId d cs u :
  healthy cs →
  backend cs !! wire cs (LegacyKeys.generateUserKey userId)
  = Some (row_entry u) →
  ∃ cs', findById env userId {| store := d; cacheService := cs |}
         = (Ok (cached_value u), {| store := d; cacheService := cs' |})
         ∧ backend cs' = backend cs.
Proof.
  intros Hh Hk. unfold findById, bind.
  destruct (healthy_get (LegacyKeys.generateUserKey userId) cs Hh)
    as (cs' & Hget & _ & Hb & _).
  rewrite (on_cache_eq _ {| store := d; cacheService := cs |} _ _ Hget).
  rewrite (cached_row cs _ u Hk). simpl. eauto.
Qed.

(** X16.  Read-through by id.  On a connected cache that answers and
    holds nothing under the key of the user, [findById] returns the row
    of the store and leaves it in the cache under that key, as its JSON
    text, for fifteen minutes; a second [findById] is then answered from
    the cache, whatever the store holds by then and without asking it,
    and what it returns is the row with its date as a string. *)
Theorem findById_read_through userId (w : @World DB) u d :
  healthy (cacheService w) →
  backend (cacheService w)
    !! wire (cacheService w) (LegacyKeys.generateUserKey userId) = None →
  findUnique userId (store w) = (Ok (Some u), d) →
  (findById env userId w).1 = Ok (row_value u)
  ∧ store (findById env userId w).2 = d
  ∧ backend (cacheService (findById env userId w).2)
    = <[wire (cacheService w) (LegacyKeys.generateUserKey userId)
        := row_entry u]> (backend (cacheService w))
  ∧ ∀ d',
      (findById env userId
         {| store := d';
            cacheService := cacheService (findById env userId w).2 |}).1
      = Ok (cached_value u)
      ∧ store (findById env userId
                 {| store := d';
                    cacheService := cacheService (findById env userId w).2 |}).2
        = d'.
Proof.
  intros Hh Hmiss Hfind.
  set (key := LegacyKeys.generateUserKey userId) in *.
  destruct (healthy_get key (cacheService w) Hh)
    as (cs1 & Hget & Hh1 & Hb1 & Hp1).
  destruct (healthy_set env key (row_value u) 900 cs1 _ Hh1 (row_text u)
              ltac:(done)) as (cs2 & Hset & Hh2 & Hb2 & Hp2).
  assert (Hrun : findById env userId w
                 = (Ok (row_value u), {| store := d; cacheService := cs2 |})).
  { unfold findById, bind. fold key.
    rewrite (on_cache_eq _ w _ _ Hget).
    unfold cached. rewrite Hmiss. cbn [truthy null].
    unfold on_store. cbn [store cacheService]. rewrite Hfind.
    by rewrite (on_cache_eq _ {| store := d; cacheService := cs1 |} _ _ Hset). }
  rewrite Hrun. cbn [fst snd store cacheService].
  rewrite (wire_prefix _ _ key Hp1), Hb1 in Hb2.
  split_and!; [done..|].
  intros d'.
  destruct (findById_hit userId d' cs2 u Hh2) as (cs3 & -> & _); [|done].
  rewrite Hb2, (wire_prefix cs2 (cacheService w)) by congruence.
  by rewrite lookup_insert_eq.
Qed.

(** X17.  Read-through by e-mail.  On a connected cache that answers and
    holds nothing under the key of the e-mail, [findByEmail] returns the
    row of the store and leaves it in the cache twice, under the key of
    the e-mail and under the key of its id, each for fifteen minutes; a
    [findById] of that id is then answered from the cache without asking
    the store. *)
Theorem findByEmail_caches_both_keys address (w : @World DB) u d :
  healthy (cacheService w) →
  backend (cacheService w)
    !! wire (cacheService w) (LegacyKeys.generateUserByEmailKey address)
  = None →
  findUniqueByEmail address (store w) = (Ok (Some u), d) →
  (findByEmail env address w).1 = Ok (row_value u)
  ∧ backend (cacheService (findByEmail env address w).2)
    = <[wire (cacheService w) (LegacyKeys.generateUserKey (id u))
        := row_entry u]>
        (<[wire (cacheService w) (LegacyKeys.generateUserByEmailKey address)
           := row_entry u]> (backend (cacheService w)))
  ∧ ∀ d',
      (findById env (id u)
         {| store := d';
            cacheService := cacheService (findByEmail env address w).2 |}).1
      = Ok (cached_value u)
      ∧ store (findById env (id u)
                 {| store := d';
                    cacheService :=
                      cacheService (findByEmail env address w).2 |}).2
        = d'.
Proof.
  intros Hh Hmiss Hfind.
  set (key := LegacyKeys.generateUserByEmailKey address) in *.
  destruct (healthy_get key (cacheService w) Hh)
    as (cs1 & Hget & Hh1 & Hb1 & Hp1).
  destruct (healthy_set env key (row_value u) 900 cs1 _ Hh1 (row_text u)
              ltac:(done)) as (cs2 & Hset & Hh2 & Hb2 & Hp2).
  destruct (healthy_set env (LegacyKeys.generateUserKey (id u)) (row_value u)
              900 cs2 _ Hh2 (row_text u) ltac:(done))
    as (cs3 & Hset' & Hh3 & Hb3 & Hp3).
  assert (Hrun : findByEmail env address w
                 = (Ok (row_value u), {| store := d; cacheService := cs3 |})).
  { unfold findByEmail, bind. fold key.
    rewrite (on_cache_eq _ w _ _ Hget).
    unfold cached. rewrite Hmiss. cbn [truthy null].
    unfold on_store. cbn [store cacheService]. rewrite Hfind.
    rewrite (on_cache_eq _ {| store := d; cacheService := cs1 |} _ _ Hset).
    cbn [store cacheService].
    by rewrite (on_cache_eq _ {| store := d; cacheService := cs2 |} _ _ Hset'). }
  rewrite Hrun. cbn [fst snd store cacheService].
  rewrite (wire_prefix (cacheService w) cs1), Hb1 in Hb2 by done.
  rewrite (wire_prefix (cacheService w) cs2), Hb2 in Hb3 by congruence.
  split_and!; [done..|].
  intros d'.
  destruct (findById_hit (id u) d' cs3 u Hh3) as (cs4 & -> & _); [|done].
  rewrite Hb3, (wire_prefix cs3 (cacheService w)) by congruence.
  by rewrite lookup_insert_eq.
Qed.

End ReadThrough.

Section WriteFacts.
Import UserRepository.
Context {DB : Type} `{UserModel DB} `{UserQueries DB} (env : Env).

Abbreviation wire := CacheService.getPrefixedKey.

(** A write whose call on the store succeeded, on a connected cache that
    answers. *)
Lemma write_on_healthy m (w : @World DB) result d :
  healthy (cacheService w) →
  store_side m (store w) = (Ok result, d) →
  (run m w).1 = Ok result
  ∧ store (run m w).2 = d
  ∧ healthy (cacheService (run m w).2)
  ∧ keyPrefix (cacheService (run m w).2) = keyPrefix (cacheService w)
  ∧ ∀ k, backend (cacheService (run m w).2) !! k
         = if existsb (fun call => removes (keyPrefix (cacheService w)) call k)
                (invalidation_of m (row_before m (store w)) result)
           then None else backend (cacheService w) !! k.
Proof.
  intros Hh Hstore. pose proof (write_outcome env m w) as Hrun.
  rewrite Hstore in Hrun. rewrite Hrun. cbn [fst snd store cacheService].
  destruct (invalidating_calls env
              (invalidation_of m (row_before m (store w)) result)
              (cacheService w) Hh (invalidation_of_invalidating _ _ _))
    as (Hh' & Hp & Hlook).
  done.
Qed.

Lemma removes_lists prefix k :
  Redis.glob_plain prefix = true →
  removes prefix (CallDeletePattern "users:list:*") k
  = String.prefix (prefix +:+ ":users:list:") k.
Proof.
  intros Hplain. simpl.
  rewrite <-glob_prefix by (by rewrite glob_plain_app, Hplain).
  by rewrite app_assoc_s.
Qed.

(** Every write ends with the invalidation of the lists. *)
Lemma invalidation_of_lists prefix m current result k :
  Redis.glob_plain prefix = true →
  String.prefix (prefix +:+ ":users:list:") k = true →
  existsb (fun call => removes prefix call k)
    (invalidation_of m current result) = true.
Proof.
  intros Hplain Hk.
  assert (Hlist : existsb (fun call => removes prefix call k) list_invalidation
                  = true).
  { unfold list_invalidation. cbn [existsb].
    by rewrite removes_lists, Hk. }
  destruct m; cbn [invalidation_of]; rewrite ?existsb_app, Hlist;
    by rewrite ?orb_true_r.
Qed.

Lemma prefix_wire cs a b :
  String.prefix (wire cs a) (wire cs (a +:+ b)) = true.
Proof.
  unfold CacheService.getPrefixedKey.
  replace (keyPrefix cs +:+ ":" +:+ a +:+ b)
    with ((keyPrefix cs +:+ ":" +:+ a) +:+ b) by (by rewrite !app_assoc_s).
  apply prefix_app.
Qed.

Lemma list_key_prefix prefix p l :
  String.prefix (prefix +:+ ":users:list:")
    (prefix +:+ ":" +:+ LegacyKeys.generateUsersListKey p l) = true.
Proof.
  unfold LegacyKeys.generateUsersListKey.
  destruct (truthy_num p && truthy_num l).
  - change "users:list:page:" with ("users:list:" +:+ "page:").
    rewrite !app_assoc_s.
    change (":" +:+ "users:list:" +:+ ?x) with (":users:list:" +:+ x).
    rewrite <-(app_assoc_s prefix). apply prefix_app.
  - change (prefix +:+ ":" +:+ "users:list:all")
      with (prefix +:+ ":users:list:" +:+ "all").
    rewrite <-(app_assoc_s prefix). apply prefix_app.
Qed.

End WriteFacts.

Section WriteTheorems.
Import UserRepository.
Context {DB : Type} `{UserModel DB} `{UserQueries DB} (env : Env).

Abbreviation wire := CacheService.getPrefixedKey.


(** X18.  Reads after a write go to the store.  Once a create, an update
    or a delete has completed on a connected cache that answers, under a
    prefix with no glob character, the next [findAll], for every
    pagination, returns the rows of the store, and after an update or a
    delete of a user the next [findById] of that user returns what the
    store has: nothing that was cached before the write is served. *)
Theorem reads_after_a_write m (w : @World DB) result d :
  healthy (cacheService w) →
  Redis.glob_plain (keyPrefix (cacheService w)) = true →
  store_side m (store w) = (Ok result, d) →
  (∀ pagination rows d',
     findMany (window pagination) d = (Ok rows, d') →
     (findAll env pagination (run m w).2).1
     = Ok (VArray (map row_value rows)))
  ∧ (∀ userId row d',
       writes_row m userId (store w) →
       findUnique userId d = (Ok row, d') →
       (findById env userId (run m w).2).1
       = Ok (from_option row_value null row)).
Proof.
  intros Hh Hplain Hstore.
  destruct (write_on_healthy env m w result d Hh Hstore)
    as (_ & Hd & Hh' & Hp & Hlook).
  destruct (run m w).2 as [d0 cs] eqn:Hw. cbn [store cacheService] in *.
  subst d0. split.
  - intros pagination rows d' Hmany. unfold findAll, bind.
    set (key := LegacyKeys.generateUsersListKey _ _).
    destruct (healthy_get key cs Hh') as (cs1 & Hget & Hh1 & Hb1 & Hp1).
    rewrite (on_cache_eq _ {| store := d; cacheService := cs |} _ _ Hget).
    unfold cached.
    rewrite Hlook, (wire_prefix (cacheService w) cs) by done.
    rewrite invalidation_of_lists by (done || apply list_key_prefix).
    cbn [truthy null]. unfold on_store. cbn [store cacheService].
    rewrite Hmany.
    destruct (on_cache_set env key (VArray (map row_value rows)) (Some (Num 300))
                {| store := d'; cacheService := cs1 |}) as (r & cs2 & ->).
    done.
  - intros userId row d' Hrow Hfind. unfold findById, bind.
    set (key := LegacyKeys.generateUserKey userId).
    destruct (healthy_get key cs Hh') as (cs1 & Hget & Hh1 & Hb1 & Hp1).
    rewrite (on_cache_eq _ {| store := d; cacheService := cs |} _ _ Hget).
    unfold cached.
    rewrite Hlook, (wire_prefix (cacheService w) cs) by done.
    assert (Hgone : existsb
                      (fun call => removes (keyPrefix (cacheService w)) call
                                     (wire (cacheService w) key))
                      (invalidation_of m (row_before m (store w)) result)
                    = true).
    { destruct m as [data|i data|i]; cbn [writes_row] in Hrow; [done| |].
      - subst i. cbn [invalidation_of user_invalidation app existsb removes].
        by rewrite bool_decide_eq_true_2.
      - destruct Hrow as [-> [u Hu]]. rewrite Hu.
        cbn [invalidation_of user_invalidation app existsb removes].
        by rewrite bool_decide_eq_true_2. }
    rewrite Hgone. cbn [truthy null]. unfold on_store.
    cbn [store cacheService]. rewrite Hfind.
    destruct row as [u|]; [|done].
    destruct (on_cache_set env key (row_value u) (Some (Num 900))
                {| store := d'; cacheService := cs1 |}) as (r & cs2 & ->).
    done.
Qed.

(** X19.  What a create takes from the cache.  Once [create] has
    completed on a connected cache that answers, under a prefix with no
    glob character, the keys that begin with [users:list:] are gone and
    every other key of the backend is as it was. *)
Theorem create_invalidates_lists data (w : @World DB) result d :
  healthy (cacheService w) →
  Redis.glob_plain (keyPrefix (cacheService w)) = true →
  model_create data (store w) = (Ok result, d) →
  (create data w).1 = Ok result
  ∧ ∀ k, backend (cacheService (create data w).2) !! k
         = if String.prefix (wire (cacheService w) "users:list:") k
           then None else backend (cacheService w) !! k.
Proof.
  intros Hh Hplain Hstore.
  destruct (write_on_healthy env (Create data) w result d Hh Hstore)
    as (Hres & _ & _ & _ & Hlook).
  split; [done|]. intros k. cbn [run] in Hlook. rewrite Hlook.
  cbn [invalidation_of list_invalidation existsb].
  by rewrite removes_lists, orb_false_r.
Qed.

(** X20.  What a delete takes from the cache.  Once [delete] has found
    the row and completed on a connected cache that answers, under a
    prefix with no glob character, the by-id key of the user is gone, the
    by-e-mail key of the row is gone when its e-mail is not empty, the
    keys that begin with [users:list:] are gone, and every other key of
    the backend is as it was. *)
Theorem delete_invalidates userId (w : @World DB) u d1 result d2 :
  healthy (cacheService w) →
  Redis.glob_plain (keyPrefix (cacheService w)) = true →
  findUnique userId (store w) = (Ok (Some u), d1) →
  model_delete userId d1 = (Ok result, d2) →
  (delete userId w).1 = Ok result
  ∧ ∀ k, backend (cacheService (delete userId w).2) !! k
         = if bool_decide
                (k = wire (cacheService w) (LegacyKeys.generateUserKey userId))
              || negb (String.eqb (email u) "")
                 && bool_decide
                      (k = wire (cacheService w)
                             (LegacyKeys.generateUserByEmailKey (email u)))
              || String.prefix (wire (cacheService w) "users:list:") k
           then None else backend (cacheService w) !! k.
Proof.
  intros Hh Hplain Hfind Hdelete.
  destruct (write_on_healthy env (Delete userId) w result d2 Hh)
    as (Hres & _ & _ & _ & Hlook).
  { cbn [store_side]. unfold bind. by rewrite Hfind, Hdelete. }
  split; [done|]. intros k. cbn [run] in Hlook. rewrite Hlook.
  cbn [row_before invalidation_of]. rewrite Hfind.
  rewrite (update_removes _ userId (Some (email u)) None k Hplain).
  cbn [truthy_str andb default]. by rewrite orb_false_r.
Qed.

(** X21.  The two methods that clear the cache by hand.  On a connected
    cache that answers, under a prefix with no glob character,
    [clearUserCache] removes the by-id key of the user and nothing else,
    so the by-e-mail key of the user stays; [clearAllUsersCache] removes
    the keys that begin with [user:] or [users:], which are all the keys
    the repository writes, and nothing else. *)
Theorem clearing_the_cache userId (w : @World DB) :
  healthy (cacheService w) →
  Redis.glob_plain (keyPrefix (cacheService w)) = true →
  ((clearUserCache userId w).1 = Ok tt
   ∧ ∀ k, backend (cacheService (clearUserCache userId w).2) !! k
          = if bool_decide
                 (k = wire (cacheService w) (LegacyKeys.generateUserKey userId))
            then None else backend (cacheService w) !! k)
  ∧ ((clearAllUsersCache w).1 = Ok tt
     ∧ (∀ k, backend (cacheService (clearAllUsersCache w).2) !! k
             = if String.prefix (wire (cacheService w) "user:") k
                  || String.prefix (wire (cacheService w) "users:") k
               then None else backend (cacheService w) !! k)
     ∧ ∀ id address page limit,
         backend (cacheService (clearAllUsersCache w).2)
           !! wire (cacheService w) (LegacyKeys.generateUserKey id) = None
         ∧ backend (cacheService (clearAllUsersCache w).2)
             !! wire (cacheService w)
                  (LegacyKeys.generateUserByEmailKey address) = None
         ∧ backend (cacheService (clearAllUsersCache w).2)
             !! wire (cacheService w)
                  (LegacyKeys.generateUsersListKey page limit) = None).
Proof.
  intros Hh Hplain.
  assert (Hglob : ∀ text k,
            Redis.glob_plain text = true →
            Redis.glob_match
              (keyPrefix (cacheService w) +:+ ":" +:+ text +:+ "*") k
            = String.prefix (wire (cacheService w) text) k).
  { intros text k Htext. unfold CacheService.getPrefixedKey.
    rewrite <-glob_prefix by (by rewrite !glob_plain_app, Hplain, Htext).
    by rewrite !app_assoc_s. }
  split.
  - unfold clearUserCache, bind.
    destruct (on_cache_delete env (LegacyKeys.generateUserKey userId) w)
      as [r ->].
    cbn [ret fst snd cacheService]. split; [done|]. intros k.
    destruct (invalidating_call env
                (CallDelete (LegacyKeys.generateUserKey userId))
                (cacheService w) Hh eq_refl) as (_ & _ & ->).
    done.
  - assert (Hrun : clearAllUsersCache w
                   = (Ok tt,
                      {| store := store w;
                         cacheService :=
                           replay env wire
                             [CallDeletePattern "user:*";
                              CallDeletePattern "users:*"]
                             (cacheService w) |})).
    { unfold clearAllUsersCache, bind.
      destruct (on_cache_deletePattern env "user:*" w) as [r1 ->].
      by destruct (on_cache_deletePattern env "users:*"
                     {| store := store w;
                        cacheService :=
                          after env wire (CallDeletePattern "user:*")
                            (cacheService w) |}) as [r2 ->]. }
    rewrite Hrun. cbn [fst snd cacheService].
    destruct (invalidating_calls env
                [CallDeletePattern "user:*"; CallDeletePattern "users:*"]
                (cacheService w) Hh eq_refl) as (_ & _ & Hlook).
    assert (Hk : ∀ k, backend
                        (replay env wire
                           [CallDeletePattern "user:*";
                            CallDeletePattern "users:*"] (cacheService w))
                      !! k
                 = if String.prefix (wire (cacheService w) "user:") k
                      || String.prefix (wire (cacheService w) "users:") k
                   then None else backend (cacheService w) !! k).
    { intros k. rewrite Hlook. cbn [existsb removes].
      rewrite <-(Hglob "user:"), <-(Hglob "users:") by done.
      by rewrite orb_false_r. }
    split_and!; [done|done|]. intros id address page limit.
    rewrite !Hk. split_and!.
    + unfold LegacyKeys.generateUserKey.
      by rewrite (prefix_wire (cacheService w) "user:" id).
    + change (LegacyKeys.generateUserByEmailKey address)
        with ("user:" +:+ ("email:" +:+ address)).
      by rewrite (prefix_wire (cacheService w) "user:").
    + unfold LegacyKeys.generateUsersListKey.
      destruct (truthy_num page && truthy_num limit).
      * change ("users:list:page:" +:+ ?x)
          with ("users:" +:+ ("list:page:" +:+ x)).
        by rewrite (prefix_wire (cacheService w) "users:"), orb_true_r.
      * change "users:list:all" with ("users:" +:+ "list:all").
        by rewrite (prefix_wire (cacheService w) "users:"), orb_true_r.
Qed.

End WriteTheorems.

(** ** The self-test *)

Section SelfTest.
Import CacheTest.
Context (env : Env).

Abbreviation wire := CacheService.getPrefixedKey.





Lemma array_text_not_empty items :
  String.eqb (text_of (VArray items)) "" = false.
Proof. unfold text_of. by cbn [stringify]. Qed.

(** A value that comes back from its JSON text has a text, and the
    parser reads the value from it. *)
Lemma round_trip_text v :
  round_trips v → stringify v = Some (text_of v) ∧ parse (text_of v) = Some v.
Proof.
  unfold round_trips, text_of. destruct (stringify v) as [text|]; [|done].
  intros Hround. split; [done|]. exact Hround.
Qed.



End SelfTest.

(** ** The base repository *)

Section BaseRepositoryFacts.
Import CacheKeyGenerator BaseRepository.
Context (env : Env) (entityName entityPluralName : string).

Abbreviation wire := CacheService.getPrefixedKey.

Lemma delete_step key cs :
  (CacheService.delete key;; ret tt) cs
  = (Ok tt, after env wire (CallDelete key) cs).
Proof.
  destruct (cache_calls_never_throw env wire key null None "" cs)
    as (_ & _ & [r Hr] & _).
  unfold bind, CacheService.delete. cbn [after].
  destruct (CacheOps.delete wire key cs) as [r' cs']. simpl in *.
  by rewrite Hr.
Qed.

Lemma deletePattern_step pattern cs :
  (CacheService.deletePattern pattern;; ret tt) cs
  = (Ok tt, after env wire (CallDeletePattern pattern) cs).
Proof.
  destruct (cache_calls_never_throw env wire "" null None pattern cs)
    as (_ & _ & _ & [r Hr] & _).
  unfold bind, CacheService.deletePattern. cbn [after].
  destruct (CacheOps.deletePattern wire pattern cs) as [r' cs']. simpl in *.
  by rewrite Hr.
Qed.

Lemma replay_cons call calls cs :
  replay env wire (call :: calls) cs
  = replay env wire calls (after env wire call cs).
Proof. reflexivity. Qed.

Lemma replay_append calls1 calls2 cs :
  replay env wire (calls1 ++ calls2) cs
  = replay env wire calls2 (replay env wire calls1 cs).
Proof. unfold replay. by rewrite foldl_app. Qed.

(** [invalidateMultiplePatterns] never throws, and the cache it leaves is
    the cache after its deletes, in order. *)
Lemma invalidateMultiplePatterns_trace entityId additionalFields cs :
  invalidateMultiplePatterns entityName entityId additionalFields cs
  = (Ok tt,
     replay env wire
       (multiple_invalidation entityName entityId additionalFields) cs).
Proof.
  unfold invalidateMultiplePatterns, multiple_invalidation.
  rewrite replay_cons. unfold bind at 1.
  destruct (cache_calls_never_throw env wire (entityById entityName entityId)
              null None "" cs) as (_ & _ & [r Hr] & _).
  unfold CacheService.delete at 1. cbn [after].
  destruct (CacheOps.delete wire (entityById entityName entityId) cs)
    as [r' cs1]. cbn [fst snd] in *. subst r'.
  destruct additionalFields as [changes|]; [|done]. cbn [default from_option].
  unfold Datatypes.id. clear. revert cs1.
  induction changes as [|ch changes IH]; intros cs1; [done|].
  cbn [for_each flat_map]. rewrite replay_append.
  unfold bind at 1. unfold bind at 1. unfold change_invalidation.
  destruct (truthy_str (oldValue ch)).
  - rewrite delete_step.
    destruct (truthy_str (newValue ch) && _).
    + rewrite delete_step. apply IH.
    + apply IH.
  - unfold ret at 1.
    destruct (truthy_str (newValue ch) && _).
    + rewrite delete_step. apply IH.
    + apply IH.
Qed.

Lemma multiple_invalidation_invalidating entityId additionalFields :
  forallb invalidating
    (multiple_invalidation entityName entityId additionalFields) = true.
Proof.
  unfold multiple_invalidation. cbn [forallb invalidating andb].
  induction (default [] additionalFields) as [|ch changes IH]; [done|].
  cbn [flat_map]. rewrite forallb_app, IH, andb_true_r.
  unfold change_invalidation. by repeat case_match.
Qed.

End BaseRepositoryFacts.

Section BaseRepositoryTheorems.
Import CacheKeyGenerator BaseRepository.
Context (env : Env) (entityName entityPluralName : string).

Abbreviation wire := CacheService.getPrefixedKey.

(** What [invalidateListCaches] leaves, on a connected cache that
    answers. *)
Lemma invalidateListCaches_run cs :
  healthy cs →
  Redis.glob_plain (keyPrefix cs) = true →
  Redis.glob_plain entityPluralName = true →
  ∃ cs', invalidateListCaches entityPluralName cs = (Ok tt, cs')
         ∧ healthy cs'
         ∧ keyPrefix cs' = keyPrefix cs
         ∧ ∀ k, backend cs' !! k
                = if String.prefix (wire cs (entityPluralName +:+ ":list:")) k
                  then None else backend cs !! k.
Proof.
  intros Hh Hplain Hname. unfold invalidateListCaches.
  rewrite (deletePattern_step env). eexists. split; [reflexivity|].
  destruct (invalidating_call env
              (CallDeletePattern (entityPattern entityPluralName (Some "list:*")))
              cs Hh eq_refl) as (Hh' & Hp & Hlook).
  split_and!; [done|done|]. intros k. rewrite Hlook. cbn [removes].
  unfold entityPattern, CacheService.getPrefixedKey.
  cbn [from_option]. unfold Datatypes.id.
  rewrite <-glob_prefix by (by rewrite !glob_plain_app, Hplain, Hname).
  by rewrite !app_assoc_s.
Qed.

Lemma list_key_covered cs pagination filters :
  String.prefix (wire cs (entityPluralName +:+ ":list:"))
    (wire cs (entityList entityPluralName pagination filters)) = true.
Proof.
  destruct (entityList_shape entityPluralName pagination filters)
    as [rest ->].
  rewrite <-(app_assoc_s entityPluralName).
  apply (prefix_wire cs (entityPluralName +:+ ":list:") rest).
Qed.

(** X23.  [invalidateListCaches] takes away every list the repository can
    have cached.  On a connected cache that answers, with no glob
    character in the prefix and in the plural name, the key of the list
    is gone after it for every pagination and every filter object, and a
    key that does not begin with [entityPluralName:list:] is as it was.
    So a list that [cacheList] has stored, which [getListFromCache] gives
    back when its items come back from their JSON text, is a miss after
    [invalidateListCaches]. *)
Theorem invalidateListCaches_covers cs :
  healthy cs →
  Redis.glob_plain (keyPrefix cs) = true →
  Redis.glob_plain entityPluralName = true →
  (invalidateListCaches entityPluralName cs).1 = Ok tt
  ∧ (∀ pagination filters,
       backend (invalidateListCaches entityPluralName cs).2
         !! wire cs (entityList entityPluralName pagination filters) = None)
  ∧ (∀ k, String.prefix (wire cs (entityPluralName +:+ ":list:")) k = false →
          backend (invalidateListCaches entityPluralName cs).2 !! k
          = backend cs !! k)
  ∧ (∀ entities pagination filters ttl,
       forallb plain entities = true →
       positive (default (Num SHORT) ttl) = true →
       (getListFromCache entityPluralName pagination filters
          (cacheList env entityPluralName entities pagination filters ttl
             cs).2).1
       = Ok (VArray entities)
       ∧ (getListFromCache entityPluralName pagination filters
            (invalidateListCaches entityPluralName
               (cacheList env entityPluralName entities pagination filters
                  ttl cs).2).2).1
         = Ok null).
Proof.
  intros Hh Hplain Hname.
  destruct (invalidateListCaches_run cs Hh Hplain Hname)
    as (cs' & Hrun & _ & _ & Hlook).
  rewrite Hrun. cbn [fst snd]. split_and!; [done| | |].
  - intros pagination filters. by rewrite Hlook, list_key_covered.
  - intros k Hk. by rewrite Hlook, Hk.
  - intros entities pagination filters ttl Hplains Httl.
    set (key := entityList entityPluralName pagination filters).
    destruct (round_trip_text (VArray entities)
                (plain_round_trips (VArray entities) Hplains))
      as [Htext Hparse].
    apply positive_whole in Httl as [Hnum Httl].
    destruct (healthy_set env key (VArray entities)
                (whole (default (Num SHORT) ttl)) cs
                _ Hh Htext Httl) as (cs1 & Hset & Hh1 & Hb1 & Hp1).
    rewrite <-Hnum in Hset.
    assert (Hcache : (cacheList env entityPluralName entities pagination
                        filters ttl cs).2 = cs1).
    { unfold cacheList, bind. fold key. by rewrite Hset. }
    rewrite Hcache. unfold getListFromCache. fold key. split.
    + destruct (healthy_get key cs1 Hh1) as (cs2 & -> & _).
      cbn [fst]. unfold cached.
      rewrite Hb1, (wire_prefix cs cs1) by done.
      rewrite lookup_insert_eq. cbn [Redis.payload].
      by rewrite array_text_not_empty, Hparse.
    + destruct (invalidateListCaches_run cs1 Hh1)
        as (cs2 & -> & Hh2 & Hp2 & Hlook2); [congruence|done|].
      cbn [snd].
      destruct (healthy_get key cs2 Hh2) as (cs3 & -> & _).
      cbn [fst]. unfold cached.
      rewrite Hlook2, (wire_prefix cs1 cs2) by done.
      unfold key. by rewrite list_key_covered.
Qed.
(** X24.  [invalidateAllCaches] takes away every key of the entity.  On a
    connected cache that answers, with no glob character in the prefix
    and in the two names, the keys that begin with [entityName:] or with
    [entityPluralName:] are gone after it, among them every by-id,
    by-field and list key of the repository, and every other key is as
    it was. *)
Theorem invalidateAllCaches_covers cs :
  healthy cs →
  Redis.glob_plain (keyPrefix cs) = true →
  Redis.glob_plain entityName = true →
  Redis.glob_plain entityPluralName = true →
  (invalidateAllCaches entityName entityPluralName cs).1 = Ok tt
  ∧ (∀ k, backend (invalidateAllCaches entityName entityPluralName cs).2 !! k
          = if String.prefix (wire cs (entityName +:+ ":")) k
               || String.prefix (wire cs (entityPluralName +:+ ":")) k
            then None else backend cs !! k)
  ∧ (∀ id field value pagination filters,
       backend (invalidateAllCaches entityName entityPluralName cs).2
         !! wire cs (entityById entityName id) = None
       ∧ backend (invalidateAllCaches entityName entityPluralName cs).2
           !! wire cs (entityByField entityName field value) = None
       ∧ backend (invalidateAllCaches entityName entityPluralName cs).2
           !! wire cs (entityList entityPluralName pagination filters)
         = None).
Proof.
  intros Hh Hplain Hname Hplural.
  assert (Hrun : invalidateAllCaches entityName entityPluralName cs
                 = (Ok tt,
                    replay env wire
                      [CallDeletePattern (entityPattern entityName None);
                       CallDeletePattern (entityPattern entityPluralName None)]
                      cs)).
  { unfold invalidateAllCaches. cbn [for_each]. unfold bind at 1.
    rewrite (deletePattern_step env). unfold bind at 1.
    by rewrite (deletePattern_step env). }
  rewrite Hrun. cbn [fst snd].
  destruct (invalidating_calls env
              [CallDeletePattern (entityPattern entityName None);
               CallDeletePattern (entityPattern entityPluralName None)]
              cs Hh eq_refl) as (_ & _ & Hlook).
  assert (Hglob : ∀ name k,
            Redis.glob_plain name = true →
            removes (keyPrefix cs) (CallDeletePattern (entityPattern name None)) k
            = String.prefix (wire cs (name +:+ ":")) k).
  { intros name k Hn. cbn [removes].
    unfold entityPattern, CacheService.getPrefixedKey.
    cbn [from_option]. unfold Datatypes.id.
    rewrite <-glob_prefix by (by rewrite !glob_plain_app, Hplain, Hn).
    by rewrite !app_assoc_s. }
  assert (Hk : ∀ k,
            backend
              (replay env wire
                 [CallDeletePattern (entityPattern entityName None);
                  CallDeletePattern (entityPattern entityPluralName None)] cs)
            !! k
            = if String.prefix (wire cs (entityName +:+ ":")) k
                 || String.prefix (wire cs (entityPluralName +:+ ":")) k
              then None else backend cs !! k).
  { intros k. rewrite Hlook. cbn [existsb].
    by rewrite !Hglob, orb_false_r by done. }
  split_and!; [done|done|]. intros id field value pagination filters.
  rewrite !Hk. split_and!.
  - unfold entityById. rewrite <-(app_assoc_s entityName).
    by rewrite (prefix_wire cs (entityName +:+ ":")).
  - unfold entityByField. rewrite <-(app_assoc_s entityName).
    by rewrite (prefix_wire cs (entityName +:+ ":")).
  - destruct (entityList_shape entityPluralName pagination filters)
      as [rest ->].
    change (entityPluralName +:+ ":list:" +:+ rest)
      with (entityPluralName +:+ ":" +:+ ("list:" +:+ rest)).
    rewrite <-(app_assoc_s entityPluralName).
    by rewrite (prefix_wire cs (entityPluralName +:+ ":")), orb_true_r.
Qed.

(** X25.  [invalidateMultiplePatterns] never throws, and on a connected
    cache that answers it takes away the by-id key of the entity and,
    for each field it is given, the by-field key of the old value and of
    the new value, an empty value apart; a key that is none of these is
    as it was. *)
Theorem invalidateMultiplePatterns_removes entityId additionalFields cs :
  healthy cs →
  (invalidateMultiplePatterns entityName entityId additionalFields cs).1
  = Ok tt
  ∧ backend (invalidateMultiplePatterns entityName entityId
               additionalFields cs).2
    !! wire cs (entityById entityName entityId) = None
  ∧ (∀ ch v,
       ch ∈ default [] additionalFields →
       oldValue ch = Some v ∨ newValue ch = Some v → v ≠ "" →
       backend (invalidateMultiplePatterns entityName entityId
                  additionalFields cs).2
       !! wire cs (entityByField entityName (changed ch) v) = None)
  ∧ (∀ k,
       k ≠ wire cs (entityById entityName entityId) →
       (∀ ch v,
          ch ∈ default [] additionalFields →
          oldValue ch = Some v ∨ newValue ch = Some v → v ≠ "" →
          k ≠ wire cs (entityByField entityName (changed ch) v)) →
       backend (invalidateMultiplePatterns entityName entityId
                  additionalFields cs).2 !! k
       = backend cs !! k).
Proof.
  intros Hh. rewrite (invalidateMultiplePatterns_trace env). cbn [fst snd].
  destruct (invalidating_calls env
              (multiple_invalidation entityName entityId additionalFields)
              cs Hh (multiple_invalidation_invalidating _ _ _))
    as (_ & _ & Hlook).
  assert (Hne : ∀ s, s ≠ "" → truthy_str (Some s) = true).
  { intros s Hs. apply negb_true_iff. by apply String.eqb_neq. }
  split_and!; [done| | |].
  - rewrite Hlook. unfold multiple_invalidation. cbn [existsb removes].
    by rewrite bool_decide_eq_true_2.
  - intros ch v Hch Hv Hnonempty. rewrite Hlook.
    assert (Hex : existsb
                    (fun call => removes (keyPrefix cs) call
                       (wire cs (entityByField entityName (changed ch) v)))
                    (multiple_invalidation entityName entityId
                       additionalFields) = true); [|by rewrite Hex].
    unfold multiple_invalidation. cbn [existsb].
    apply orb_true_iff. right.
    apply existsb_exists.
    exists (CallDelete (entityByField entityName (changed ch) v)).
    split; [|cbn [removes]; by apply bool_decide_eq_true_2].
    apply in_flat_map. exists ch. split; [by apply list_elem_of_In|].
    unfold change_invalidation. apply in_or_app.
    destruct (oldValue ch) as [old|] eqn:Hold,
      (newValue ch) as [new|] eqn:Hnew; destruct Hv as [Hv|Hv];
      simplify_eq.
    + left. rewrite (Hne v Hnonempty). by left.
    + destruct (decide (v = old)) as [->|Hdiff].
      * left. rewrite (Hne old Hnonempty). by left.
      * right. rewrite (Hne v Hnonempty). cbn [andb].
        rewrite bool_decide_eq_false_2 by congruence. by left.
    + left. rewrite (Hne v Hnonempty). by left.
    + right. rewrite (Hne v Hnonempty). cbn [andb].
      rewrite bool_decide_eq_false_2 by done. by left.
  - intros k Hid Hfields. rewrite Hlook.
    assert (Hex : existsb (fun call => removes (keyPrefix cs) call k)
                    (multiple_invalidation entityName entityId
                       additionalFields) = false); [|by rewrite Hex].
    unfold multiple_invalidation. cbn [existsb removes].
    rewrite (bool_decide_eq_false_2 _ Hid). cbn [orb].
    apply not_true_is_false. intros (call & Hin & Hrem)%existsb_exists.
    apply in_flat_map in Hin as (ch & Hch%list_elem_of_In & Hin).
    unfold change_invalidation in Hin. apply in_app_or in Hin.
    destruct Hin as [Hin|Hin].
    + destruct (oldValue ch) as [old|] eqn:Hold; [|done].
      cbn [truthy_str] in Hin.
      destruct (String.eqb old "") eqn:Hempty; [done|].
      apply String.eqb_neq in Hempty.
      destruct Hin as [<-|[]]. cbn [removes default from_option] in Hrem.
      apply bool_decide_eq_true in Hrem.
      exact (Hfields ch old Hch (or_introl Hold) Hempty Hrem).
    + destruct (newValue ch) as [new|] eqn:Hnew; [|done].
      cbn [truthy_str] in Hin.
      destruct (String.eqb new "") eqn:Hempty; [done|].
      apply String.eqb_neq in Hempty.
      cbn [negb andb] in Hin. case_match; [|done].
      destruct Hin as [<-|[]]. cbn [removes default from_option] in Hrem.
      apply bool_decide_eq_true in Hrem.
      exact (Hfields ch new Hch (or_intror Hnew) Hempty Hrem).
Qed.

End BaseRepositoryTheorems.

(** ** The service and the repository on concrete states *)

Section ServiceRuns.

(** X9 on the warm cache: a write and a delete of the key of user 1 leave
    the key of the product as it was. *)
Lemma point_calls_touch_one_key_witness :
  backend (CacheService.set Example.env "user:1" Example.testValue
             (Some (Num 60)) (Example.connected Example.warm [])).2
    !! "app:product:9"
  = backend (Example.connected Example.warm []) !! "app:product:9"
  ∧ backend (CacheService.delete "user:1"
               (Example.connected Example.warm [])).2
      !! "app:product:9"
    = backend (Example.connected Example.warm []) !! "app:product:9".
Proof.
  destruct (point_calls_touch_one_key Example.env
              CacheService.getPrefixedKey "user:1" Example.testValue
              (Some (Num 60)) (Example.connected Example.warm [])
              "app:product:9") as (_ & Hset & Hdel & _); [discriminate|].
  exact (conj Hset Hdel).
Defined.


(** X11 on the shared backend: a pattern that matches everything stays in
    the namespace of the service. *)
Lemma other_namespaces_untouched_witness :
  backend (after Example.env CacheService.getPrefixedKey
             (CallDeletePattern "*") (Example.connected Example.shared []))
    !! "billing:invoice:7"
  = backend (Example.connected Example.shared []) !! "billing:invoice:7".
Proof.
  apply other_namespaces_untouched; [reflexivity|discriminate|reflexivity].
Defined.

(** X12 on an entry that another program wrote as it was. *)
Lemma unreadable_entry_is_a_miss_witness :
  (CacheService.get "user:1" (Example.connected Example.corrupt [])).1
  = Ok null
  ∧ (CacheService.exists_ "user:1" (Example.connected Example.corrupt [])).1
    = Ok true.
Proof.
  apply (unreadable_entry_is_a_miss CacheService.getPrefixedKey "user:1"
           (Example.connected Example.corrupt [])
           (Example.entry "oops" 900)).
  - eexists. split; [split; reflexivity|reflexivity].
  - vm_compute. reflexivity.
  - vm_compute. reflexivity.
Defined.

(** X13 on the warm cache. *)
Lemma delete_then_get_witness :
  (CacheService.delete "user:1" (Example.connected Example.warm [])).1
  = Ok true
  ∧ (CacheService.get "user:1"
       (CacheService.delete "user:1"
          (Example.connected Example.warm [])).2).1 = Ok null.
Proof.
  destruct (delete_then_get "user:1" (Example.connected Example.warm [])
              eq_refl) as (Hdel & Hget & _).
  exact (conj Hdel Hget).
Defined.

End ServiceRuns.

Section MoreRepositoryRuns.
Import UserRepository.

(** X15 with the service offline: the row comes from the store, its date
    a date. *)
Lemma reads_without_the_cache_witness :
  findById Example.env "1"
    (Example.world (Example.users Example.john)
       (Example.offline Example.warm))
  = (Ok (row_value Example.john),
     Example.world (Example.users Example.john)
       (Example.offline Example.warm)).
Proof.
  destruct (reads_without_the_cache (DB := MemStore.t) Example.env "1"
              "john@test.com" None
              (Example.world (Example.users Example.john)
                 (Example.offline Example.warm)) eq_refl) as (Hid & _).
  exact Hid.
Defined.

(** X16 on an empty cache: the first read is the row of the store, the
    second is served from the cache though the store cannot be reached
    by then. *)
Lemma findById_read_through_witness :
  (findById Example.env "1"
     (Example.world (Example.users Example.john)
        (Example.connected ∅ []))).1
  = Ok (row_value Example.john)
  ∧ (findById Example.env "1"
       {| store := Example.unreachable;
          cacheService :=
            cacheService
              (findById Example.env "1"
                 (Example.world (Example.users Example.john)
                    (Example.connected ∅ []))).2 |}).1
    = Ok (cached_value Example.john).
Proof.
  edestruct (findById_read_through (DB := MemStore.t) Example.env "1"
               (Example.world (Example.users Example.john)
                  (Example.connected ∅ [])) Example.john)
    as (Hfirst & _ & _ & Hsecond).
  - eexists. split; [split; reflexivity|reflexivity].
  - reflexivity.
  - vm_compute. reflexivity.
  - split; [exact Hfirst|]. apply (Hsecond Example.unreachable).
Defined.

(** X17 on an empty cache: after the read by e-mail, the read by id is
    served from the cache. *)
Lemma findByEmail_caches_both_keys_witness :
  (findByEmail Example.env "john@test.com"
     (Example.world (Example.users Example.john)
        (Example.connected ∅ []))).1
  = Ok (row_value Example.john)
  ∧ (findById Example.env (id Example.john)
       {| store := Example.unreachable;
          cacheService :=
            cacheService
              (findByEmail Example.env "john@test.com"
                 (Example.world (Example.users Example.john)
                    (Example.connected ∅ []))).2 |}).1
    = Ok (cached_value Example.john).
Proof.
  edestruct (findByEmail_caches_both_keys (DB := MemStore.t) Example.env
               "john@test.com"
               (Example.world (Example.users Example.john)
                  (Example.connected ∅ [])) Example.john)
    as (Hfirst & _ & Hsecond).
  - eexists. split; [split; reflexivity|reflexivity].
  - reflexivity.
  - vm_compute. reflexivity.
  - split; [exact Hfirst|]. apply (Hsecond Example.unreachable).
Defined.

(** X18 on the warm cache: after the update of John's e-mail the list and
    the user are read from the store. *)
Lemma reads_after_a_write_witness :
  (findAll Example.env None
     (run (Update "1" (Example.new_email "jane@test.com"))
        (Example.world (Example.users Example.john)
           (Example.connected Example.warm []))).2).1
  = Ok (VArray [row_value Example.jane])
  ∧ (findById Example.env "1"
       (run (Update "1" (Example.new_email "jane@test.com"))
          (Example.world (Example.users Example.john)
             (Example.connected Example.warm []))).2).1
    = Ok (row_value Example.jane).
Proof.
  edestruct (reads_after_a_write (DB := MemStore.t) Example.env
               (Update "1" (Example.new_email "jane@test.com"))
               (Example.world (Example.users Example.john)
                  (Example.connected Example.warm [])))
    as (Hall & Hone).
  - eexists. split; [split; reflexivity|reflexivity].
  - reflexivity.
  - vm_compute. reflexivity.
  - split.
    + eapply (Hall None [Example.jane]). vm_compute. reflexivity.
    + eapply (Hone "1" (Some Example.jane)); [reflexivity|].
      vm_compute. reflexivity.
Defined.

(** X19 on the warm cache: the list is gone, the user stays. *)
Lemma create_invalidates_lists_witness :
  backend (cacheService
             (create Example.mary
                (Example.world (Example.users Example.john)
                   (Example.connected Example.warm []))).2)
    !! "app:users:list:all" = None
  ∧ backend (cacheService
               (create Example.mary
                  (Example.world (Example.users Example.john)
                     (Example.connected Example.warm []))).2)
      !! "app:user:1" = Some (Example.entry "{}" 900).
Proof.
  edestruct (create_invalidates_lists (DB := MemStore.t) Example.env
               Example.mary
               (Example.world (Example.users Example.john)
                  (Example.connected Example.warm [])))
    as (_ & Hlook).
  - eexists. split; [split; reflexivity|reflexivity].
  - reflexivity.
  - vm_compute. reflexivity.
  - split; [exact (Hlook "app:users:list:all")|exact (Hlook "app:user:1")].
Defined.

(** X20 on the warm cache: the keys of John are gone, the product
    stays. *)
Lemma delete_invalidates_witness :
  backend (cacheService
             (delete "1"
                (Example.world (Example.users Example.john)
                   (Example.connected Example.warm []))).2)
    !! "app:user:1" = None
  ∧ backend (cacheService
               (delete "1"
                  (Example.world (Example.users Example.john)
                     (Example.connected Example.warm []))).2)
      !! "app:user:email:john@test.com" = None
  ∧ backend (cacheService
               (delete "1"
                  (Example.world (Example.users Example.john)
                     (Example.connected Example.warm []))).2)
      !! "app:product:9" = Some (Example.entry "{}" 900).
Proof.
  edestruct (delete_invalidates (DB := MemStore.t) Example.env "1"
               (Example.world (Example.users Example.john)
                  (Example.connected Example.warm [])) Example.john)
    as (_ & Hlook).
  - eexists. split; [split; reflexivity|reflexivity].
  - reflexivity.
  - vm_compute. reflexivity.
  - vm_compute. reflexivity.
  - split_and!;
      [exact (Hlook "app:user:1")
      |exact (Hlook "app:user:email:john@test.com")
      |exact (Hlook "app:product:9")].
Defined.

(** X21 on the warm cache: [clearUserCache] leaves the by-e-mail key of
    the user, [clearAllUsersCache] takes it and leaves the product. *)
Lemma clearing_the_cache_witness :
  backend (cacheService
             (clearUserCache "1"
                (Example.world (Example.users Example.john)
                   (Example.connected Example.warm []))).2)
    !! "app:user:email:john@test.com" = Some (Example.entry "{}" 900)
  ∧ backend (cacheService
               (clearAllUsersCache
                  (Example.world (Example.users Example.john)
                     (Example.connected Example.warm []))).2)
      !! "app:user:email:john@test.com" = None
  ∧ backend (cacheService
               (clearAllUsersCache
                  (Example.world (Example.users Example.john)
                     (Example.connected Example.warm []))).2)
      !! "app:product:9" = Some (Example.entry "{}" 900).
Proof.
  destruct (clearing_the_cache (DB := MemStore.t) Example.env "1"
              (Example.world (Example.users Example.john)
                 (Example.connected Example.warm [])))
    as ((_ & Hone) & _ & Hall & _).
  - eexists. split; [split; reflexivity|reflexivity].
  - reflexivity.
  - split_and!;
      [exact (Hone "app:user:email:john@test.com")
      |exact (Hall "app:user:email:john@test.com")
      |exact (Hall "app:product:9")].
Defined.

End MoreRepositoryRuns.

Section BaseRepositoryRuns.
Import CacheKeyGenerator BaseRepository.

(** X23 on the cache of the product repository. *)
Lemma invalidateListCaches_covers_witness :
  backend (invalidateListCaches "products"
             (Example.connected Example.catalog [])).2
    !! "app:products:list:page:2:limit:10:category_id:7" = None
  ∧ backend (invalidateListCaches "products"
               (Example.connected Example.catalog [])).2
      !! "app:product:9" = Some (Example.entry "{}" 900).
Proof.
  destruct (invalidateListCaches_covers Example.env "products"
              (Example.connected Example.catalog []))
    as (_ & Hlists & Hother & _).
  - eexists. split; [split; reflexivity|reflexivity].
  - reflexivity.
  - reflexivity.
  - split.
    + exact (Hlists (Some {| page := Some (Num 2); limit := Some (Num 10) |})
               (Some [("category_id", PNum 7)])).
    + exact (Hother "app:product:9" eq_refl).
Defined.

(** X24 on the cache of the product repository: the user stays. *)
Lemma invalidateAllCaches_covers_witness :
  backend (invalidateAllCaches "product" "products"
             (Example.connected Example.catalog [])).2
    !! "app:product:slug:mug" = None
  ∧ backend (invalidateAllCaches "product" "products"
               (Example.connected Example.catalog [])).2
      !! "app:user:1" = Some (Example.entry "{}" 900).
Proof.
  destruct (invalidateAllCaches_covers Example.env "product" "products"
              (Example.connected Example.catalog []))
    as (_ & Hlook & _).
  - eexists. split; [split; reflexivity|reflexivity].
  - reflexivity.
  - reflexivity.
  - reflexivity.
  - split; [exact (Hlook "app:product:slug:mug")|exact (Hlook "app:user:1")].
Defined.

(** X25 on the cache of the product repository: a product whose slug
    went from [mug] to [cup]. *)
Lemma invalidateMultiplePatterns_removes_witness :
  backend (invalidateMultiplePatterns "product" (IdString "9")
             (Some [ {| changed := "slug"; oldValue := Some "mug";
                        newValue := Some "cup" |} ])
             (Example.connected Example.catalog [])).2
    !! "app:product:9" = None
  ∧ backend (invalidateMultiplePatterns "product" (IdString "9")
               (Some [ {| changed := "slug"; oldValue := Some "mug";
                          newValue := Some "cup" |} ])
               (Example.connected Example.catalog [])).2
      !! "app:product:slug:cup" = None.
Proof.
  destruct (invalidateMultiplePatterns_removes Example.env "product"
              (IdString "9")
              (Some [ {| changed := "slug"; oldValue := Some "mug";
                         newValue := Some "cup" |} ])
              (Example.connected Example.catalog []))
    as (_ & Hid & Hfields & _).
  - eexists. split; [split; reflexivity|reflexivity].
  - split; [exact Hid|].
    apply (Hfields {| changed := "slug"; oldValue := Some "mug";
                      newValue := Some "cup" |} "cup").
    + apply list_elem_of_here.
    + by right.
    + discriminate.
Defined.

End BaseRepositoryRuns.

(** ** The callers of the repository *)


Section ReadFrames.
Import UserRepository.
Context {DB : Type} `{UserModel DB} `{UserQueries DB} (env : Env).

Abbreviation wire := CacheService.getPrefixedKey.

(** A read of the cache inside the repository, in any state. *)
Lemma on_cache_get_frame key (w : @World DB) :
  ∃ r cs, on_cache (CacheService.get key) w
          = (Ok r, {| store := store w; cacheService := cs |})
          ∧ backend cs = backend (cacheService w)
          ∧ keyPrefix cs = keyPrefix (cacheService w).
Proof.
  destruct (on_cache_get env key w) as (r & cs & Hrun & Hget).
  exists r, cs. split; [done|].
  pose proof (get_backend wire key (cacheService w)) as Hb.
  pose proof (after_keyPrefix env wire (CallGet key) (cacheService w)) as Hp.
  cbn [after] in Hp. unfold CacheService.get in Hget.
  rewrite Hget in Hb, Hp. done.
Qed.

(** A write of the cache inside the repository, in any state. *)
Lemma on_cache_set_frame key v ttl (w : @World DB) :
  ∃ r cs, on_cache (CacheService.set env key v ttl) w
          = (Ok r, {| store := store w; cacheService := cs |})
          ∧ keyPrefix cs = keyPrefix (cacheService w)
          ∧ ∀ k, k ≠ wire (cacheService w) key →
                 backend cs !! k = backend (cacheService w) !! k.
Proof.
  destruct (cache_calls_never_throw env wire key v ttl "" (cacheService w))
    as (_ & [r Hr] & _).
  pose proof (after_keyPrefix env wire (CallSet key v ttl) (cacheService w))
    as Hp.
  pose proof (fun k => set_frame env wire key v ttl (cacheService w) k) as Hb.
  cbn [after] in Hp. unfold on_cache, CacheService.set.
  destruct (CacheOps.set env wire key v ttl (cacheService w)) as [r' cs].
  cbn [fst snd] in *. subst r'. by exists r, cs.
Qed.

End ReadFrames.

Section CallerTheorems.
Import UserRepository.
Context {DB : Type} `{UserModel DB} `{UserQueries DB} (env : Env).

Abbreviation wire := CacheService.getPrefixedKey.

Lemma findById_frame userId (w : @World DB) k :
  k ≠ wire (cacheService w) (LegacyKeys.generateUserKey userId) →
  backend (cacheService (findById env userId w).2) !! k
  = backend (cacheService w) !! k.
Proof.
  intros Hk. unfold findById, bind.
  destruct (on_cache_get_frame env (LegacyKeys.generateUserKey userId) w)
    as (r & cs & -> & Hb & Hp).
  destruct (truthy r); [by rewrite <-Hb|].
  unfold on_store. cbn [store cacheService].
  destruct (findUnique userId (store w)) as [[[u|]|e] d];
    cbn [ret snd cacheService]; try by rewrite <-Hb.
  destruct (on_cache_set_frame env (LegacyKeys.generateUserKey userId)
              (row_value u) (Some (Num 900))
              {| store := d; cacheService := cs |})
    as (r1 & cs1 & -> & _ & Hb1).
  cbn [ret snd cacheService store] in *. rewrite Hb1, Hb; [done|].
  by rewrite (wire_prefix (cacheService w) cs).
Qed.

Lemma findAll_frame pagination (w : @World DB) k :
  k ≠ wire (cacheService w)
        (LegacyKeys.generateUsersListKey (page <$> pagination)
           (limit <$> pagination)) →
  backend (cacheService (findAll env pagination w).2) !! k
  = backend (cacheService w) !! k.
Proof.
  intros Hk. unfold findAll, bind.
  set (key := LegacyKeys.generateUsersListKey _ _) in *.
  destruct (on_cache_get_frame env key w) as (r & cs & -> & Hb & Hp).
  destruct (truthy r); [by rewrite <-Hb|].
  unfold on_store. cbn [store cacheService].
  destruct (findMany (window pagination) (store w)) as [[rows|e] d];
    cbn [ret snd cacheService]; [|by rewrite <-Hb].
  destruct (on_cache_set_frame env key (VArray (map row_value rows))
              (Some (Num 300)) {| store := d; cacheService := cs |})
    as (r1 & cs1 & -> & _ & Hb1).
  cbn [ret snd cacheService store] in *. rewrite Hb1, Hb; [done|].
  by rewrite (wire_prefix (cacheService w) cs).
Qed.

Lemma findByEmail_frame address (w : @World DB) k :
  k ≠ wire (cacheService w) (LegacyKeys.generateUserByEmailKey address) →
  (∀ u d, findUniqueByEmail address (store w) = (Ok (Some u), d) →
          k ≠ wire (cacheService w) (LegacyKeys.generateUserKey (id u))) →
  backend (cacheService (findByEmail env address w).2) !! k
  = backend (cacheService w) !! k.
Proof.
  intros Hk Hid. unfold findByEmail, bind.
  set (key := LegacyKeys.generateUserByEmailKey address) in *.
  destruct (on_cache_get_frame env key w) as (r & cs & -> & Hb & Hp).
  destruct (truthy r); [by rewrite <-Hb|].
  unfold on_store. cbn [store cacheService].
  destruct (findUniqueByEmail address (store w)) as [[[u|]|e] d] eqn:Hfind;
    cbn [ret snd cacheService]; try by rewrite <-Hb.
  destruct (on_cache_set_frame env key (row_value u) (Some (Num 900))
              {| store := d; cacheService := cs |})
    as (r1 & cs1 & -> & Hp1 & Hb1).
  cbn [store cacheService] in *.
  destruct (on_cache_set_frame env (LegacyKeys.generateUserKey (id u))
              (row_value u) (Some (Num 900))
              {| store := d; cacheService := cs1 |})
    as (r2 & cs2 & -> & _ & Hb2).
  cbn [ret snd cacheService store] in *.
  rewrite Hb2, Hb1, Hb; [done| |].
  - by rewrite (wire_prefix (cacheService w) cs).
  - rewrite (wire_prefix (cacheService w) cs1) by congruence.
    by apply (Hid u d).
Qed.

(** X26.  A read of the repository writes under its own keys only.  In
    every state of the cache and of the store, [findById] changes no
    entry but the one under the key of the user, [findAll] none but the
    one under the key of the list, and [findByEmail] none but the ones
    under the key of the e-mail and the key of the id of the row it
    found. *)
Theorem reads_write_their_own_keys
    userId address pagination (w : @World DB) k :
  (k ≠ wire (cacheService w) (LegacyKeys.generateUserKey userId) →
   backend (cacheService (findById env userId w).2) !! k
   = backend (cacheService w) !! k)
  ∧ (k ≠ wire (cacheService w)
           (LegacyKeys.generateUsersListKey (page <$> pagination)
              (limit <$> pagination)) →
     backend (cacheService (findAll env pagination w).2) !! k
     = backend (cacheService w) !! k)
  ∧ (k ≠ wire (cacheService w) (LegacyKeys.generateUserByEmailKey address) →
     (∀ u d, findUniqueByEmail address (store w) = (Ok (Some u), d) →
             k ≠ wire (cacheService w) (LegacyKeys.generateUserKey (id u))) →
     backend (cacheService (findByEmail env address w).2) !! k
     = backend (cacheService w) !! k).
Proof.
  split_and!.
  - apply findById_frame.
  - apply findAll_frame.
  - apply findByEmail_frame.
Qed.

End CallerTheorems.

Section ServiceCallers.
Import UserRepository.
Context {DB : Type} `{UserModel DB} `{UserQueries DB} (env : Env).
Context (hash : string → string).

Abbreviation wire := CacheService.getPrefixedKey.

Lemma ceil_div_bounds (a b : Z) :
  (0 < b)%Z →
  ((UserService.ceil_div a b - 1) * b < a ≤ UserService.ceil_div a b * b)%Z.
Proof.
  intros Hb. unfold UserService.ceil_div.
  pose proof (Z.mul_div_le (- a) b Hb).
  pose proof (Z.mul_succ_div_gt (- a) b Hb). lia.
Qed.

(** What passes the checks of the service: the comparisons are false
    for [NaN]. *)
Lemma checks_pass (p : PaginationParams) :
  JS.lt (limit p) (Num 1) = false ∧ JS.lt (Num 100) (limit p) = false
  ∧ JS.lt (page p) (Num 1) = false
  ↔ (limit p = NaN ∨ ∃ l, limit p = Num l ∧ (1 ≤ l ≤ 100)%Z)
    ∧ (page p = NaN ∨ page p = Infinity ∨ ∃ q, page p = Num q ∧ (1 ≤ q)%Z).
Proof.
  destruct (limit p) as [l| | |], (page p) as [q| | |]; simpl;
    rewrite ?Z.ltb_ge;
    (split;
     [ intros (Hl & Hl' & Hp); try done;
       (split;
        [ first [ by left | right; eexists; split; [done|lia] ]
        | first [ by left | by right; left
                | right; right; eexists; split; [done|lia] ] ])
     | intros [[?|(l0 & ? & ?)] [?|[?|(q0 & ? & ?)]]]; simplify_eq;
       split_and!; first [done|lia] ]).
Qed.

(** The key of the list for a pagination that passed the checks. *)
Lemma checked_page_key (p : PaginationParams) :
  JS.lt (limit p) (Num 1) = false → JS.lt (page p) (Num 1) = false →
  LegacyKeys.generateUsersListKey (page <$> Some p) (limit <$> Some p)
  = match page p, limit p with
    | NaN, _ | _, NaN => "users:list:all"
    | q, l => "users:list:page:" +:+ number_text q
                +:+ ":limit:" +:+ number_text l
    end.
Proof.
  unfold LegacyKeys.generateUsersListKey, truthy_num. simpl.
  destruct (limit p) as [l| | |], (page p) as [q| | |]; simpl;
    rewrite ?Z.ltb_ge; intros Hl Hp; try done;
    repeat match goal with
           | |- context [(?x =? 0)%Z] =>
               assert ((x =? 0)%Z = false) as -> by lia
           end; done.
Qed.

(** X27.  The service checks a pagination before anything is read: a
    limit below 1 or above 100 and a page below 1 are refused with
    status 400, and the store and the cache are as they were.  The
    comparisons are false for [NaN], so what passes is a limit that is a
    whole number from 1 to 100 or [NaN], with a page that is a whole
    number from 1 on, [Infinity] or [NaN].  A pagination that passes is
    read and cached under the key of its page and its limit, and under
    the key of the whole list when one of the two is [NaN]; no other
    entry of the cache changes; and the answer carries the page, the
    limit and the number of pages that hold the total, which is [NaN]
    when the limit is. *)
Theorem service_findAll_checks_pagination p (w : @World DB) :
  (JS.lt (limit p) (Num 1) = true ∨ JS.lt (Num 100) (limit p) = true →
   UserService.findAll env (Some p) w
   = (Throw "400: Limit must be between 1 and 100", w))
  ∧ (JS.lt (limit p) (Num 1) = false → JS.lt (Num 100) (limit p) = false →
     JS.lt (page p) (Num 1) = true →
     UserService.findAll env (Some p) w
     = (Throw "400: Page must be greater than 0", w))
  ∧ (JS.lt (limit p) (Num 1) = false ∧ JS.lt (Num 100) (limit p) = false
     ∧ JS.lt (page p) (Num 1) = false
     ↔ (limit p = NaN ∨ ∃ l, limit p = Num l ∧ (1 ≤ l ≤ 100)%Z)
       ∧ (page p = NaN ∨ page p = Infinity
          ∨ ∃ q, page p = Num q ∧ (1 ≤ q)%Z))
  ∧ (JS.lt (limit p) (Num 1) = false → JS.lt (Num 100) (limit p) = false →
     JS.lt (page p) (Num 1) = false →
     (∀ k,
        k ≠ wire (cacheService w)
              match page p, limit p with
              | NaN, _ | _, NaN => "users:list:all"
              | q, l => "users:list:page:" +:+ number_text q
                          +:+ ":limit:" +:+ number_text l
              end →
        backend (cacheService (UserService.findAll env (Some p) w).2) !! k
        = backend (cacheService w) !! k)
     ∧ ∀ result,
         (UserService.findAll env (Some p) w).1 = Ok result →
         ∃ m, UserService.meta result = Some m
              ∧ UserService.meta_page m = page p
              ∧ UserService.meta_limit m = limit p
              ∧ match limit p with
                | Num l =>
                    ∃ pages, UserService.totalPages m = Num pages
                             ∧ ((pages - 1) * l < UserService.total m
                                ≤ pages * l)%Z
                | _ => UserService.totalPages m = NaN
                end).
Proof.
  split_and!.
  - intros Hbad. unfold UserService.findAll.
    assert (JS.lt (limit p) (Num 1) || JS.lt (Num 100) (limit p) = true)
      as -> by (destruct Hbad as [-> | ->]; [done|by rewrite orb_true_r]).
    done.
  - intros Hl Hl' Hp. unfold UserService.findAll. by rewrite Hl, Hl', Hp.
  - apply checks_pass.
  - intros Hl Hl' Hp.
    assert (Hrun : UserService.findAll env (Some p) w
                   = (found ← findAll env (Some p);
                      n ← count;
                      ret {| UserService.users := found;
                             UserService.meta :=
                               Some {| UserService.meta_page := page p;
                                       UserService.meta_limit := limit p;
                                       UserService.total := n;
                                       UserService.totalPages :=
                                         UserService.ceil_quot n (limit p) |}
                          |}) w).
    { unfold UserService.findAll. by rewrite Hl, Hl', Hp. }
    rewrite Hrun. split.
    + intros k Hk. rewrite <-checked_page_key in Hk by done.
      pose proof (findAll_frame env (Some p) w k Hk) as Hframe.
      unfold bind.
      destruct (findAll env (Some p) w) as [[found|e] w1]; [|done].
      cbn [snd] in Hframe. unfold count, on_store.
      by destruct (model_count (store w1)) as [[n|e] d].
    + intros result. unfold bind.
      destruct (findAll env (Some p) w) as [[found|e] w1]; [|done].
      unfold count, on_store.
      destruct (model_count (store w1)) as [[n|e] d]; [|done].
      intros [= <-]. eexists. split_and!; try done. cbn.
      destruct (limit p) as [l| | |]; try done. simpl in Hl.
      apply Z.ltb_ge in Hl.
      unfold UserService.ceil_quot.
      assert ((l =? 0)%Z = false) as -> by lia.
      eexists. split; [done|]. apply ceil_div_bounds. lia.
Qed.

(** A hit on the key of an e-mail: the read returns what the cache holds
    and does not ask the store. *)
Lemma findByEmail_hit address d cs u :
  healthy cs →
  backend cs !! wire cs (LegacyKeys.generateUserByEmailKey address)
  = Some (row_entry u) →
  ∃ cs', findByEmail env address {| store := d; cacheService := cs |}
         = (Ok (cached_value u), {| store := d; cacheService := cs' |})
         ∧ backend cs' = backend cs.
Proof.
  intros Hh Hk. unfold findByEmail, bind.
  destruct (healthy_get (LegacyKeys.generateUserByEmailKey address) cs Hh)
    as (cs' & Hget & _ & Hb & _).
  rewrite (on_cache_eq _ {| store := d; cacheService := cs |} _ _ Hget).
  rewrite (cached_row cs _ u Hk). simpl. eauto.
Qed.

(** X28.  The service asks the cache whether an e-mail is taken.  On a
    connected cache that answers and holds a row under the key of the
    e-mail, [create] is refused with status 409 whatever the store holds,
    and neither the store nor an entry of the cache changes. *)
Theorem create_is_refused_from_the_cache data (w : @World DB) u :
  healthy (cacheService w) →
  backend (cacheService w)
    !! wire (cacheService w)
         (LegacyKeys.generateUserByEmailKey (create_email data))
  = Some (row_entry u) →
  (UserService.create env hash data w).1 = Throw "409: Email already exists"
  ∧ store (UserService.create env hash data w).2 = store w
  ∧ backend (cacheService (UserService.create env hash data w).2)
    = backend (cacheService w).
Proof.
  intros Hh Hk. destruct w as [d cs]. cbn [store cacheService] in *.
  unfold UserService.create, bind.
  destruct (findByEmail_hit (create_email data) d cs u Hh Hk)
    as (cs' & -> & Hb).
  done.
Qed.




End ServiceCallers.

Section ServiceCallerRuns.
Import UserRepository.

(** X28 on a store that has no row at all: the cache says the e-mail is
    taken. *)
Lemma create_is_refused_from_the_cache_witness :
  (UserService.create Example.env (fun password => "$2b$12$" +:+ password)
     Example.mary
     (Example.world Example.unreachable
        (Example.connected
           {[ "app:user:email:mary@test.com" := row_entry Example.john ]}
           []))).1
  = Throw "409: Email already exists".
Proof.
  edestruct (create_is_refused_from_the_cache (DB := MemStore.t) Example.env
               (fun password => "$2b$12$" +:+ password) Example.mary
               (Example.world Example.unreachable
                  (Example.connected
                     {[ "app:user:email:mary@test.com"
                        := row_entry Example.john ]} [])) Example.john)
    as (Hrefused & _).
  - eexists. split; [split; reflexivity|reflexivity].
  - vm_compute. reflexivity.
  - exact Hrefused.
Defined.

End ServiceCallerRuns.

Section BaseRepositoryCaching.
Import CacheKeyGenerator BaseRepository.
Context (env : Env) (entityName entityPluralName : string).

Abbreviation wire := CacheService.getPrefixedKey.

(** The text of a value that comes back from its JSON text is not
    empty. *)
Lemma plain_text_not_empty v :
  plain v = true → String.eqb (text_of v) "" = false.
Proof.
  intros Hplain.
  destruct (jsvalue_nested_ind reads_back reads_back_prim
              ltac:(by intros iso ?) reads_back_array reads_back_object
              v Hplain) as (_ & (c & t & -> & _) & _).
  done.
Qed.

(** What a value stored under a key reads as. *)
Lemma cached_plain cs key v ttl :
  plain v = true →
  backend cs !! wire cs key
  = Some {| Redis.payload := text_of v; Redis.expiry := ttl |} →
  cached cs key = v.
Proof.
  intros Hplain Hk. unfold cached. rewrite Hk. cbn [Redis.payload].
  rewrite plain_text_not_empty by done.
  by destruct (round_trip_text v (plain_round_trips v Hplain)) as [_ ->].
Qed.

Lemma cacheByField_run f v entity t cs :
  healthy cs → plain (entity_value entity) = true → (0 < t)%Z →
  ∃ cs', cacheByField env entityName f v entity (Some (Num t)) cs
         = (Ok tt, cs')
         ∧ healthy cs'
         ∧ keyPrefix cs' = keyPrefix cs
         ∧ backend cs'
           = <[wire cs (entityByField entityName f v)
               := {| Redis.payload := text_of (entity_value entity);
                     Redis.expiry := Some t |}]> (backend cs).
Proof.
  intros Hh Hplain Ht.
  destruct (round_trip_text _ (plain_round_trips _ Hplain)) as [Htext _].
  destruct (healthy_set env (entityByField entityName f v)
              (entity_value entity) t cs _ Hh Htext Ht)
    as (cs' & Hset & Hh' & Hb & Hp).
  exists cs'. unfold cacheByField, bind. cbn [default from_option].
  unfold Datatypes.id. by rewrite Hset.
Qed.

Lemma cacheById_run entity t cs :
  healthy cs → plain (entity_value entity) = true → (0 < t)%Z →
  ∃ cs', cacheById env entityName entity (Some (Num t)) cs = (Ok tt, cs')
         ∧ healthy cs'
         ∧ keyPrefix cs' = keyPrefix cs
         ∧ backend cs'
           = <[wire cs (entityById entityName (entity_id entity))
               := {| Redis.payload := text_of (entity_value entity);
                     Redis.expiry := Some t |}]> (backend cs).
Proof.
  intros Hh Hplain Ht.
  destruct (round_trip_text _ (plain_round_trips _ Hplain)) as [Htext _].
  destruct (healthy_set env (entityById entityName (entity_id entity))
              (entity_value entity) t cs _ Hh Htext Ht)
    as (cs' & Hset & Hh' & Hb & Hp).
  exists cs'. unfold cacheById, bind. cbn [default from_option].
  unfold Datatypes.id. by rewrite Hset.
Qed.

Lemma cacheByFields_run fields entity t cs :
  healthy cs → plain (entity_value entity) = true → (0 < t)%Z →
  ∃ cs', for_each fields
           (fun fv => cacheByField env entityName (field fv) (value fv)
                        entity (Some (Num t))) cs = (Ok tt, cs')
         ∧ healthy cs'
         ∧ keyPrefix cs' = keyPrefix cs
         ∧ ∀ k, backend cs' !! k
                = if bool_decide
                       (k ∈ map (fun fv => wire cs (entityByField entityName
                                                      (field fv) (value fv)))
                              fields)
                  then Some {| Redis.payload := text_of (entity_value entity);
                               Redis.expiry := Some t |}
                  else backend cs !! k.
Proof.
  intros Hh Hplain Ht. revert cs Hh.
  induction fields as [|fv fields IH]; intros cs Hh.
  { exists cs. split_and!; try done. }
  destruct (cacheByField_run (field fv) (value fv) entity t cs Hh Hplain Ht)
    as (cs1 & Hrun & Hh1 & Hp1 & Hb1).
  destruct (IH cs1 Hh1) as (cs2 & Hrest & Hh2 & Hp2 & Hb2).
  exists cs2. cbn [for_each]. unfold bind at 1. rewrite Hrun, Hrest.
  split_and!; [done|done|congruence|]. intros k. rewrite Hb2, Hb1.
  cbn [map].
  assert (Hmap : map (fun fv0 => wire cs1 (entityByField entityName
                                             (field fv0) (value fv0))) fields
                 = map (fun fv0 => wire cs (entityByField entityName
                                              (field fv0) (value fv0))) fields).
  { apply map_ext. intros fv0. by apply wire_prefix. }
  rewrite Hmap.
  destruct (bool_decide (k ∈ map _ fields)) eqn:Hin.
  - apply bool_decide_eq_true in Hin.
    rewrite bool_decide_eq_true_2; [done|]. apply elem_of_cons. by right.
  - apply bool_decide_eq_false in Hin.
    destruct (decide (k = wire cs (entityByField entityName (field fv)
                                     (value fv)))) as [->|Hne].
    + rewrite lookup_insert_eq.
      rewrite bool_decide_eq_true_2; [done|]. apply elem_of_cons. by left.
    + rewrite lookup_insert_ne by done.
      rewrite bool_decide_eq_false_2; [done|].
      intros [?|?]%elem_of_cons; done.
Qed.

(** What [cacheMultiplePatterns] leaves, on a connected cache that
    answers. *)
Lemma cacheMultiplePatterns_run entity fields ttl cs :
  healthy cs → plain (entity_value entity) = true →
  positive (default (Num MEDIUM) ttl) = true →
  ∃ cs', cacheMultiplePatterns env entityName entity (Some fields) ttl cs
         = (Ok tt, cs')
         ∧ healthy cs'
         ∧ keyPrefix cs' = keyPrefix cs
         ∧ ∀ k, backend cs' !! k
                = if bool_decide
                       (k ∈ wire cs (entityById entityName (entity_id entity))
                            :: map (fun fv => wire cs (entityByField entityName
                                                         (field fv) (value fv)))
                                 fields)
                  then Some {| Redis.payload := text_of (entity_value entity);
                               Redis.expiry :=
                                 Some (whole (default (Num MEDIUM) ttl)) |}
                  else backend cs !! k.
Proof.
  intros Hh Hplain Ht. unfold cacheMultiplePatterns.
  destruct (default (Num MEDIUM) ttl) as [t| | |]; try done.
  apply Z.ltb_lt in Ht. cbn [whole].
  destruct (cacheById_run entity t cs Hh Hplain Ht)
    as (cs1 & Hset & Hh1 & Hp1 & Hb1).
  destruct (cacheByFields_run fields entity t cs1 Hh1
              Hplain Ht) as (cs2 & Hrest & Hh2 & Hp2 & Hb2).
  exists cs2. unfold bind at 1.
  rewrite Hset, Hrest. split_and!; [done|done|congruence|].
  intros k. rewrite Hb2, Hb1.
  assert (Hmap : map (fun fv0 => wire cs1 (entityByField entityName
                                             (field fv0) (value fv0))) fields
                 = map (fun fv0 => wire cs (entityByField entityName
                                              (field fv0) (value fv0))) fields).
  { apply map_ext. intros fv0. by apply wire_prefix. }
  rewrite Hmap.
  destruct (bool_decide (k ∈ map _ fields)) eqn:Hin.
  - apply bool_decide_eq_true in Hin.
    rewrite bool_decide_eq_true_2; [done|]. apply elem_of_cons. by right.
  - apply bool_decide_eq_false in Hin.
    destruct (decide (k = wire cs (entityById entityName (entity_id entity))))
      as [->|Hne].
    + rewrite lookup_insert_eq.
      rewrite bool_decide_eq_true_2; [done|]. apply elem_of_cons. by left.
    + rewrite lookup_insert_ne by done.
      rewrite bool_decide_eq_false_2; [done|].
      intros [?|?]%elem_of_cons; done.
Qed.

End BaseRepositoryCaching.

Section BaseRepositoryRoundTrip.
Import CacheKeyGenerator BaseRepository.
Context (env : Env) (entityName entityPluralName : string).

Abbreviation wire := CacheService.getPrefixedKey.

(** What [invalidateMultiplePatterns] leaves, on a connected cache that
    answers. *)
Lemma invalidateMultiplePatterns_run entityId additionalFields cs :
  healthy cs →
  ∃ cs', invalidateMultiplePatterns entityName entityId additionalFields cs
         = (Ok tt, cs')
         ∧ healthy cs'
         ∧ keyPrefix cs' = keyPrefix cs
         ∧ ∀ k, backend cs' !! k
                = if existsb (fun call => removes (keyPrefix cs) call k)
                       (multiple_invalidation entityName entityId
                          additionalFields)
                  then None else backend cs !! k.
Proof.
  intros Hh. rewrite (invalidateMultiplePatterns_trace env).
  eexists. split; [reflexivity|].
  apply invalidating_calls; [done|].
  apply multiple_invalidation_invalidating.
Qed.

(** The change that takes a field away from the cache. *)
Lemma removal_invalidates prefix entityId fields fv :
  fv ∈ fields → value fv ≠ "" →
  existsb
    (fun call => removes prefix call
                   (prefix +:+ ":" +:+ entityByField entityName (field fv)
                                         (value fv)))
    (multiple_invalidation entityName entityId
       (Some (map (fun fv => {| changed := field fv;
                                oldValue := Some (value fv);
                                newValue := None |}) fields))) = true.
Proof.
  intros Hin Hvalue. unfold multiple_invalidation. cbn [existsb].
  apply orb_true_iff. right. apply existsb_exists.
  exists (CallDelete (entityByField entityName (field fv) (value fv))).
  split; [|cbn [removes]; by apply bool_decide_eq_true_2].
  apply in_flat_map.
  exists {| changed := field fv; oldValue := Some (value fv);
            newValue := None |}.
  split.
  - cbn [default from_option]. unfold Datatypes.id.
    apply in_map_iff. exists fv. split; [done|]. by apply list_elem_of_In.
  - unfold change_invalidation. cbn [oldValue newValue changed truthy_str].
    apply String.eqb_neq in Hvalue. rewrite Hvalue. by left.
Qed.

(** X30.  What the base repository caches, it finds, and what it
    invalidates is a miss.  On a connected cache that answers, after
    [cacheMultiplePatterns] of an entity that comes back from its JSON
    text, [getFromCacheById] and [getFromCacheByField], for each field
    given, return the entity; after [invalidateMultiplePatterns] with
    those fields as old values they return [null], for the id and for
    each field whose value is not empty. *)
Theorem cached_patterns_round_trip entity fields ttl cs :
  healthy cs →
  plain (entity_value entity) = true →
  positive (default (Num MEDIUM) ttl) = true →
  (getFromCacheById entityName (entity_id entity)
     (cacheMultiplePatterns env entityName entity (Some fields) ttl cs).2).1
  = Ok (entity_value entity)
  ∧ (∀ fv, fv ∈ fields →
       (getFromCacheByField entityName (field fv) (value fv)
          (cacheMultiplePatterns env entityName entity (Some fields) ttl
             cs).2).1
       = Ok (entity_value entity))
  ∧ (getFromCacheById entityName (entity_id entity)
       (invalidateMultiplePatterns entityName (entity_id entity)
          (Some (map (fun fv => {| changed := field fv;
                                   oldValue := Some (value fv);
                                   newValue := None |}) fields))
          (cacheMultiplePatterns env entityName entity (Some fields) ttl
             cs).2).2).1
    = Ok null
  ∧ (∀ fv, fv ∈ fields → value fv ≠ "" →
       (getFromCacheByField entityName (field fv) (value fv)
          (invalidateMultiplePatterns entityName (entity_id entity)
             (Some (map (fun fv => {| changed := field fv;
                                      oldValue := Some (value fv);
                                      newValue := None |}) fields))
             (cacheMultiplePatterns env entityName entity (Some fields) ttl
                cs).2).2).1
       = Ok null).
Proof.
  intros Hh Hplain Ht.
  destruct (cacheMultiplePatterns_run env entityName entity fields ttl cs
              Hh Hplain Ht) as (cs1 & -> & Hh1 & Hp1 & Hb1).
  cbn [snd].
  destruct (invalidateMultiplePatterns_run (entity_id entity)
              (Some (map (fun fv => {| changed := field fv;
                                       oldValue := Some (value fv);
                                       newValue := None |}) fields))
              cs1 Hh1) as (cs2 & -> & Hh2 & Hp2 & Hb2).
  cbn [snd]. unfold getFromCacheById, getFromCacheByField.
  assert (Hhit : ∀ key,
            wire cs key ∈ wire cs (entityById entityName (entity_id entity))
              :: map (fun fv => wire cs (entityByField entityName (field fv)
                                           (value fv))) fields →
            (CacheService.get key cs1).1 = Ok (entity_value entity)).
  { intros key Hin.
    destruct (healthy_get key cs1 Hh1) as (cs' & -> & _). cbn [fst].
    f_equal.
    apply (cached_plain cs1 key _
             (Some (whole (default (Num MEDIUM) ttl))) Hplain).
    rewrite Hb1, (wire_prefix cs cs1) by done.
    by rewrite bool_decide_eq_true_2. }
  assert (Hmiss : ∀ key,
            existsb (fun call => removes (keyPrefix cs1) call (wire cs1 key))
              (multiple_invalidation entityName (entity_id entity)
                 (Some (map (fun fv => {| changed := field fv;
                                          oldValue := Some (value fv);
                                          newValue := None |}) fields)))
            = true →
            (CacheService.get key cs2).1 = Ok null).
  { intros key Hgone.
    destruct (healthy_get key cs2 Hh2) as (cs' & -> & _). cbn [fst].
    unfold cached. by rewrite Hb2, (wire_prefix cs1 cs2), Hgone by done. }
  split_and!.
  - apply Hhit, elem_of_cons. by left.
  - intros fv Hin. apply Hhit, elem_of_cons. right.
    apply list_elem_of_fmap. by exists fv.
  - apply Hmiss. unfold multiple_invalidation. cbn [existsb removes].
    by rewrite bool_decide_eq_true_2.
  - intros fv Hin Hvalue. apply Hmiss.
    by apply removal_invalidates.
Qed.

End BaseRepositoryRoundTrip.

Section BaseRepositoryRoundTripRuns.
Import CacheKeyGenerator BaseRepository.

(** X30 on a mug cached under its id and its slug. *)
Lemma cached_patterns_round_trip_witness :
  (getFromCacheByField "product" "slug" "mug"
     (cacheMultiplePatterns Example.env "product"
        {| entity_id := IdString "9";
           entity_value := VObject [("id", VPrim (PStr "9"));
                                    ("slug", VPrim (PStr "mug"))] |}
        (Some [ {| field := "slug"; value := "mug" |} ]) None
        (Example.connected ∅ [])).2).1
  = Ok (VObject [("id", VPrim (PStr "9")); ("slug", VPrim (PStr "mug"))])
  ∧ (getFromCacheByField "product" "slug" "mug"
       (invalidateMultiplePatterns "product" (IdString "9")
          (Some [ {| changed := "slug"; oldValue := Some "mug";
                     newValue := None |} ])
          (cacheMultiplePatterns Example.env "product"
             {| entity_id := IdString "9";
                entity_value := VObject [("id", VPrim (PStr "9"));
                                         ("slug", VPrim (PStr "mug"))] |}
             (Some [ {| field := "slug"; value := "mug" |} ]) None
             (Example.connected ∅ [])).2).2).1
    = Ok null.
Proof.
  destruct (cached_patterns_round_trip Example.env "product"
              {| entity_id := IdString "9";
                 entity_value := VObject [("id", VPrim (PStr "9"));
                                          ("slug", VPrim (PStr "mug"))] |}
              [ {| field := "slug"; value := "mug" |} ] None
              (Example.connected ∅ []))
    as (_ & Hfound & _ & Hgone).
  - eexists. split; [split; reflexivity|reflexivity].
  - reflexivity.
  - reflexivity.
  - split.
    + apply (Hfound {| field := "slug"; value := "mug" |}).
      apply list_elem_of_here.
    + apply (Hgone {| field := "slug"; value := "mug" |});
        [apply list_elem_of_here|discriminate].
Defined.

End BaseRepositoryRoundTripRuns.
